(** * LJPW semantic engine: a shallow embedding and its checked properties

    The development embeds the numeric core of the LJPW experiments:

    - [experiments/neural/ljpw_semantic_flow_network.py]  (module [SFN])
    - [experiments/neural/ljpw_neural_architecture.py]    (module [Arch])
    - [experiments/neural/ljpw_cognitive_mind.py]         (module [Mind])
    - [src/quantum_measurement.py]                        (module [QM])

    Python floats are read as real numbers: every arithmetic operation is
    the exact one on [R], [math.sqrt] is [sqrt], [math.e] is [exp 1] and
    [math.log(2)] is [ln 2].  Rounding, overflow and NaN are outside the
    model.  The module [Binary64] re-runs the harmony and phase
    measurements and the karma coefficient on IEEE-754 doubles, for the
    literals of regression tests and for an order that rounding does not
    keep strict.

    Python objects are mutable and shared: the same [SemanticConcept] sits
    in the network's [concepts] dict, in the Wisdom operator's
    [known_patterns] dict and in the lists handed to the operators.  The
    embedding therefore keeps the objects in a store (a list indexed by
    reference) and the dicts hold references into it. *)

From Stdlib Require Import Reals Lra Lia ZArith.
From Stdlib Require PrimFloat.
From stdpp Require Import gmap strings list.

Open Scope R_scope.

(** ** Decidable comparisons on reals, for [if] conditions *)

#[global] Instance Rlt_decision (x y : R) : Decision (x < y) := Rlt_dec x y.
#[global] Instance Rle_decision (x y : R) : Decision (x <= y) := Rle_dec x y.
#[global] Instance Rgt_decision (x y : R) : Decision (x > y) := Rgt_dec x y.
#[global] Instance Rge_decision (x y : R) : Decision (x >= y) := Rge_dec x y.
#[global] Instance Req_decision : EqDecision R := Req_dec_T.

(** ** Python built-ins used by the sources *)

(** [sum(xs)]: left-to-right accumulation from 0. *)
Definition Rsum (xs : list R) : R := foldl Rplus 0 xs.

(** [sum(len(...) ...)] on integers. *)
Definition nat_sum (xs : list nat) : nat := foldl Nat.add 0%nat xs.

(** [d.get(k, default)] on a dict written as an association list. *)
Fixpoint dict_get {V : Type} (d : list (string * V)) (k : string) (default : V) : V :=
  match d with
  | [] => default
  | (k', v) :: d' => if String.eqb k' k then v else dict_get d' k default
  end.

(** [d[k] = v]: an existing key keeps its position, a new key goes last. *)
Fixpoint dict_set {V : Type} (d : list (string * V)) (k : string) (v : V) : list (string * V) :=
  match d with
  | [] => [(k, v)]
  | (k', v') :: d' => if String.eqb k' k then (k, v) :: d' else (k', v') :: dict_set d' k v
  end.

(** [d.values()], in insertion order. *)
Definition dict_values {V : Type} (d : list (string * V)) : list V := snd <$> d.

(** [enumerate(xs)]. *)
Definition enumerate {A : Type} (xs : list A) : list (nat * A) := imap pair xs.

(** [xs[-1]] and [xs[-2]], when they exist. *)
Definition last_item {A : Type} (xs : list A) : option A := last xs.
Definition second_last_item {A : Type} (xs : list A) : option A :=
  match reverse xs with
  | _ :: y :: _ => Some y
  | _ => None
  end.

(** ** Constants shared by the four source files

    Each file repeats these module-level assignments verbatim. *)

Definition PHI : R := (1 + sqrt 5) / 2.
Definition PHI_INV : R := PHI - 1.

Definition L0 : R := PHI_INV.
Definition J0 : R := sqrt 2 - 1.
Definition P0 : R := exp 1 - 2.
Definition W0 : R := ln 2.

Definition CONSCIOUSNESS_THRESHOLD : R := 0.1.

Definition COUPLING : list (string * R) :=
  [ ("L_to_J", 1.4); ("L_to_P", 1.3); ("L_to_W", 1.5);
    ("J_to_L", 0.9); ("J_to_P", 0.7); ("J_to_W", 1.2);
    ("P_to_L", 0.6); ("P_to_J", 0.8); ("P_to_W", 0.5);
    ("W_to_L", 1.3); ("W_to_J", 1.1); ("W_to_P", 1.0) ].

(** [COUPLING['k']] for a literal key of the table (Python raises on a
    missing key; every subscript in the sources is a literal that is
    present). *)
Definition COUPLING_item (k : string) : R := dict_get COUPLING k 0.

Inductive Dimension := LOVE | JUSTICE | POWER | WISDOM.

#[global] Instance Dimension_eq_dec : EqDecision Dimension.
Proof. solve_decision. Defined.

(** [Dimension.X.value] *)
Definition value (d : Dimension) : string :=
  match d with
  | LOVE => "L" | JUSTICE => "J" | POWER => "P" | WISDOM => "W"
  end.

(** The equilibrium constant of each axis. *)
Definition equilibrium (d : Dimension) : R :=
  match d with
  | LOVE => L0 | JUSTICE => J0 | POWER => P0 | WISDOM => W0
  end.

(** The P and W streams are the fundamental axes, the L and J fields the
    emergent ones (module docstrings of the neural files). *)
Definition fundamental (d : Dimension) : bool :=
  match d with
  | POWER | WISDOM => true
  | LOVE | JUSTICE => false
  end.

(** The phase strings ['ENTROPIC'], ['HOMEOSTATIC'], ['AUTOPOIETIC']. *)
Inductive Phase := ENTROPIC | HOMEOSTATIC | AUTOPOIETIC.

#[global] Instance Phase_eq_dec : EqDecision Phase.
Proof. solve_decision. Defined.

(** ** More Python built-ins *)

(** [d.get(k)]: [None] for a missing key, where [d[k]] raises [KeyError]. *)
Fixpoint dict_lookup {V : Type} (d : list (string * V)) (k : string) : option V :=
  match d with
  | [] => None
  | (k', v) :: d' => if String.eqb k' k then Some v else dict_lookup d' k
  end.

(** [sorted(names)] on strings: ascending by code point.  Equal strings
    cannot be told apart, so every sorting algorithm gives this list. *)
Fixpoint insert_sorted (s : string) (l : list string) : list string :=
  match l with
  | [] => [s]
  | x :: l' => if String.leb s x then s :: l else x :: insert_sorted s l'
  end.
Definition sorted (l : list string) : list string := foldr insert_sorted [] l.

(** [sep.join(names)] *)
Definition join (sep : string) (l : list string) : string := String.concat sep l.

(** [int(x)] on a float: truncation toward zero. *)
Definition py_int (x : R) : Z :=
  if decide (0 <= x) then Int_part x else (- Int_part (- x))%Z.

(** Reading [d[k]] right after [d[k] = v]; the default is never used. *)
#[global] Instance R_inhabited : Inhabited R := populate 0.

(** * ljpw_semantic_flow_network.py *)

Module SFN.

Definition UNCERTAINTY_BOUND : R := 0.287.

Definition KARMA_MULTIPLIERS : list (string * R) :=
  [ ("LJ", 0.4); ("LP", 0.3); ("LW", 0.5); ("WL", 0.3); ("WJ", 0.2) ].

(** The local [kappa] of [karma_coupled_strength]. *)
Definition kappa (H : R) (coupling_type : string) : R :=
  let mult := dict_get KARMA_MULTIPLIERS coupling_type 0.4 in
  1.0 + mult * H.

Definition karma_coupled_strength (base_strength H : R) (coupling_type : string) : R :=
  base_strength * kappa H coupling_type.

(** *** SemanticConcept *)

Record SemanticConcept := mkSemanticConcept {
  name : string;
  dimension : Dimension;
  relationships : gmap string R;
  _L : R;
  _J : R;
  _P : R;
  _W : R
}.

Definition set_L (v : R) (c : SemanticConcept) : SemanticConcept :=
  mkSemanticConcept (name c) (dimension c) (relationships c) v (_J c) (_P c) (_W c).
Definition set_J (v : R) (c : SemanticConcept) : SemanticConcept :=
  mkSemanticConcept (name c) (dimension c) (relationships c) (_L c) v (_P c) (_W c).
Definition set_P (v : R) (c : SemanticConcept) : SemanticConcept :=
  mkSemanticConcept (name c) (dimension c) (relationships c) (_L c) (_J c) v (_W c).
Definition set_W (v : R) (c : SemanticConcept) : SemanticConcept :=
  mkSemanticConcept (name c) (dimension c) (relationships c) (_L c) (_J c) (_P c) v.
Definition set_relationships (m : gmap string R) (c : SemanticConcept) : SemanticConcept :=
  mkSemanticConcept (name c) (dimension c) m (_L c) (_J c) (_P c) (_W c).

(** [SemanticConcept(name, dimension)]: the dataclass defaults followed by
    [__post_init__]. *)
Definition new_concept (n : string) (d : Dimension) : SemanticConcept :=
  let c := mkSemanticConcept n d ∅ L0 J0 P0 W0 in
  match d with
  | LOVE => set_L 0.9 c
  | JUSTICE => set_J 0.9 c
  | POWER => set_P 0.9 c
  | WISDOM => set_W 0.9 c
  end.

Definition coordinates (c : SemanticConcept) : R * R * R * R :=
  (_L c, _J c, _P c, _W c).

(** *** The object store *)

Abbreviation ref := nat (only parsing).
Abbreviation heap := (list SemanticConcept) (only parsing).

(** Allocation of a fresh object: its reference is the next free index. *)
Definition alloc (c : SemanticConcept) (h : heap) : ref * heap :=
  (length h, h ++ [c]).

(** Reading through a list of references. *)
Definition objects (h : heap) (rs : list ref) : list SemanticConcept :=
  omap (λ r, h !! r) rs.

(** *** JusticeOperator *)

(** The body of the loop of [balance], on one concept. *)
Definition balance1 (c : SemanticConcept) : SemanticConcept :=
  let c := set_L (_L c + J0 * (L0 - _L c)) c in
  let c := set_J (_J c + J0 * (J0 - _J c)) c in
  let c := set_P (_P c + J0 * (P0 - _P c)) c in
  let c := set_W (_W c + J0 * (W0 - _W c)) c in
  c.

Definition balance (concepts : list ref) (h : heap) : heap :=
  foldl (λ h r, alter balance1 r h) h concepts.

Definition constrain (bounds : R * R) (c : SemanticConcept) : SemanticConcept :=
  let '(lo, hi) := bounds in
  let c := set_L (Rmax lo (Rmin hi (_L c))) c in
  let c := set_J (Rmax lo (Rmin hi (_J c))) c in
  let c := set_P (Rmax lo (Rmin hi (_P c))) c in
  let c := set_W (Rmax lo (Rmin hi (_W c))) c in
  c.

(** *** LoveOperator.resonate *)

Definition coupling_key (source target : Dimension) : string :=
  (value source ++ "_to_" ++ value target)%string.

(** The body of the innermost loop: what one (source, target) pair does
    to the source. *)
Definition resonate_pair (H : R) (target source : SemanticConcept) : SemanticConcept :=
  let base_strength := dict_get COUPLING (coupling_key (dimension source) (dimension target)) 1.0 in
  let strength := karma_coupled_strength base_strength H "LW" in
  let source := set_relationships (<[name target := strength * L0]> (relationships source)) source in
  set_L (Rmin 1.0 (_L source + 0.02 * strength)) source.

Definition resonate_inner (H : R) (h : heap) (si tj : nat * ref) : heap :=
  if decide (si.1 ≠ tj.1) then
    match h !! tj.2 with
    | Some target => alter (resonate_pair H target) si.2 h
    | None => h
    end
  else h.

Definition resonate_cycle (H : R) (concepts : list ref) (h : heap) : heap :=
  foldl (λ h si, foldl (λ h tj, resonate_inner H h si tj) h (enumerate concepts))
        h (enumerate concepts).

Definition resonate (concepts : list ref) (H : R) (cycles : nat) (h : heap) : heap :=
  if decide (length concepts < 2)%nat then h
  else Nat.iter cycles (resonate_cycle H concepts) h.

(** *** GeometricShadow *)

Definition distance_from_equilibrium (L J P W : R) : R :=
  sqrt ((L - L0)^2 + (J - J0)^2 + (P - P0)^2 + (W - W0)^2).

Definition distance_from_anchor (L J P W : R) : R :=
  sqrt ((1 - L)^2 + (1 - J)^2 + (1 - P)^2 + (1 - W)^2).

Definition harmony (L J P W : R) : R :=
  let D := distance_from_anchor L J P W in
  1.0 / (1.0 + D).

Definition consciousness (L J P W H : R) : R :=
  L * J * P * W * (H ^ 2).

Definition karma_coupling (H : R) (coupling_type : string) : R :=
  let multipliers := [ ("LJ", 0.4); ("LP", 0.3); ("LW", 0.5) ] in
  let mult := dict_get multipliers coupling_type 0.4 in
  1.0 + mult * H.

Definition determine_phase (H L : R) : Phase :=
  if decide (H < 0.5) then ENTROPIC
  else if decide (H >= 0.6 ∧ L >= 0.7) then AUTOPOIETIC
  else HOMEOSTATIC.

(** *** WisdomOperator *)

Record WisdomOperator := mkWisdomOperator {
  known_patterns : list (string * ref)
}.

(** [learn]: [self.known_patterns[concept.name] = concept]. *)
Definition learn (r : ref) (h : heap) (w : WisdomOperator) : WisdomOperator :=
  match h !! r with
  | Some concept => mkWisdomOperator (dict_set (known_patterns w) (name concept) r)
  | None => w
  end.

(** One iteration of the search loop of [predict].  The accumulator is
    [(best_distance, best_match)]; [None] stands for the initial
    [(float('inf'), None)], below which every distance lies. *)
Definition closest_step (pred : R * R * R * R) (h : heap)
    (best : option (R * ref)) (r : ref) : option (R * ref) :=
  let '(pred_L, pred_J, pred_P, pred_W) := pred in
  match h !! r with
  | None => best
  | Some known =>
      let distance :=
        sqrt ((pred_L - _L known)^2 + (pred_J - _J known)^2 +
              (pred_P - _P known)^2 + (pred_W - _W known)^2) in
      match best with
      | None => Some (distance, r)
      | Some (best_distance, _) =>
          if decide (distance < best_distance) then Some (distance, r) else best
      end
  end.

Definition closest (pred : R * R * R * R) (patterns : list ref) (h : heap) : option ref :=
  snd <$> foldl (closest_step pred h) None patterns.

(** The extrapolated point of [predict]. *)
Definition prediction (sequence : list SemanticConcept) : option (R * R * R * R) :=
  match last_item sequence with
  | None => None
  | Some s1 =>
      let '(trend_L, trend_J, trend_P, trend_W) :=
        match second_last_item sequence with
        | Some s2 => (_L s1 - _L s2, _J s1 - _J s2, _P s1 - _P s2, _W s1 - _W s2)
        | None => (0, 0, 0, 0)
        end in
      Some (Rmin 1.0 (Rmax 0 (_L s1 + trend_L)),
            Rmin 1.0 (Rmax 0 (_J s1 + trend_J)),
            Rmin 1.0 (Rmax 0 (_P s1 + trend_P)),
            Rmin 1.0 (Rmax 0 (_W s1 + trend_W)))
  end.

(** [predict]: the returned reference (or [None]) and the store after the
    call.  A concept object is always truthy, so [if best_match:] only
    tests for [None]. *)
Definition predict (sequence : list ref) (w : WisdomOperator) (h : heap) : option ref * heap :=
  if decide (sequence = [] ∨ known_patterns w = []) then (None, h)
  else
    match prediction (objects h sequence) with
    | None => (None, h)
    | Some pred =>
        match closest pred (dict_values (known_patterns w)) h with
        | Some best_match =>
            (Some best_match, alter (λ c, set_W (Rmin 1.0 (_W c + 0.05)) c) best_match h)
        | None => (None, h)
        end
    end.

(** *** SemanticFlowNetwork *)

Record SFNState := mkSFNState {
  L : R;
  J : R;
  P : R;
  W : R;
  H : R;
  C : R;
  phase : Phase;
  concept_count : nat;
  relationship_count : nat
}.

Record SemanticFlowNetwork := mkSemanticFlowNetwork {
  concepts : list (string * ref);
  wisdom : WisdomOperator
}.

(** [__init__] with [_init_calibration_concepts]: four anchors are
    allocated, stored and learnt. *)
Definition init (h : heap) : SemanticFlowNetwork * heap :=
  let '(love_anchor, h) := alloc (set_L 1.0 (new_concept "LOVE" LOVE)) h in
  let '(justice_anchor, h) := alloc (set_J 1.0 (new_concept "JUSTICE" JUSTICE)) h in
  let '(power_anchor, h) := alloc (set_P 1.0 (new_concept "POWER" POWER)) h in
  let '(wisdom_anchor, h) := alloc (set_W 1.0 (new_concept "WISDOM" WISDOM)) h in
  let concepts := dict_set [] "LOVE" love_anchor in
  let concepts := dict_set concepts "JUSTICE" justice_anchor in
  let concepts := dict_set concepts "POWER" power_anchor in
  let concepts := dict_set concepts "WISDOM" wisdom_anchor in
  let w := foldl (λ w c, learn c h w) (mkWisdomOperator [])
                 [love_anchor; justice_anchor; power_anchor; wisdom_anchor] in
  (mkSemanticFlowNetwork concepts w, h).

Definition add_concept (n : string) (d : Dimension) (net : SemanticFlowNetwork) (h : heap)
    : ref * SemanticFlowNetwork * heap :=
  let '(concept, h) := alloc (new_concept n d) h in
  (concept, mkSemanticFlowNetwork (dict_set (concepts net) n concept) (learn concept h (wisdom net)), h).

(** The objects of [self.concepts.values()]. *)
Definition concept_values (net : SemanticFlowNetwork) (h : heap) : list SemanticConcept :=
  objects h (dict_values (concepts net)).

Definition get_state (net : SemanticFlowNetwork) (h : heap) : SFNState :=
  match concepts net with
  | [] => mkSFNState L0 J0 P0 W0 0.5 0.0 ENTROPIC 0 0
  | _ =>
      let cs := concept_values net h in
      let n := INR (length (concepts net)) in
      let L := Rsum (_L <$> cs) / n in
      let J := Rsum (_J <$> cs) / n in
      let P := Rsum (_P <$> cs) / n in
      let W := Rsum (_W <$> cs) / n in
      let H := harmony L J P W in
      let C := consciousness L J P W H in
      let phase := determine_phase H L in
      let total_rels := nat_sum ((λ c, size (relationships c)) <$> cs) in
      mkSFNState L J P W H C phase (length (concepts net)) total_rels
  end.

Definition check_uncertainty (net : SemanticFlowNetwork) (h : heap) : bool * R :=
  let P_values := _P <$> concept_values net h in
  let W_values := _W <$> concept_values net h in
  if decide (length P_values < 2)%nat then (true, 1.0)
  else
    let avg_P := Rsum P_values / INR (length P_values) in
    let avg_W := Rsum W_values / INR (length W_values) in
    let delta_P := sqrt (Rsum ((λ p, (p - avg_P)^2) <$> P_values) / INR (length P_values)) in
    let delta_W := sqrt (Rsum ((λ w, (w - avg_W)^2) <$> W_values) / INR (length W_values)) in
    let product := delta_P * delta_W in
    let satisfied := bool_decide (product >= UNCERTAINTY_BOUND ∨ product < 0.01) in
    (satisfied, product).

(** The body of the inner loop of [evolve], on one concept. *)
Definition evolve_concept (phase : Phase) (H dt : R) (concept : SemanticConcept) : SemanticConcept :=
  let concept :=
    match phase with
    | ENTROPIC => balance1 concept
    | HOMEOSTATIC =>
        let concept :=
          if decide (_L concept < L0)
          then set_L (_L concept + dt * COUPLING_item "W_to_L" * (L0 - _L concept)) concept
          else concept in
        if decide (_W concept < W0)
        then set_W (_W concept + dt * COUPLING_item "L_to_W" * (W0 - _W concept)) concept
        else concept
    | AUTOPOIETIC =>
        let concept := set_L (Rmin 1.0 (_L concept + dt * H * 0.1)) concept in
        set_W (Rmin 1.0 (_W concept + dt * H * 0.05)) concept
    end in
  let concept :=
    if decide (_L concept < L0)
    then set_P (Rmax (P0 * 0.5) (_P concept - dt * 0.02)) concept
    else concept in
  constrain (0.0, 1.0) concept.

(** One iteration of the outer loop of [evolve]: the new measured state
    and the store after it. *)
Definition evolve_step (net : SemanticFlowNetwork) (dt : R) (step : nat)
    (state : SFNState) (h : heap) : SFNState * heap :=
  let H := H state in
  let phase := phase state in
  let h := foldl (λ h concept, alter (evolve_concept phase H dt) concept h)
                 h (dict_values (concepts net)) in
  let state := get_state net h in
  let h :=
    if decide (C state > CONSCIOUSNESS_THRESHOLD ∧ (step mod 3 = 0)%nat)
    then resonate (dict_values (concepts net)) H 1 h
    else h in
  (state, h).

(** [for step in range(steps)], with [remaining] iterations to go. *)
Fixpoint evolve_loop (net : SemanticFlowNetwork) (dt : R) (step remaining : nat)
    (state : SFNState) (h : heap) (history : list SFNState) : list SFNState * heap :=
  match remaining with
  | O => (history, h)
  | S remaining =>
      let '(state, h) := evolve_step net dt step state h in
      evolve_loop net dt (S step) remaining state h (history ++ [state])
  end.

(** [evolve(steps, dt)]: the returned history and the store after the
    call.  [range(steps)] is empty for a negative [steps]. *)
Definition evolve (net : SemanticFlowNetwork) (steps : Z) (dt : R) (h : heap)
    : list SFNState * heap :=
  let state := get_state net h in
  evolve_loop net dt 0 (Z.to_nat steps) state h [state].

(** *** The operators outside the measured loop *)

Inductive Exception := ValueError (msg : string).

Inductive Outcome (A : Type) :=
  | Returned (a : A)
  | Raised (e : Exception).
Arguments Returned {A} a.
Arguments Raised {A} e.

Definition set_name (n : string) (c : SemanticConcept) : SemanticConcept :=
  mkSemanticConcept n (dimension c) (relationships c) (_L c) (_J c) (_P c) (_W c).
Definition set_dimension (d : Dimension) (c : SemanticConcept) : SemanticConcept :=
  mkSemanticConcept (name c) d (relationships c) (_L c) (_J c) (_P c) (_W c).

(** [SemanticConcept.connect(other, strength=None)], on [self]. *)
Definition connect (other : SemanticConcept) (strength : option R)
    (self : SemanticConcept) : SemanticConcept :=
  let strength :=
    match strength with
    | Some s => s
    | None => dict_get COUPLING (coupling_key (dimension self) (dimension other)) 1.0
    end in
  set_relationships (<[name other := strength * L0]> (relationships self)) self.

(** [LoveOperator.connect(source, target)]: the returned strength and the
    store after the call. *)
Definition LoveOperator_connect (source target : ref) (h : heap) : R * heap :=
  match h !! target with
  | Some t =>
      let h := alter (connect t None) source h in
      match h !! source with
      | Some s => (relationships s !!! name t, h)
      | None => (0, h)
      end
  | None => (0, h)
  end.

(** [LoveOperator.radiate(source, targets)]: the returned dict and the
    store after the call. *)
Definition radiate (source : ref) (targets : list ref) (h : heap)
    : list (string * R) * heap :=
  foldl (λ '(results, h) target,
           match h !! target with
           | Some t =>
               let '(strength, h) := LoveOperator_connect source target h in
               (dict_set results (name t) strength, h)
           | None => (results, h)
           end)
        ([], h) targets.

(** The relationships a unified concept inherits from one more concept:
    a new name is copied, a known one strengthened. *)
Definition inherit (unified : gmap string R) (c : SemanticConcept) : gmap string R :=
  union_with (λ old strength, Some (Rmin 1.0 (old + strength * L0)))
             unified (relationships c).

(** [LoveOperator.bind(concepts)]: the reference of the new concept (or the
    exception) and the store after the call. *)
Definition bind (concepts : list ref) (h : heap) : Outcome ref * heap :=
  match concepts with
  | [] => (Raised (ValueError "Cannot bind empty list"), h)
  | _ =>
      let cs := objects h concepts in
      let n := INR (length concepts) in
      let unified_name := join "+" (sorted (name <$> cs)) in
      let avg_L := Rsum (_L <$> cs) / n in
      let avg_J := Rsum (_J <$> cs) / n in
      let avg_P := Rsum (_P <$> cs) / n in
      let avg_W := Rsum (_W <$> cs) / n in
      let unified := new_concept unified_name LOVE in
      let unified := set_L (Rmin 1.0 (avg_L * COUPLING_item "L_to_W")) unified in
      let unified := set_J avg_J unified in
      let unified := set_P avg_P unified in
      let unified := set_W avg_W unified in
      let unified := set_relationships (foldl inherit (relationships unified) cs) unified in
      let '(r, h) := alloc unified h in
      (Returned r, h)
  end.

(** [JusticeOperator.symmetrize], on one concept.  The sum runs over the
    values of the dict; on reals its order does not matter. *)
Definition symmetrize (concept : SemanticConcept) : SemanticConcept :=
  if decide (size (relationships concept) = 0)%nat then concept
  else
    let avg_strength :=
      Rsum (snd <$> map_to_list (relationships concept))
      / INR (size (relationships concept)) in
    set_relationships
      ((λ strength, strength + J0 * (avg_strength - strength)) <$> relationships concept)
      concept.

(** The Justice-weighted alignment of [verify] between the claim and one
    piece of evidence. *)
Definition alignment (claim e : SemanticConcept) : R :=
  let d_L := 1 - Rabs (_L claim - _L e) in
  let d_J := 1 - Rabs (_J claim - _J e) in
  let d_P := 1 - Rabs (_P claim - _P e) in
  let d_W := 1 - Rabs (_W claim - _W e) in
  d_L * 0.2 + d_J * 0.4 + d_P * 0.2 + d_W * 0.2.

(** [JusticeOperator.verify(claim, evidence)]: the returned pair and the
    store after the call. *)
Definition verify (claim : ref) (evidence : list ref) (h : heap) : (bool * R) * heap :=
  match evidence, h !! claim with
  | [], _ | _, None => ((false, 0.0), h)
  | _, Some c =>
      let alignments := alignment c <$> objects h evidence in
      let confidence := Rsum alignments / INR (length alignments) in
      let is_verified := bool_decide (confidence >= J0) in
      let h :=
        if is_verified then alter (λ c, set_J (Rmin 1.0 (_J c + 0.1)) c) claim h else h in
      ((is_verified, confidence), h)
  end.

(** [PowerOperator.transform], on one concept. *)
Definition transform (to_dimension : Dimension) (concept : SemanticConcept) : SemanticConcept :=
  let old_dim := dimension concept in
  let concept := set_dimension to_dimension concept in
  let concept :=
    match old_dim with
    | LOVE => set_L (_L concept * (1 - P0)) concept
    | JUSTICE => set_J (_J concept * (1 - P0)) concept
    | POWER => set_P (_P concept * (1 - P0)) concept
    | WISDOM => set_W (_W concept * (1 - P0)) concept
    end in
  match to_dimension with
  | LOVE => set_L (Rmin 1.0 (_L concept + P0)) concept
  | JUSTICE => set_J (Rmin 1.0 (_J concept + P0)) concept
  | POWER => set_P (Rmin 1.0 (_P concept + P0)) concept
  | WISDOM => set_W (Rmin 1.0 (_W concept + P0)) concept
  end.

(** [PowerOperator.generate(template, name)]: the new object. *)
Definition generate (template : SemanticConcept) (n : string) : SemanticConcept :=
  let new := new_concept n (dimension template) in
  let new := set_L (_L template * COUPLING_item "P_to_L") new in
  let new := set_J (_J template * COUPLING_item "P_to_J") new in
  let new := set_P (_P template) new in
  let new := set_W (_W template * COUPLING_item "P_to_W") new in
  new.

(** [PowerOperator.execute(concept, action)], on one concept. *)
Definition execute (action : string) (concept : SemanticConcept) : SemanticConcept :=
  let concept := set_P (Rmin 1.0 (_P concept + P0 * 0.1)) concept in
  set_name (name concept ++ ":" ++ action)%string concept.

(** [PowerOperator.decay(concept, rate, H)], on one concept. *)
Definition decay (rate H : R) (concept : SemanticConcept) : SemanticConcept :=
  let entropy_factor := rate * (1.0 - H * 0.5) in
  let concept := set_P (Rmax (P0 * 0.5) (_P concept - entropy_factor * _P concept)) concept in
  if decide (_L concept < L0)
  then set_J (Rmax (J0 * 0.5) (_J concept - entropy_factor * 0.5)) concept
  else concept.

(** The similarity of [recognize] between two concepts of one dimension. *)
Definition similarity (concept known : SemanticConcept) : R :=
  let similarity := 0.5 in
  let shared := dom (relationships concept) ∩ dom (relationships known) in
  if decide (size (relationships concept) ≠ 0 ∨ size (relationships known) ≠ 0)%nat
  then similarity
       + 0.5 * INR (size shared)
         / INR (size (relationships concept) `max` (size (relationships known) `max` 1))
  else similarity.

(** One iteration of the loop of [recognize]; the accumulator is
    [(best_match, best_similarity)]. *)
Definition recognize_step (concept : SemanticConcept) (h : heap)
    (best : option ref * R) (r : ref) : option ref * R :=
  match h !! r with
  | None => best
  | Some known =>
      if decide (dimension concept = dimension known) then
        let s := similarity concept known in
        if decide (s > best.2) then (Some r, s) else best
      else best
  end.

(** [WisdomOperator.recognize(concept)] *)
Definition recognize (concept : ref) (w : WisdomOperator) (h : heap) : option ref :=
  match h !! concept with
  | None => None
  | Some c => (foldl (recognize_step c h) (None, 0.0) (dict_values (known_patterns w))).1
  end.

(** [WisdomOperator.integrate(concepts)]: the reference of the synthesis
    (or the exception), the operator and the store after the call. *)
Definition integrate (concepts : list ref) (w : WisdomOperator) (h : heap)
    : Outcome ref * WisdomOperator * heap :=
  match concepts with
  | [] => (Raised (ValueError "Cannot integrate empty list"), w, h)
  | _ =>
      let cs := objects h concepts in
      let n := INR (length concepts) in
      let synthesis_name := join "~" (sorted (name <$> cs)) in
      let synthesis := new_concept synthesis_name WISDOM in
      let synthesis := set_L (Rsum (_L <$> cs) / n) synthesis in
      let synthesis := set_J (Rsum (_J <$> cs) / n) synthesis in
      let synthesis := set_P (Rsum (_P <$> cs) / n) synthesis in
      let synthesis :=
        set_W (Rmin 1.0 (Rsum (_W <$> cs) / n * COUPLING_item "W_to_L")) synthesis in
      let '(r, h) := alloc synthesis h in
      (Returned r, learn r h w, h)
  end.

(** [SemanticFlowNetwork.process(input_concepts)]: the output concept with
    the measured state (or the exception), the network and the store after
    the call.  [found] is the list the source calls [concepts]; the output
    is read back from the store it was just allocated in. *)
Definition process (input_concepts : list string) (net : SemanticFlowNetwork) (h : heap)
    : Outcome (ref * SFNState) * SemanticFlowNetwork * heap :=
  let found := omap (dict_lookup (concepts net)) input_concepts in
  match found with
  | [] => (Raised (ValueError "No known concepts in input"), net, h)
  | first :: _ =>
      let h := foldl (λ h c, alter (execute "processed") c h) h found in
      let p_stream_output := found in
      let w_stream_output :=
        (λ c, default c (recognize c (wisdom net) h)) <$> found in
      let '(L_emergent, h) :=
        if decide (1 < length w_stream_output)%nat then bind w_stream_output h
        else (Returned (default first (head w_stream_output)), h) in
      match L_emergent with
      | Raised e => (Raised e, net, h)
      | Returned L_emergent =>
          let h := balance p_stream_output h in
          let J_balanced := p_stream_output in
          let all_processed := L_emergent :: J_balanced in
          match integrate all_processed (wisdom net) h with
          | (Raised e, w, h) => (Raised e, mkSemanticFlowNetwork (concepts net) w, h)
          | (Returned output, w, h) =>
              let net := mkSemanticFlowNetwork (concepts net) w in
              let '(L, J, P, W) := from_option coordinates (0, 0, 0, 0) (h !! output) in
              let H := harmony L J P W in
              let C := consciousness L J P W H in
              let phase := determine_phase H L in
              let total_rels :=
                nat_sum ((λ c, size (relationships c)) <$> concept_values net h) in
              (Returned (output,
                         mkSFNState L J P W H C phase (length (concepts net)) total_rels),
               net, h)
          end
      end
  end.

End SFN.

(** * ljpw_neural_architecture.py

    Tensors of the measured quantities are scalars (0-dimensional), read as
    reals. *)

Module Arch.

(** [UNCERTAINTY_BOUND = J0 * W0] in this file. *)
Definition UNCERTAINTY_BOUND : R := J0 * W0.

(** [x.clamp(lo, hi)] on a scalar tensor. *)
Definition clamp (x lo hi : R) : R := Rmin (Rmax x lo) hi.

(** [tensor.mean()] of a non-empty vector. *)
Definition mean (xs : list R) : R := Rsum xs / INR (length xs).

(** [WStream.get_correlation_measure].  [attn_flat] is the attention
    tensor viewed as rows of length [last_dim = attn_weights.size(-1)]. *)
Definition get_correlation_measure (last_dim : nat) (attn_flat : list (list R)) : R :=
  if decide (last_dim <= 1)%nat then L0
  else
    let entropy := (λ row, - Rsum ((λ p, p * ln (p + 1e-10)) <$> row)) <$> attn_flat in
    let max_entropy := ln (INR last_dim) in
    if decide (max_entropy < 1e-10) then L0
    else clamp (1.0 - mean entropy / max_entropy) 0 1.

(** [EmergentFields.compute_love] *)
Definition compute_love (w_correlations : R) : R :=
  let L := w_correlations * (1.0 / L0) in
  clamp L 0 (sqrt 2).

(** [EmergentFields.compute_justice] *)
Definition compute_justice (p_symmetry : R) : R :=
  clamp p_symmetry 0.2 0.9.

(** [HarmonyMonitor.compute_harmony] *)
Definition compute_harmony (L J P W : R) : R :=
  let distance := sqrt ((L - L0)^2 + (J - J0)^2 + (P - P0)^2 + (W - W0)^2) in
  1.0 / (1.0 + distance).

(** [HarmonyMonitor.compute_karma_coupling]: the returned dict, with the
    keys written in ASCII. *)
Definition compute_karma_coupling (H : R) : list (string * R) :=
  [ ("k_LJ", 1.0 + 0.4 * H);
    ("k_LP", 1.0 + 0.3 * H);
    ("k_LW", 1.0 + 0.5 * H) ].

(** [HarmonyMonitor.determine_phase]; the strings are lower case here. *)
Definition determine_phase (H L : R) : Phase :=
  if decide (H < 0.5) then ENTROPIC
  else if decide (H >= 0.6 ∧ L >= 0.7) then AUTOPOIETIC
  else HOMEOSTATIC.

(** [phi_dimensions(start_dim, num_layers)]: the [for] loop with [n]
    iterations to go, then the function. *)
Fixpoint phi_dimensions_loop (n : nat) (current : Z) (dims : list Z) : list Z :=
  match n with
  | O => dims
  | S n =>
      let current := py_int (IZR current * PHI_INV) in
      let current := if decide (current < 1)%Z then 1%Z else current in
      phi_dimensions_loop n current (dims ++ [current])
  end.

Definition phi_dimensions (start_dim num_layers : Z) : list Z :=
  phi_dimensions_loop (Z.to_nat (num_layers - 1)) start_dim [start_dim].

(** The [while] loop of [fibonacci_heads], run for at most [fuel]
    iterations: [None] when they do not suffice (or when the list is too
    short for [fib[-1]] and [fib[-2]]). *)
Fixpoint fibonacci_loop (fuel : nat) (max_heads : Z) (fib : list Z) : option (list Z) :=
  match last_item fib with
  | None => None
  | Some a =>
      if decide (a < max_heads)%Z then
        match fuel, second_last_item fib with
        | S fuel, Some b => fibonacci_loop fuel max_heads (fib ++ [(a + b)%Z])
        | _, _ => None
        end
      else Some fib
  end.

(** [fibonacci_heads(max_heads)], the loop being given [max_heads]
    iterations. *)
Definition fibonacci_heads (max_heads : Z) : option (list Z) :=
  fib ← fibonacci_loop (Z.to_nat max_heads) max_heads [1; 1]%Z;
  Some (filter (λ h, (h <= max_heads)%Z) fib).

(** [self.num_heads] as [WStream.__init__] sets it. *)
Definition WStream_num_heads (num_heads : Z) : option Z :=
  fib_heads ← fibonacci_heads num_heads;
  Some (default 1%Z (last_item fib_heads)).

(** [UncertaintyConstraint.compute_uncertainty], on the [capacity]
    parameters of the two streams. *)
Definition compute_uncertainty (p_capacity w_capacity : R) : R :=
  let delta_P := Rabs (p_capacity - P0) in
  let delta_W := Rabs (w_capacity - W0) in
  delta_P * delta_W.

(** [F.relu] on a scalar tensor. *)
Definition relu (x : R) : R := Rmax 0 x.

(** [UncertaintyConstraint.enforce] *)
Definition enforce (p_capacity w_capacity : R) : R :=
  let uncertainty := compute_uncertainty p_capacity w_capacity in
  let violation := relu (UNCERTAINTY_BOUND - uncertainty) in
  violation.

End Arch.

(** * src/quantum_measurement.py *)

Module QM.

Record LJPWMeasurement := mkLJPWMeasurement {
  L : R;
  J : R;
  P : R;
  W : R;
  confidence : R;
  method : string
}.

(** The [harmony] property. *)
Definition harmony (m : LJPWMeasurement) : R :=
  let d := sqrt ((1 - L m)^2 + (1 - J m)^2 + (1 - P m)^2 + (1 - W m)^2) in
  1.0 / (1.0 + d).

(** The [phase] property: both comparisons of the second test are strict
    in this file. *)
Definition phase (m : LJPWMeasurement) : Phase :=
  if decide (harmony m < 0.5) then ENTROPIC
  else if decide (L m > 0.7 ∧ harmony m > 0.6) then AUTOPOIETIC
  else HOMEOSTATIC.

Definition SQRT2_MINUS_1 : R := sqrt 2 - 1.
Definition E_MINUS_2 : R := exp 1 - 2.
Definition LN_2 : R := ln 2.

Definition NATURAL_EQUILIBRIUM : list (string * R) :=
  [ ("L", PHI_INV); ("J", SQRT2_MINUS_1); ("P", E_MINUS_2); ("W", LN_2) ].

Inductive Exception := KeyError (key : string).

Inductive Outcome (A : Type) :=
  | Returned (a : A)
  | Raised (e : Exception).
Arguments Returned {A} a.
Arguments Raised {A} e.

(** [phi_normalize(value, dimension)].  [value ** (1 / PHI)] is taken of a
    positive float only, where it is [exp ((1 / PHI) * ln value)]. *)
Definition phi_normalize (value : R) (dimension : string) : Outcome R :=
  match dict_lookup NATURAL_EQUILIBRIUM dimension with
  | None => Raised (KeyError dimension)
  | Some equilibrium =>
      let value := Rmax 0.0 (Rmin 1.0 value) in
      let result :=
        if decide (value > 0) then equilibrium * Rpower value (1 / PHI) else 0.0 in
      Returned (Rmax 0.0 (Rmin 1.0 result))
  end.

(** The weight [quantum_consensus] gives to one measurement. *)
Definition phi_alignment (mean_L mean_J mean_P mean_W : R) (m : LJPWMeasurement) : R :=
  let alignment_L := 1 - Rabs (PHI * (L m / Rmax mean_L 0.001) - PHI) in
  let alignment_J := 1 - Rabs (PHI * (J m / Rmax mean_J 0.001) - PHI) in
  let alignment_P := 1 - Rabs (PHI * (P m / Rmax mean_P 0.001) - PHI) in
  let alignment_W := 1 - Rabs (PHI * (W m / Rmax mean_W 0.001) - PHI) in
  let avg_alignment := (alignment_L + alignment_J + alignment_P + alignment_W) / 4 in
  Rmax 0.1 avg_alignment.

(** [quantum_consensus(measurements)] *)
Definition quantum_consensus (measurements : list LJPWMeasurement) : LJPWMeasurement :=
  match measurements with
  | [] => mkLJPWMeasurement 0.5 0.5 0.5 0.5 0.0 "no_data"
  | [m] => m
  | _ =>
      let n := INR (length measurements) in
      let mean_L := Rsum (L <$> measurements) / n in
      let mean_J := Rsum (J <$> measurements) / n in
      let mean_P := Rsum (P <$> measurements) / n in
      let mean_W := Rsum (W <$> measurements) / n in
      let alignments := phi_alignment mean_L mean_J mean_P mean_W <$> measurements in
      let total_weight := Rsum alignments in
      let weighted (x : LJPWMeasurement → R) :=
        Rsum (zip_with (λ m a, x m * a) measurements alignments) / total_weight in
      mkLJPWMeasurement (weighted L) (weighted J) (weighted P) (weighted W)
                        (weighted confidence) "quantum_consensus"
  end.

(** One entry of [CALIBRATION_POINTS]; the key ['name'] is [cal_name]. *)
Record CalibrationPoint := mkCalibrationPoint {
  cal_L : R;
  cal_J : R;
  cal_P : R;
  cal_W : R;
  cal_name : string
}.

Definition CALIBRATION_POINTS : list (string * CalibrationPoint) :=
  [ ("anchor", mkCalibrationPoint 1.0 1.0 1.0 1.0 "Perfect (Anchor Point)");
    ("natural_equilibrium", mkCalibrationPoint 0.618 0.414 0.718 0.693 "Natural Equilibrium");
    ("enron_2001", mkCalibrationPoint 0.15 0.10 0.95 0.20 "Enron at Collapse (2001)");
    ("theranos_2018",
     mkCalibrationPoint 0.15 0.08 0.15 0.15 "Theranos at Dissolution (2018)");
    ("research_institute",
     mkCalibrationPoint 0.40 0.60 0.30 0.95 "Healthy Research Institute");
    ("family_business", mkCalibrationPoint 0.85 0.70 0.50 0.60 "Healthy Family Business") ].

(** The dict returned by [validate_against_calibration]: either the single
    key ['error'], or the four keys of a report, ['deviations'] holding the
    deviations on L, J, P and W. *)
Inductive Validation :=
  | Error (error : string)
  | Report (reference : string) (deviations : R * R * R * R)
           (total_deviation alignment_score : R).

Definition validate_against_calibration (measurement : LJPWMeasurement)
    (reference : string) : Validation :=
  match dict_lookup CALIBRATION_POINTS reference with
  | None => Error "Unknown reference point"
  | Some ref =>
      let deviation_L := Rabs (L measurement - cal_L ref) in
      let deviation_J := Rabs (J measurement - cal_J ref) in
      let deviation_P := Rabs (P measurement - cal_P ref) in
      let deviation_W := Rabs (W measurement - cal_W ref) in
      let total_deviation := deviation_L + deviation_J + deviation_P + deviation_W in
      let alignment_score := 1 - total_deviation / 4 in
      Report (cal_name ref) (deviation_L, deviation_J, deviation_P, deviation_W)
             total_deviation alignment_score
  end.

End QM.

(** * ljpw_cognitive_mind.py *)

Module Mind.

Definition ALPHA : list (string * R) :=
  [ ("LJ", 0.12); ("LW", 0.12);
    ("JL", 0.14); ("JW", 0.14);
    ("PL", 0.12); ("PJ", 0.12);
    ("WL", 0.10); ("WJ", 0.10); ("WP", 0.10) ].
Definition BETA : list (string * R) :=
  [ ("L", 0.20); ("J", 0.20); ("P", 0.20); ("W", 0.24) ].
Definition GAMMA : R := 0.08.
Definition K_JL : R := 0.59.

(** [ALPHA['k']] and [BETA['k']] for the literal keys of the tables. *)
Definition ALPHA_item (k : string) : R := dict_get ALPHA k 0.
Definition BETA_item (k : string) : R := dict_get BETA k 0.

Record SemanticNeuron := mkSemanticNeuron {
  name : string;
  primary_dimension : Dimension;
  L : R;
  J : R;
  P : R;
  W : R;
  connections : gmap string R
}.

Definition set_L (v : R) (n : SemanticNeuron) : SemanticNeuron :=
  mkSemanticNeuron (name n) (primary_dimension n) v (J n) (P n) (W n) (connections n).
Definition set_J (v : R) (n : SemanticNeuron) : SemanticNeuron :=
  mkSemanticNeuron (name n) (primary_dimension n) (L n) v (P n) (W n) (connections n).
Definition set_P (v : R) (n : SemanticNeuron) : SemanticNeuron :=
  mkSemanticNeuron (name n) (primary_dimension n) (L n) (J n) v (W n) (connections n).
Definition set_W (v : R) (n : SemanticNeuron) : SemanticNeuron :=
  mkSemanticNeuron (name n) (primary_dimension n) (L n) (J n) (P n) v (connections n).

(** [SemanticNeuron(name, primary_dimension)] with [__post_init__]. *)
Definition new_neuron (nm : string) (d : Dimension) : SemanticNeuron :=
  let n := mkSemanticNeuron nm d L0 J0 P0 W0 ∅ in
  match d with
  | LOVE => set_L 0.85 n
  | JUSTICE => set_J 0.85 n
  | POWER => set_P 0.85 n
  | WISDOM => set_W 0.85 n
  end.

(** *** The object store, and calls that may raise

    [evolve] divides by [K_JL + L], which Python refuses when it is zero.
    A call either returns or raises, and in both cases leaves a store
    behind. *)

Abbreviation ref := nat (only parsing).
Abbreviation heap := (list SemanticNeuron) (only parsing).

Inductive Exception := ZeroDivisionError.

Inductive Outcome (A : Type) :=
  | Returned (a : A)
  | Raised (e : Exception).
Arguments Returned {A} a.
Arguments Raised {A} e.

Definition Exec (A : Type) : Type := heap → Outcome A * heap.

#[global] Instance Exec_ret : MRet Exec := λ A a h, (Returned a, h).
#[global] Instance Exec_bind : MBind Exec := λ A B f m h,
  match m h with
  | (Returned a, h') => f a h'
  | (Raised e, h') => (Raised e, h')
  end.

Definition raise {A : Type} (e : Exception) : Exec A := λ h, (Raised e, h).
Definition get_heap : Exec heap := λ h, (Returned h, h).
Definition modify (r : ref) (f : SemanticNeuron → SemanticNeuron) : Exec () :=
  λ h, (Returned (), alter f r h).

(** [x / y] on floats. *)
Definition py_div (x y : R) : Exec R :=
  if decide (y = 0) then raise ZeroDivisionError else mret (x / y).

(** [for x in xs: body(x)] *)
Fixpoint for_each {A : Type} (xs : list A) (body : A → Exec ()) : Exec () :=
  match xs with
  | [] => mret ()
  | x :: xs => body x ;; for_each xs body
  end.

Definition objects (h : heap) (rs : list ref) : list SemanticNeuron :=
  omap (λ r, h !! r) rs.

(** *** AnchorAttractor *)

Record AnchorAttractor := mkAnchorAttractor { strength : R }.

Definition attract (a : AnchorAttractor) (dt : R) (n : SemanticNeuron) : SemanticNeuron :=
  let n := set_L (Rmin 1.0 (L n + strength a * dt * (1.0 - L n))) n in
  let n := set_J (Rmin 1.0 (J n + strength a * dt * (1.0 - J n))) n in
  let n := set_P (Rmin 1.0 (P n + strength a * dt * (1.0 - P n))) n in
  let n := set_W (Rmin 1.0 (W n + strength a * dt * (1.0 - W n))) n in
  n.

(** [AnchorAttractor.apply] *)
Definition apply (a : AnchorAttractor) (neurons : list ref) (dt : R) : Exec () :=
  for_each neurons (λ n, modify n (attract a dt)).

(** *** ConsciousnessMeter *)

(** The fields [L], [J], [P], [W] of the dataclass carry the prefix [st_]
    here, the plain names being those of [SemanticNeuron]. *)
Record ConsciousnessState := mkConsciousnessState {
  st_L : R;
  st_J : R;
  st_P : R;
  st_W : R;
  H : R;
  C : R;
  phase : Phase;
  is_conscious : bool;
  neuron_count : nat
}.

Definition measure (neurons : list SemanticNeuron) : ConsciousnessState :=
  match neurons with
  | [] => mkConsciousnessState L0 J0 P0 W0 0.5 0.0 ENTROPIC false 0
  | _ =>
      let n := INR (length neurons) in
      let L := Rsum (L <$> neurons) / n in
      let J := Rsum (J <$> neurons) / n in
      let P := Rsum (P <$> neurons) / n in
      let W := Rsum (W <$> neurons) / n in
      let d := sqrt ((1 - L)^2 + (1 - J)^2 + (1 - P)^2 + (1 - W)^2) in
      let H := 1.0 / (1.0 + d) in
      let C := L * J * P * W * (H ^ 2) in
      let phase :=
        if decide (H < 0.5) then ENTROPIC
        else if decide (H > 0.6 ∧ L >= 0.7) then AUTOPOIETIC
        else HOMEOSTATIC in
      mkConsciousnessState L J P W H C phase
        (bool_decide (C > CONSCIOUSNESS_THRESHOLD)) (length neurons)
  end.

(** *** LJPWCognitiveMind *)

Record LJPWCognitiveMind := mkLJPWCognitiveMind {
  neurons : list (string * ref);
  anchor : AnchorAttractor
}.

(** Allocation of a fresh object: its reference is the next free index. *)
Definition alloc (n : SemanticNeuron) (h : heap) : ref * heap :=
  (length h, h ++ [n]).

(** [__init__] with [_init_calibration], as far as [evolve] reads it: the
    four calibration neurons and the anchor attractor of strength 0.05. *)
Definition init (h : heap) : LJPWCognitiveMind * heap :=
  let '(love, h) := alloc (set_L 1.0 (new_neuron "LOVE" LOVE)) h in
  let '(justice, h) := alloc (set_J 1.0 (new_neuron "JUSTICE" JUSTICE)) h in
  let '(power, h) := alloc (set_P 1.0 (new_neuron "POWER" POWER)) h in
  let '(wisdom, h) := alloc (set_W 1.0 (new_neuron "WISDOM" WISDOM)) h in
  (mkLJPWCognitiveMind
     [("LOVE", love); ("JUSTICE", justice); ("POWER", power); ("WISDOM", wisdom)]
     (mkAnchorAttractor 0.05),
   h).

(** The body of the inner loop of [evolve], on one neuron. *)
Definition evolve_neuron (kappa_LJ kappa_LP kappa_LW dt : R) (r : ref) : Exec () :=
  h ← get_heap;
  match h !! r with
  | None => mret ()
  | Some n =>
      let '(L, J, P, W) := (L n, J n, P n, W n) in
      let dL := ALPHA_item "LJ" * J * kappa_LJ + ALPHA_item "LW" * W * kappa_LW
                - BETA_item "L" * L in
      saturation ← py_div L (K_JL + L);
      let power_erosion := if decide (W < W0) then GAMMA * P * (1 - W / W0) else 0 in
      let dJ := ALPHA_item "JL" * saturation + ALPHA_item "JW" * W - power_erosion
                - BETA_item "J" * J in
      let dP := ALPHA_item "PL" * L * kappa_LP + ALPHA_item "PJ" * J - BETA_item "P" * P in
      let dW := ALPHA_item "WL" * L * kappa_LW + ALPHA_item "WJ" * J + ALPHA_item "WP" * P
                - BETA_item "W" * W in
      modify r (λ n,
        let n := set_L (Rmax 0 (Rmin 1 (L + dL * dt))) n in
        let n := set_J (Rmax 0 (Rmin 1 (J + dJ * dt))) n in
        let n := set_P (Rmax 0 (Rmin 1 (P + dP * dt))) n in
        let n := set_W (Rmax 0 (Rmin 1 (W + dW * dt))) n in
        n)
  end.

(** One iteration of the outer loop of [evolve]: the state it appends. *)
Definition evolve_step (mind : LJPWCognitiveMind) (neurons : list ref) (dt : R)
    : Exec ConsciousnessState :=
  h ← get_heap;
  let state := measure (objects h neurons) in
  let H := H state in
  let kappa_LJ := 1.0 + 0.4 * H in
  let kappa_LP := 1.0 + 0.3 * H in
  let kappa_LW := 1.0 + 0.5 * H in
  for_each neurons (evolve_neuron kappa_LJ kappa_LP kappa_LW dt) ;;
  apply (anchor mind) neurons dt ;;
  mret state.

Fixpoint evolve_loop (mind : LJPWCognitiveMind) (neurons : list ref) (dt : R)
    (remaining : nat) (history : list ConsciousnessState) : Exec (list ConsciousnessState) :=
  match remaining with
  | O => mret history
  | S remaining =>
      state ← evolve_step mind neurons dt;
      evolve_loop mind neurons dt remaining (history ++ [state])
  end.

(** [evolve(steps, dt)] *)
Definition evolve (mind : LJPWCognitiveMind) (steps : Z) (dt : R)
    : Exec (list ConsciousnessState) :=
  let neurons := dict_values (neurons mind) in
  history ← evolve_loop mind neurons dt (Z.to_nat steps) [];
  h ← get_heap;
  mret (history ++ [measure (objects h neurons)]).

(** [SemanticNeuron.harmony()] and [SemanticNeuron.consciousness()] *)
Definition harmony (n : SemanticNeuron) : R :=
  let d := sqrt ((1 - L n)^2 + (1 - J n)^2 + (1 - P n)^2 + (1 - W n)^2) in
  1.0 / (1.0 + d).

Definition consciousness (n : SemanticNeuron) : R :=
  let H := harmony n in
  L n * J n * P n * W n * (H ^ 2).

End Mind.

(** * The measurements on IEEE-754 doubles

    Functions of [ljpw_semantic_flow_network.py] with Python's own
    arithmetic: binary64 operations rounded to nearest.  [math.e] and
    [math.log(2)] are the doubles CPython holds for them; [x ** 2] is
    read as [x * x]. *)

Module Binary64.
Import PrimFloat.
#[local] Open Scope float_scope.
#[local] Set Warnings "-inexact-float".

Definition PHI : float := (1 + sqrt 5) / 2.
Definition PHI_INV : float := PHI - 1.

Definition L0 : float := PHI_INV.
Definition J0 : float := sqrt 2 - 1.
Definition P0 : float := 2.718281828459045 - 2.
Definition W0 : float := 0.6931471805599453.

Definition distance_from_anchor (L J P W : float) : float :=
  sqrt ((1 - L) * (1 - L) + (1 - J) * (1 - J) + (1 - P) * (1 - P) + (1 - W) * (1 - W)).

Definition harmony (L J P W : float) : float :=
  let D := distance_from_anchor L J P W in
  1.0 / (1.0 + D).

Definition determine_phase (H L : float) : Phase :=
  if H <? 0.5 then ENTROPIC
  else if (0.6 <=? H) && (0.7 <=? L) then AUTOPOIETIC
  else HOMEOSTATIC.

(** The phase calls of [test_semantic_flow_network.py] and of the
    specification. *)
Definition literal_phases : list Phase :=
  [ determine_phase 0.3 0.9; determine_phase 0.55 0.6; determine_phase 0.65 0.75;
    determine_phase 0.6 0.69; determine_phase 0.49 0.9; determine_phase 0.3 0.4 ].

(** [shadow.harmony(L0, J0, P0, W0)] as CPython prints it. *)
Definition harmony_at_equilibrium_literal : float := 0.5512732241906612.

(** The local [kappa] of [karma_coupled_strength]. *)
Definition KARMA_MULTIPLIERS : list (string * float) :=
  [ ("LJ", 0.4); ("LP", 0.3); ("LW", 0.5); ("WL", 0.3); ("WJ", 0.2) ].

Definition kappa (H : float) (coupling_type : string) : float :=
  let mult := dict_get KARMA_MULTIPLIERS coupling_type 0.4 in
  1.0 + mult * H.

(** Two adjacent doubles: 0.5 and [math.nextafter(0.5, 1.0)]. *)
Definition half : float := 0.5.
Definition above_half : float := next_up half.

End Binary64.

(** * Vocabulary of the specification *)

(** The valid range of each axis: [0, sqrt 2] for the correlation-derived
    Love axis, [0, 1] for the other three. *)
Definition valid_axes (L J P W : R) : Prop :=
  0 <= L <= sqrt 2 ∧ 0 <= J <= 1 ∧ 0 <= P <= 1 ∧ 0 <= W <= 1.

(** What [check_uncertainty] computes for each of the two axes: the
    population standard deviation (divisor n) of the raw axis values about
    their mean. *)
Definition population_deviation (values : list R) : R :=
  let avg := Rsum values / INR (length values) in
  sqrt (Rsum ((λ v, (v - avg)^2) <$> values) / INR (length values)).

(** The deviation in the words of the specification: the sample standard
    deviation (divisor n - 1) of [|s_i - equilibrium_i|]. *)
Definition spec_deviation (eq : R) (values : list R) : R :=
  let xs := (λ s, Rabs (s - eq)) <$> values in
  let avg := Rsum xs / INR (length xs) in
  sqrt (Rsum ((λ x, (x - avg)^2) <$> xs) / INR (length xs - 1)).

(** The check in the words of the specification, on the Power and Wisdom
    values of a population. *)
Definition spec_uncertainty_check (P_values W_values : list R) : bool * R :=
  let product := spec_deviation P0 P_values * spec_deviation W0 W_values in
  (bool_decide (product >= SFN.UNCERTAINTY_BOUND), product).

(** The Love value of every neuron reached through [rs] is in [0, 1]. *)
Definition love_in_range (rs : list nat) (h : list Mind.SemanticNeuron) : Prop :=
  ∀ r n, r ∈ rs → h !! r = Some n → 0 <= Mind.L n <= 1.

(** No neuron reached through [rs] has the Love value [- K_JL], where
    the saturation term [L / (K_JL + L)] of [evolve] divides by zero. *)
Definition love_off_pole (rs : list nat) (h : list Mind.SemanticNeuron) : Prop :=
  ∀ r n, r ∈ rs → h !! r = Some n → Mind.K_JL + Mind.L n ≠ 0.

(** The Love value that the inner loop of [evolve] writes to a neuron. *)
Definition evolved_love (kappa_LJ kappa_LW dt : R) (n : Mind.SemanticNeuron) : R :=
  Rmax 0 (Rmin 1 (Mind.L n
                  + (Mind.ALPHA_item "LJ" * Mind.J n * kappa_LJ
                     + Mind.ALPHA_item "LW" * Mind.W n * kappa_LW
                     - Mind.BETA_item "L" * Mind.L n) * dt)).

(** The coordinate of a concept on one axis, and all four in [lo, hi]. *)
Definition axis (d : Dimension) (c : SFN.SemanticConcept) : R :=
  match d with
  | LOVE => SFN._L c | JUSTICE => SFN._J c | POWER => SFN._P c | WISDOM => SFN._W c
  end.

Definition axes_within (lo hi : R) (c : SFN.SemanticConcept) : Prop :=
  ∀ d, lo <= axis d c <= hi.

(** [GeometricShadow.distance_from_equilibrium] of a concept. *)
Definition equilibrium_distance (c : SFN.SemanticConcept) : R :=
  SFN.distance_from_equilibrium (SFN._L c) (SFN._J c) (SFN._P c) (SFN._W c).

(** What the loop of [recognize] knows about its accumulator
    [(best_match, best_similarity)] after the references [seen], for the
    concept [c] in the store [h]. *)
Definition recognize_inv (h : list SFN.SemanticConcept) (c : SFN.SemanticConcept)
    (seen : list nat) (best : option nat * R) : Prop :=
  match best.1 with
  | None =>
      best.2 = 0.0 ∧
      ∀ r k, r ∈ seen → h !! r = Some k → SFN.dimension c ≠ SFN.dimension k
  | Some b =>
      b ∈ seen ∧
      ∃ kb, h !! b = Some kb ∧ SFN.dimension c = SFN.dimension kb ∧
            best.2 = SFN.similarity c kb ∧
            ∀ r k, r ∈ seen → h !! r = Some k → SFN.dimension c = SFN.dimension k →
                   SFN.similarity c k <= SFN.similarity c kb
  end.

(** From [a] to [b] only Love has changed, and it has moved towards 1
    without crossing it: from at most 1 it has not fallen and is still at
    most 1; from above 1 it has not risen and is still at least 1. *)
Definition only_love_moves (a b : SFN.SemanticConcept) : Prop :=
  (SFN._L a <= 1 → SFN._L a <= SFN._L b <= 1) ∧
  (1 < SFN._L a → 1 <= SFN._L b <= SFN._L a) ∧
  SFN._J b = SFN._J a ∧ SFN._P b = SFN._P a ∧ SFN._W b = SFN._W a ∧
  SFN.name b = SFN.name a ∧ SFN.dimension b = SFN.dimension a.

(** The Fibonacci numbers 1, 1, 2, 3, 5, ... counted from index 0, and
    the list of the first [n] of them. *)
Fixpoint fibonacci_pair (i : nat) : Z * Z :=
  match i with
  | O => (1, 1)%Z
  | S i => let '(a, b) := fibonacci_pair i in (b, (a + b)%Z)
  end.

Definition fibonacci (i : nat) : Z := (fibonacci_pair i).1.

Definition fibonacci_prefix (n : nat) : list Z := fibonacci <$> seq 0 n.

(** All four coordinates of a neuron are in [0, 1]; and so for every
    neuron reached through [rs]. *)
Definition neuron_in_unit (n : Mind.SemanticNeuron) : Prop :=
  0 <= Mind.L n <= 1 ∧ 0 <= Mind.J n <= 1 ∧ 0 <= Mind.P n <= 1 ∧ 0 <= Mind.W n <= 1.

Definition neurons_in_unit (rs : list nat) (h : list Mind.SemanticNeuron) : Prop :=
  ∀ r n, r ∈ rs → h !! r = Some n → neuron_in_unit n.

(** * Sample states *)

(** [LJPWCognitiveMind()] in an empty store. *)
Definition fresh_mind : Mind.LJPWCognitiveMind * list Mind.SemanticNeuron :=
  Mind.init [].

(** A network whose [concepts] dict has been emptied. *)
Definition empty_network : SFN.SemanticFlowNetwork :=
  SFN.mkSemanticFlowNetwork [] (SFN.mkWisdomOperator []).

(** [SemanticFlowNetwork()] in an empty store. *)
Definition fresh_network : SFN.SemanticFlowNetwork * list SFN.SemanticConcept :=
  SFN.init [].

(** A network of two concepts whose Power and Wisdom values have been
    assigned: 0.65 and 0.6 for the first, 0.8 and 0.8 for the second. *)
Definition pair_network : SFN.SemanticFlowNetwork * list SFN.SemanticConcept :=
  (SFN.mkSemanticFlowNetwork [("a", 0%nat); ("b", 1%nat)] (SFN.mkWisdomOperator []),
   [ SFN.set_W 0.6 (SFN.set_P 0.65 (SFN.new_concept "a" LOVE));
     SFN.set_W 0.8 (SFN.set_P 0.8 (SFN.new_concept "b" LOVE)) ]).

(** [SemanticFlowNetwork()] followed by four [add_concept] calls. *)
Definition crowded_network : SFN.SemanticFlowNetwork * list SFN.SemanticConcept :=
  let '(net, h) := SFN.init [] in
  let '(_, net, h) := SFN.add_concept "care" LOVE net h in
  let '(_, net, h) := SFN.add_concept "trust" LOVE net h in
  let '(_, net, h) := SFN.add_concept "bond" LOVE net h in
  let '(_, net, h) := SFN.add_concept "unity" LOVE net h in
  (net, h).

(** A network of one concept whose coordinates have all been set to
    0.1. *)
Definition dim_network : SFN.SemanticFlowNetwork * list SFN.SemanticConcept :=
  (SFN.mkSemanticFlowNetwork [("a", 0%nat)] (SFN.mkWisdomOperator []),
   [ SFN.mkSemanticConcept "a" LOVE ∅ 0.1 0.1 0.1 0.1 ]).

(** One neuron whose coordinates have all been set to 0.1. *)
Definition dim_neurons : list Mind.SemanticNeuron :=
  [ Mind.mkSemanticNeuron "a" LOVE 0.1 0.1 0.1 0.1 ∅ ].

(** A mind whose only neuron has had its Love set to -0.59. *)
Definition singular_mind : Mind.LJPWCognitiveMind * list Mind.SemanticNeuron :=
  (Mind.mkLJPWCognitiveMind [("a", 0%nat)] (Mind.mkAnchorAttractor 0.05),
   [ Mind.set_L (-0.59) (Mind.new_neuron "a" LOVE) ]).

(** A measurement with Love on the threshold 0.7 and the other three
    coordinates at 1. *)
Definition threshold_measurement : QM.LJPWMeasurement :=
  QM.mkLJPWMeasurement 0.7 1 1 1 0 "".

(** * Proof tools: fixed-point enclosures of [exp]

    Integers read at scale [10^15].  Squaring with the quotient rounded
    down keeps a lower bound of [exp] a lower bound of its square;
    rounded up, an upper bound. *)

Definition scale : Z := 10 ^ 15.
Definition sq_down (b : Z) : Z := (b * b / scale)%Z.
Definition sq_up (u : Z) : Z := ((u * u + scale - 1) / scale)%Z.

(** * Properties *)

(** ** Numeric enclosures of the equilibrium constants

    [1 + y <= exp y <= 1 / (1 - y)] at [y = x / 2^20], squared twenty
    times. *)

Lemma Rdiv_lt_cross (a b c d : R) :
  0 < b → 0 < d → a * d < c * b → a / b < c / d.
Proof.
  intros Hb Hd Hlt.
  apply (Rmult_lt_reg_r (b * d)); [nra|].
  replace (a / b * (b * d)) with (a * d) by (field; lra).
  replace (c / d * (b * d)) with (c * b) by (field; lra).
  done.
Qed.

Lemma Rdiv_lt_cross_l (x a y : R) : 0 < a → x < y * a → x / a < y.
Proof.
  intros Ha Hlt. apply (Rmult_lt_reg_r a); [done|].
  unfold Rdiv. rewrite Rmult_assoc, Rinv_l by lra. lra.
Qed.

Lemma Rdiv_lt_cross_r (x a y : R) : 0 < a → y * a < x → y < x / a.
Proof.
  intros Ha Hlt. apply (Rmult_lt_reg_r a); [done|].
  unfold Rdiv. rewrite Rmult_assoc, Rinv_l by lra. lra.
Qed.

Lemma scale_pos : 0 < IZR scale.
Proof. apply IZR_lt. reflexivity. Qed.

Lemma sq_down_le (b : Z) : IZR (sq_down b) <= IZR b * IZR b / IZR scale.
Proof.
  pose proof scale_pos as HS.
  apply (Rmult_le_reg_r (IZR scale)); [done|].
  replace (IZR b * IZR b / IZR scale * IZR scale) with (IZR b * IZR b) by (field; lra).
  rewrite <- !mult_IZR. apply IZR_le. unfold sq_down.
  rewrite Z.mul_comm. apply Z.mul_div_le. reflexivity.
Qed.

Lemma sq_up_ge (u : Z) : IZR u * IZR u / IZR scale <= IZR (sq_up u).
Proof.
  pose proof scale_pos as HS.
  apply (Rmult_le_reg_r (IZR scale)); [done|].
  replace (IZR u * IZR u / IZR scale * IZR scale) with (IZR u * IZR u) by (field; lra).
  rewrite <- !mult_IZR. apply IZR_le. unfold sq_up.
  pose proof (Z.mul_succ_div_gt (u * u + scale - 1) scale ltac:(reflexivity)) as Hgt.
  lia.
Qed.

Lemma sq_down_nonneg (b : Z) : (0 <= sq_down b)%Z.
Proof. unfold sq_down. apply Z.div_pos; [nia | reflexivity]. Qed.

Lemma exp_double (y : R) : exp (2 * y) = exp y * exp y.
Proof. replace (2 * y) with (y + y) by ring. apply exp_plus. Qed.

Lemma sq_down_chain (k : nat) (b : Z) (y : R) :
  (0 <= b)%Z → IZR b / IZR scale <= exp y →
  IZR (Nat.iter k sq_down b) / IZR scale <= exp (2 ^ k * y).
Proof.
  pose proof scale_pos as HS.
  induction k as [|k IH]; intros Hb Hle.
  - simpl. by rewrite Rmult_1_l.
  - specialize (IH Hb Hle).
    change (Nat.iter (S k) sq_down b) with (sq_down (Nat.iter k sq_down b)).
    set (r := Nat.iter k sq_down b) in *.
    assert (Hr : (0 <= r)%Z).
    { subst r. destruct k; [done | apply sq_down_nonneg]. }
    replace (2 ^ S k * y) with (2 * (2 ^ k * y)) by (simpl; ring).
    rewrite exp_double.
    pose proof (sq_down_le r) as Hd.
    assert (Hr' : 0 <= IZR r / IZR scale).
    { apply Rmult_le_pos; [by apply IZR_le | left; by apply Rinv_0_lt_compat]. }
    apply (Rle_trans _ (IZR r / IZR scale * (IZR r / IZR scale))).
    + apply (Rmult_le_reg_r (IZR scale)); [done|].
      replace (IZR r / IZR scale * (IZR r / IZR scale) * IZR scale)
        with (IZR r * IZR r / IZR scale) by (field; lra).
      replace (IZR (sq_down r) / IZR scale * IZR scale) with (IZR (sq_down r)) by (field; lra).
      done.
    + apply Rmult_le_compat; done.
Qed.

Lemma sq_up_chain (k : nat) (u : Z) (y : R) :
  exp y <= IZR u / IZR scale →
  exp (2 ^ k * y) <= IZR (Nat.iter k sq_up u) / IZR scale.
Proof.
  pose proof scale_pos as HS.
  induction k as [|k IH]; intros Hle.
  - simpl. by rewrite Rmult_1_l.
  - specialize (IH Hle).
    change (Nat.iter (S k) sq_up u) with (sq_up (Nat.iter k sq_up u)).
    set (r := Nat.iter k sq_up u) in *.
    replace (2 ^ S k * y) with (2 * (2 ^ k * y)) by (simpl; ring).
    rewrite exp_double.
    pose proof (sq_up_ge r) as Hd.
    pose proof (exp_pos (2 ^ k * y)) as He.
    apply (Rle_trans _ (IZR r / IZR scale * (IZR r / IZR scale))).
    + apply Rmult_le_compat; lra.
    + apply (Rmult_le_reg_r (IZR scale)); [done|].
      replace (IZR r / IZR scale * (IZR r / IZR scale) * IZR scale)
        with (IZR r * IZR r / IZR scale) by (field; lra).
      replace (IZR (sq_up r) / IZR scale * IZR scale) with (IZR (sq_up r)) by (field; lra).
      done.
Qed.

(** [q < exp x] from a lower chain started at [b <= scale * (1 + y)]. *)
Lemma exp_gt_by_chain (k : nat) (b c d : Z) (x y : R) :
  x = 2 ^ k * y → (0 <= b)%Z → IZR b <= IZR scale * (1 + y) → (0 < d)%Z →
  (c * scale < d * Nat.iter k sq_down b)%Z →
  IZR c / IZR d < exp x.
Proof.
  intros -> Hb Hb0 Hd Hlt.
  pose proof scale_pos as HS.
  assert (Hd' : 0 < IZR d) by (by apply IZR_lt).
  eapply Rlt_le_trans; [|apply (sq_down_chain k b y Hb)].
  - apply IZR_lt in Hlt. rewrite !mult_IZR in Hlt.
    apply Rdiv_lt_cross; [done | done | lra].
  - pose proof (exp_ineq1_le y).
    apply (Rmult_le_reg_r (IZR scale)); [done|].
    replace (IZR b / IZR scale * IZR scale) with (IZR b) by (field; lra).
    nra.
Qed.

(** [exp x < q] from an upper chain started at [u >= scale / (1 - y)]. *)
Lemma exp_lt_by_chain (k : nat) (u c d : Z) (x y : R) :
  x = 2 ^ k * y → y < 1 → IZR scale <= IZR u * (1 - y) → (0 < d)%Z →
  (d * Nat.iter k sq_up u < c * scale)%Z →
  exp x < IZR c / IZR d.
Proof.
  intros -> Hy Hu0 Hd Hlt.
  pose proof scale_pos as HS.
  assert (Hd' : 0 < IZR d) by (by apply IZR_lt).
  eapply Rle_lt_trans; [apply (sq_up_chain k u y)|].
  - pose proof (exp_ineq1_le (- y)) as Hm. rewrite exp_Ropp in Hm.
    pose proof (exp_pos y) as He.
    assert (H1 : (1 - y) * exp y <= 1).
    { apply (Rmult_le_compat_r (exp y)) in Hm; [|lra].
      rewrite Rinv_l in Hm; lra. }
    apply (Rmult_le_reg_r (IZR scale)); [done|].
    replace (IZR u / IZR scale * IZR scale) with (IZR u) by (field; lra).
    nra.
  - apply IZR_lt in Hlt. rewrite !mult_IZR in Hlt.
    apply Rdiv_lt_cross; [done | done | lra].
Qed.

Lemma scale_value : IZR scale = 1000000000000000.
Proof. reflexivity. Qed.

Lemma exp_1_bounds : 2.71828 < exp 1 < 2.71829.
Proof.
  split.
  - replace 2.71828 with (IZR 271828 / IZR 100000) by lra.
    apply (exp_gt_by_chain 20 1000000953674316 _ _ 1 (1 / 1048576));
      [lra | lia | rewrite scale_value; lra | lia | vm_compute; reflexivity].
  - replace 2.71829 with (IZR 271829 / IZR 100000) by lra.
    apply (exp_lt_by_chain 20 1000000953675226 _ _ 1 (1 / 1048576));
      [lra | lra | rewrite scale_value; lra | lia | vm_compute; reflexivity].
Qed.

Lemma ln_2_bounds : 0.69314 < ln 2 < 0.69315.
Proof.
  split.
  - rewrite <- (ln_exp 0.69314). apply ln_increasing; [apply exp_pos|].
    assert (Hlt : exp 0.69314 < IZR 2 / IZR 1); [|lra].
    apply (exp_lt_by_chain 20 1000000661030253 _ _ _ (0.69314 / 1048576));
      [lra | lra | rewrite scale_value; lra | lia | vm_compute; reflexivity].
  - rewrite <- (ln_exp 0.69315). apply ln_increasing; [lra|].
    assert (Hlt : IZR 2 / IZR 1 < exp 0.69315); [|lra].
    apply (exp_gt_by_chain 20 1000000661039352 _ _ _ (0.69315 / 1048576));
      [lra | lia | rewrite scale_value; lra | lia | vm_compute; reflexivity].
Qed.

Lemma sqrt_bracket (x a b : R) :
  0 <= a → 0 <= b → a * a < x → x < b * b → a < sqrt x < b.
Proof.
  intros Ha Hb Hax Hxb. split.
  - rewrite <- (sqrt_square a Ha). apply sqrt_lt_1; nra.
  - rewrite <- (sqrt_square b Hb). apply sqrt_lt_1; nra.
Qed.

Lemma sqrt_5_bounds : 2.23606 < sqrt 5 < 2.23607.
Proof. apply sqrt_bracket; lra. Qed.

Lemma sqrt_2_bounds : 1.41421 < sqrt 2 < 1.41422.
Proof. apply sqrt_bracket; lra. Qed.

Lemma L0_bounds : 0.61803 < L0 < 0.61804.
Proof. unfold L0, PHI_INV, PHI. pose proof sqrt_5_bounds. lra. Qed.

Lemma J0_bounds : 0.41421 < J0 < 0.41422.
Proof. unfold J0. pose proof sqrt_2_bounds. lra. Qed.

Lemma P0_bounds : 0.71828 < P0 < 0.71829.
Proof. unfold P0. pose proof exp_1_bounds. lra. Qed.

Lemma W0_bounds : 0.69314 < W0 < 0.69315.
Proof. unfold W0. exact ln_2_bounds. Qed.

(** ** Phase classification *)

Lemma determine_phase_entropic (H L : R) :
  H < 0.5 → SFN.determine_phase H L = ENTROPIC.
Proof. intros Hlt. unfold SFN.determine_phase. by rewrite decide_True. Qed.

Lemma determine_phase_autopoietic (H L : R) :
  H >= 0.6 → L >= 0.7 → SFN.determine_phase H L = AUTOPOIETIC.
Proof.
  intros HH HL. unfold SFN.determine_phase.
  rewrite decide_False by lra. by rewrite decide_True.
Qed.

Lemma determine_phase_homeostatic (H L : R) :
  ¬ H < 0.5 → ¬ (H >= 0.6 ∧ L >= 0.7) → SFN.determine_phase H L = HOMEOSTATIC.
Proof.
  intros HH HL. unfold SFN.determine_phase.
  rewrite decide_False by done. by rewrite decide_False.
Qed.

(** The torch variant tests the same two conditions. *)
Lemma Arch_determine_phase_same (H L : R) :
  Arch.determine_phase H L = SFN.determine_phase H L.
Proof. reflexivity. Qed.

(** The measurement record of [quantum_measurement.py] classifies with
    strict comparisons; away from the two thresholds it agrees with
    [determine_phase]. *)
Lemma QM_phase_agrees (m : QM.LJPWMeasurement) :
  QM.harmony m ≠ 0.6 → QM.L m ≠ 0.7 →
  QM.phase m = SFN.determine_phase (QM.harmony m) (QM.L m).
Proof.
  intros HH HL. unfold QM.phase, SFN.determine_phase.
  destruct (decide (QM.harmony m < 0.5)); [done|].
  destruct (decide (QM.L m > 0.7 ∧ QM.harmony m > 0.6)) as [[? ?]|Hn].
  - rewrite decide_True; [done | lra].
  - rewrite decide_False; [done|]. intros [? ?]. apply Hn. lra.
Qed.

Lemma QM_phase_entropic (m : QM.LJPWMeasurement) :
  QM.harmony m < 0.5 → QM.phase m = ENTROPIC.
Proof. intros Hlt. unfold QM.phase. by rewrite decide_True. Qed.

Lemma QM_phase_autopoietic (m : QM.LJPWMeasurement) :
  QM.L m > 0.7 → QM.harmony m > 0.6 → QM.phase m = AUTOPOIETIC.
Proof.
  intros HL HH. unfold QM.phase.
  rewrite decide_False by lra. by rewrite decide_True.
Qed.

Lemma QM_phase_homeostatic (m : QM.LJPWMeasurement) :
  ¬ QM.harmony m < 0.5 → ¬ (QM.L m > 0.7 ∧ QM.harmony m > 0.6) →
  QM.phase m = HOMEOSTATIC.
Proof.
  intros HH HL. unfold QM.phase.
  rewrite decide_False by done. by rewrite decide_False.
Qed.

(** The harmony of the measurement with Love 0.7 and the rest at 1. *)
Lemma threshold_measurement_harmony :
  0.76 < QM.harmony threshold_measurement < 0.77.
Proof.
  assert (HH : QM.harmony threshold_measurement = 1 / 1.3).
  { unfold QM.harmony, threshold_measurement. cbn [QM.L QM.J QM.P QM.W]. cbv zeta.
    replace ((1 - 0.7)^2 + (1 - 1)^2 + (1 - 1)^2 + (1 - 1)^2) with (0.3 * 0.3) by lra.
    rewrite sqrt_square by lra.
    replace (1.0 + 0.3) with 1.3 by lra. by replace 1.0 with 1 by lra. }
  rewrite HH. split; [apply Rdiv_lt_cross_r | apply Rdiv_lt_cross_l]; lra.
Qed.

(** C1, as stated, fails for [LJPWMeasurement.phase]: the measurement with
    Love 0.7 and the other coordinates at 1 has harmony >= 0.6 and
    Love >= 0.7, and its phase is HOMEOSTATIC. *)
Lemma QM_phase_threshold_homeostatic :
  QM.harmony threshold_measurement >= 0.6 ∧
  QM.L threshold_measurement >= 0.7 ∧
  QM.phase threshold_measurement = HOMEOSTATIC.
Proof.
  pose proof threshold_measurement_harmony as HH.
  split; [lra|]. split; [cbn; lra|].
  apply QM_phase_homeostatic; [lra|].
  intros [HL _]. cbn in HL. lra.
Qed.

(** C1, as the code has it. [GeometricShadow.determine_phase] is a total
    function of (Harmony, Love): H < 0.5 gives ENTROPIC; H >= 0.6 and
    L >= 0.7 gives AUTOPOIETIC; every other pair gives HOMEOSTATIC; with
    the four literal cases.  The [phase] property of [LJPWMeasurement]
    classifies the measurement's own harmony and Love with strict
    comparisons: harmony < 0.5 gives ENTROPIC; L > 0.7 and harmony > 0.6
    gives AUTOPOIETIC; every other measurement is HOMEOSTATIC, so also
    one with harmony >= 0.5 and L = 0.7 or harmony = 0.6. *)
Theorem determine_phase_classifies (H L : R) (m : QM.LJPWMeasurement) :
  (H < 0.5 → SFN.determine_phase H L = ENTROPIC) ∧
  (H >= 0.6 ∧ L >= 0.7 → SFN.determine_phase H L = AUTOPOIETIC) ∧
  (¬ H < 0.5 ∧ ¬ (H >= 0.6 ∧ L >= 0.7) → SFN.determine_phase H L = HOMEOSTATIC) ∧
  SFN.determine_phase 0.3 0.9 = ENTROPIC ∧
  SFN.determine_phase 0.55 0.6 = HOMEOSTATIC ∧
  SFN.determine_phase 0.65 0.75 = AUTOPOIETIC ∧
  SFN.determine_phase 0.6 0.69 = HOMEOSTATIC ∧
  (QM.harmony m < 0.5 → QM.phase m = ENTROPIC) ∧
  (QM.L m > 0.7 ∧ QM.harmony m > 0.6 → QM.phase m = AUTOPOIETIC) ∧
  (¬ QM.harmony m < 0.5 ∧ ¬ (QM.L m > 0.7 ∧ QM.harmony m > 0.6) →
   QM.phase m = HOMEOSTATIC) ∧
  (QM.harmony m >= 0.5 ∧ (QM.L m = 0.7 ∨ QM.harmony m = 0.6) →
   QM.phase m = HOMEOSTATIC).
Proof.
  split_and!.
  - apply determine_phase_entropic.
  - intros [? ?]. by apply determine_phase_autopoietic.
  - intros [? ?]. by apply determine_phase_homeostatic.
  - apply determine_phase_entropic. lra.
  - apply determine_phase_homeostatic; lra.
  - apply determine_phase_autopoietic; lra.
  - apply determine_phase_homeostatic; lra.
  - apply QM_phase_entropic.
  - intros [? ?]. by apply QM_phase_autopoietic.
  - intros [? ?]. by apply QM_phase_homeostatic.
  - intros [? Heq]. apply QM_phase_homeostatic; [lra|]. intros [? ?]. lra.
Qed.

(** The literal cases on doubles. *)
Lemma determine_phase_binary64 :
  Binary64.literal_phases
  = [ENTROPIC; HOMEOSTATIC; AUTOPOIETIC; HOMEOSTATIC; ENTROPIC; ENTROPIC].
Proof. reflexivity. Qed.

(** ** Harmony *)

Lemma sum_squares_nonneg (a b c d : R) : 0 <= a^2 + b^2 + c^2 + d^2.
Proof. nra. Qed.

Lemma distance_from_anchor_nonneg (L J P W : R) :
  0 <= SFN.distance_from_anchor L J P W.
Proof. unfold SFN.distance_from_anchor. apply sqrt_pos. Qed.

(** The denominator of [harmony] is never zero: the division cannot
    raise. *)
Lemma harmony_denominator_pos (L J P W : R) :
  0 < 1.0 + SFN.distance_from_anchor L J P W.
Proof. pose proof (distance_from_anchor_nonneg L J P W). lra. Qed.

Lemma harmony_range (L J P W : R) : 0 < SFN.harmony L J P W <= 1.
Proof.
  unfold SFN.harmony. cbv zeta.
  pose proof (distance_from_anchor_nonneg L J P W) as HD.
  set (D := SFN.distance_from_anchor L J P W) in *.
  split.
  - apply Rdiv_lt_0_compat; lra.
  - apply (Rmult_le_reg_r (1.0 + D)); [lra|].
    unfold Rdiv. rewrite Rmult_assoc, Rinv_l by lra. lra.
Qed.

Lemma harmony_at_anchor : SFN.harmony 1 1 1 1 = 1.
Proof.
  unfold SFN.harmony, SFN.distance_from_anchor. cbv zeta.
  replace ((1 - 1)^2 + (1 - 1)^2 + (1 - 1)^2 + (1 - 1)^2) with 0 by ring.
  rewrite sqrt_0. unfold Rdiv. rewrite Rplus_0_r, Rinv_r; lra.
Qed.

(** Enclosures of [harmony] from enclosures of the squared distance. *)
Lemma harmony_above (L J P W b : R) :
  0 <= b → (1 - L)^2 + (1 - J)^2 + (1 - P)^2 + (1 - W)^2 < b * b →
  1 / (1 + b) < SFN.harmony L J P W.
Proof.
  intros Hb Hlt. unfold SFN.harmony, SFN.distance_from_anchor. cbv zeta.
  set (S := (1 - L)^2 + (1 - J)^2 + (1 - P)^2 + (1 - W)^2) in *.
  assert (HS : 0 <= S) by apply sum_squares_nonneg.
  assert (Hs : sqrt S < b).
  { rewrite <- (sqrt_square b Hb). by apply sqrt_lt_1; [|nra|]. }
  pose proof (sqrt_pos S).
  apply Rdiv_lt_cross; lra.
Qed.

Lemma harmony_below (L J P W a : R) :
  0 <= a → a * a < (1 - L)^2 + (1 - J)^2 + (1 - P)^2 + (1 - W)^2 →
  SFN.harmony L J P W < 1 / (1 + a).
Proof.
  intros Ha Hlt. unfold SFN.harmony, SFN.distance_from_anchor. cbv zeta.
  set (S := (1 - L)^2 + (1 - J)^2 + (1 - P)^2 + (1 - W)^2) in *.
  assert (Hs : a < sqrt S).
  { rewrite <- (sqrt_square a Ha). apply sqrt_lt_1; nra. }
  apply Rdiv_lt_cross; lra.
Qed.

(** C6. For every tuple of axis values in their valid ranges, anchor-mode
    harmony lies in (0, 1]. *)
Theorem harmony_in_unit_interval (L J P W : R) :
  valid_axes L J P W → 0 < SFN.harmony L J P W <= 1.
Proof. intros _. apply harmony_range. Qed.

Lemma harmony_in_unit_interval_witness :
  valid_axes 0.3 0.65 0.4 0.35 ∧ 0 < SFN.harmony 0.3 0.65 0.4 0.35 <= 1.
Proof.
  assert (Hv : valid_axes 0.3 0.65 0.4 0.35).
  { unfold valid_axes. pose proof sqrt_2_bounds. lra. }
  split; [exact Hv | exact (harmony_in_unit_interval 0.3 0.65 0.4 0.35 Hv)].
Defined.

Lemma harmony_equilibrium_enclosure :
  0.5512 < SFN.harmony L0 J0 P0 W0 < 0.5513.
Proof.
  pose proof L0_bounds. pose proof J0_bounds.
  pose proof P0_bounds. pose proof W0_bounds.
  split.
  - eapply Rlt_trans; [|apply (harmony_above _ _ _ _ 0.814)]; [lra | lra | nra].
  - eapply Rlt_trans; [apply (harmony_below _ _ _ _ 0.81397)|]; [lra | nra | lra].
Qed.

(** C7, as the code has it. Anchor-mode harmony at the equilibrium point
    is a fixed constant between 0.5512 and 0.5513. *)
Theorem harmony_at_equilibrium :
  0.5512 < SFN.harmony L0 J0 P0 W0 < 0.5513.
Proof. exact harmony_equilibrium_enclosure. Qed.

(** C7, as stated, fails: the value is not near 0.422, it exceeds it by
    more than 0.129. *)
Lemma harmony_at_equilibrium_not_0_422 :
  ¬ (Rabs (SFN.harmony L0 J0 P0 W0 - 0.422) < 0.129).
Proof.
  pose proof harmony_equilibrium_enclosure as [Hlo _].
  intros Habs. apply Rabs_def2 in Habs. lra.
Qed.

(** The same measurement on doubles gives the literal CPython prints. *)
Lemma harmony_at_equilibrium_binary64 :
  Binary64.harmony Binary64.L0 Binary64.J0 Binary64.P0 Binary64.W0
  = Binary64.harmony_at_equilibrium_literal.
Proof. reflexivity. Qed.

(** ** Karma coefficient *)

Lemma KARMA_MULTIPLIERS_cases (t : string) :
  let m := dict_get SFN.KARMA_MULTIPLIERS t 0.4 in
  m = 0.2 ∨ m = 0.3 ∨ m = 0.4 ∨ m = 0.5.
Proof.
  unfold SFN.KARMA_MULTIPLIERS. cbn [dict_get]. cbv zeta.
  repeat match goal with |- context [String.eqb ?a ?b] => destruct (String.eqb a b) end;
    auto.
Qed.

Lemma karma_coupling_cases (t : string) :
  ∃ m, (m = 0.3 ∨ m = 0.4 ∨ m = 0.5) ∧ ∀ H, SFN.karma_coupling H t = 1 + m * H.
Proof.
  exists (dict_get [("LJ", 0.4); ("LP", 0.3); ("LW", 0.5)] t 0.4). split.
  - cbn [dict_get].
    repeat match goal with |- context [String.eqb ?a ?b] => destruct (String.eqb a b) end;
      auto.
  - intros H. unfold SFN.karma_coupling. cbv zeta. lra.
Qed.

(** The three coefficients of the torch variant. *)
Lemma compute_karma_coupling_values (H : R) :
  dict_get (Arch.compute_karma_coupling H) "k_LJ" 0 = 1 + 0.4 * H ∧
  dict_get (Arch.compute_karma_coupling H) "k_LP" 0 = 1 + 0.3 * H ∧
  dict_get (Arch.compute_karma_coupling H) "k_LW" 0 = 1 + 0.5 * H.
Proof. simpl. lra. Qed.

Lemma kappa_nondecreasing (t : string) (H1 H2 : R) :
  H1 <= H2 → SFN.kappa H1 t <= SFN.kappa H2 t.
Proof.
  intros Hle. unfold SFN.kappa. cbv zeta.
  destruct (KARMA_MULTIPLIERS_cases t) as [Hm|[Hm|[Hm|Hm]]];
    cbv zeta in Hm; rewrite Hm; lra.
Qed.

(** A non-negative base strength keeps the order. *)
Lemma karma_coupled_strength_nondecreasing (base : R) (t : string) (H1 H2 : R) :
  0 <= base → H1 <= H2 →
  SFN.karma_coupled_strength base H1 t <= SFN.karma_coupled_strength base H2 t.
Proof.
  intros Hb Hle. unfold SFN.karma_coupled_strength.
  apply Rmult_le_compat_l; [done | by apply kappa_nondecreasing].
Qed.

(** On doubles the order is not strict: 0.5 and the next double above it
    give the same coefficient on the Love-to-Power pathway. *)
Lemma kappa_binary64_tie :
  PrimFloat.ltb Binary64.half Binary64.above_half = true ∧
  Binary64.kappa Binary64.half "LP" = Binary64.kappa Binary64.above_half "LP".
Proof. split; reflexivity. Qed.

(** C9, as the code has it. For every coupling pathway the karma
    coefficient is 1 + m * H with m among 0.2, 0.3, 0.4, 0.5, and it does
    not decrease when H grows; neither do the three coefficients of the
    torch variant.  The growth is not strict on doubles: 0.5 and the next
    double above it give the same coefficient on the LP pathway. *)
Theorem kappa_affine_nondecreasing (t : string) (H1 H2 : R) :
  H1 <= H2 →
  (∃ m, (m = 0.2 ∨ m = 0.3 ∨ m = 0.4 ∨ m = 0.5) ∧ ∀ H, SFN.kappa H t = 1 + m * H) ∧
  SFN.kappa H1 t <= SFN.kappa H2 t ∧
  (∀ k, k ∈ ["k_LJ"; "k_LP"; "k_LW"] →
        dict_get (Arch.compute_karma_coupling H1) k 0
        <= dict_get (Arch.compute_karma_coupling H2) k 0) ∧
  PrimFloat.ltb Binary64.half Binary64.above_half = true ∧
  Binary64.kappa Binary64.half "LP" = Binary64.kappa Binary64.above_half "LP".
Proof.
  intros Hle. split_and!; [| by apply kappa_nondecreasing | | apply kappa_binary64_tie ..].
  - exists (dict_get SFN.KARMA_MULTIPLIERS t 0.4). split.
    + apply KARMA_MULTIPLIERS_cases.
    + intros H. unfold SFN.kappa. cbv zeta. lra.
  - intros k Hk.
    repeat (apply elem_of_cons in Hk as [->|Hk]); [| | | by apply elem_of_nil in Hk];
      simpl; lra.
Qed.

Lemma kappa_affine_nondecreasing_witness :
  0.2 <= 0.9 ∧
  (∃ m, (m = 0.2 ∨ m = 0.3 ∨ m = 0.4 ∨ m = 0.5) ∧ ∀ H, SFN.kappa H "LW" = 1 + m * H) ∧
  SFN.kappa 0.2 "LW" <= SFN.kappa 0.9 "LW" ∧
  (∀ k, k ∈ ["k_LJ"; "k_LP"; "k_LW"] →
        dict_get (Arch.compute_karma_coupling 0.2) k 0
        <= dict_get (Arch.compute_karma_coupling 0.9) k 0) ∧
  PrimFloat.ltb Binary64.half Binary64.above_half = true ∧
  Binary64.kappa Binary64.half "LP" = Binary64.kappa Binary64.above_half "LP".
Proof.
  assert (Hle : 0.2 <= 0.9) by lra.
  split; [exact Hle | exact (kappa_affine_nondecreasing "LW" 0.2 0.9 Hle)].
Defined.

(** C9, as stated, fails on the Wisdom-to-Justice pathway of
    [KARMA_MULTIPLIERS], whose multiplier is 0.2. *)
Lemma kappa_WJ_multiplier_not_listed :
  ¬ ∃ m, (m = 0.3 ∨ m = 0.4 ∨ m = 0.5) ∧ ∀ H, SFN.kappa H "WJ" = 1 + m * H.
Proof.
  intros [m [Hm Hk]]. specialize (Hk 1).
  unfold SFN.kappa in Hk. simpl in Hk. lra.
Qed.

(** ** Emergent Love field *)

Lemma clamp_range (x lo hi : R) : lo <= hi → lo <= Arch.clamp x lo hi <= hi.
Proof.
  intros Hle. unfold Arch.clamp. split.
  - apply Rmin_glb; [apply Rmax_r | done].
  - apply Rmin_r.
Qed.

Lemma clamp_inside (x lo hi : R) : lo <= x <= hi → Arch.clamp x lo hi = x.
Proof.
  intros [Hlo Hhi]. unfold Arch.clamp.
  rewrite Rmax_left by done. by rewrite Rmin_left.
Qed.

Lemma compute_love_range (w : R) : 0 <= Arch.compute_love w <= sqrt 2.
Proof. unfold Arch.compute_love. apply clamp_range, sqrt_pos. Qed.

(** The correlation measure is a value of [0, 1], and Love computed
    from it a value of [0, sqrt 2]. *)
Lemma get_correlation_measure_range (last_dim : nat) (attn_flat : list (list R)) :
  0 <= Arch.get_correlation_measure last_dim attn_flat <= 1.
Proof.
  pose proof L0_bounds. unfold Arch.get_correlation_measure.
  case_decide; [lra|]. cbv zeta. case_decide; [lra|].
  apply clamp_range. lra.
Qed.

Lemma emergent_love_range (last_dim : nat) (attn_flat : list (list R)) :
  0 <= Arch.compute_love (Arch.get_correlation_measure last_dim attn_flat) <= sqrt 2.
Proof. apply compute_love_range. Qed.

(** C8, as the code has it. The emergent Love value is the correlation
    measure times the reciprocal of the Love equilibrium constant, the
    constant of the emergent axis itself, clamped to [0, sqrt 2]. *)
Theorem compute_love_scales_by_love_equilibrium (w : R) :
  Arch.compute_love w = Arch.clamp (w * (1 / equilibrium LOVE)) 0 (sqrt 2) ∧
  fundamental LOVE = false ∧
  0 <= Arch.compute_love w <= sqrt 2.
Proof.
  split_and!; [| done | apply compute_love_range | apply compute_love_range].
  unfold Arch.compute_love, equilibrium. cbv zeta. f_equal. lra.
Qed.

(** C8, as stated, fails: at correlation 0.5 the result, above 0.8, is
    the clamped product with the equilibrium constant of neither
    fundamental axis, both of which stay below 0.73. *)
Lemma compute_love_not_fundamental_equilibrium :
  Arch.compute_love 0.5 ≠ Arch.clamp (0.5 * (1 / equilibrium WISDOM)) 0 (sqrt 2) ∧
  Arch.compute_love 0.5 ≠ Arch.clamp (0.5 * (1 / equilibrium POWER)) 0 (sqrt 2).
Proof.
  pose proof L0_bounds. pose proof W0_bounds. pose proof P0_bounds.
  pose proof sqrt_2_bounds.
  assert (HL : 0.8 < 0.5 * (1.0 / L0) < 0.81).
  { replace (0.5 * (1.0 / L0)) with (0.5 / L0) by (unfold Rdiv; lra).
    split; [apply Rdiv_lt_cross_r | apply Rdiv_lt_cross_l]; lra. }
  assert (HW : 0.72 < 0.5 * (1 / W0) < 0.73).
  { replace (0.5 * (1 / W0)) with (0.5 / W0) by (unfold Rdiv; lra).
    split; [apply Rdiv_lt_cross_r | apply Rdiv_lt_cross_l]; lra. }
  assert (HP : 0.69 < 0.5 * (1 / P0) < 0.7).
  { replace (0.5 * (1 / P0)) with (0.5 / P0) by (unfold Rdiv; lra).
    split; [apply Rdiv_lt_cross_r | apply Rdiv_lt_cross_l]; lra. }
  unfold Arch.compute_love, equilibrium. cbv zeta.
  rewrite !clamp_inside by lra. lra.
Qed.

(** ** Uncertainty check *)

Lemma check_uncertainty_unfold (net : SFN.SemanticFlowNetwork) (h : list SFN.SemanticConcept) :
  SFN.check_uncertainty net h =
    let P_values := SFN._P <$> SFN.concept_values net h in
    let W_values := SFN._W <$> SFN.concept_values net h in
    if decide (length P_values < 2)%nat then (true, 1.0)
    else
      let product := population_deviation P_values * population_deviation W_values in
      (bool_decide (product >= SFN.UNCERTAINTY_BOUND ∨ product < 0.01), product).
Proof. reflexivity. Qed.

(** With two members or more the divisions are by a positive length:
    they cannot raise. *)
Lemma population_length_pos (values : list R) :
  (2 <= length values)%nat → 0 < INR (length values).
Proof. intros Hlen. apply lt_0_INR. lia. Qed.

Lemma population_deviation_nonneg (values : list R) : 0 <= population_deviation values.
Proof. unfold population_deviation. apply sqrt_pos. Qed.

Lemma check_uncertainty_large (net : SFN.SemanticFlowNetwork)
    (h : list SFN.SemanticConcept) :
  (2 <= length (SFN.concept_values net h))%nat →
  SFN.check_uncertainty net h =
    let product := population_deviation (SFN._P <$> SFN.concept_values net h) *
                   population_deviation (SFN._W <$> SFN.concept_values net h) in
    (bool_decide (product >= SFN.UNCERTAINTY_BOUND ∨ product < 0.01), product).
Proof.
  intros Hlen. rewrite check_uncertainty_unfold. cbv zeta.
  by rewrite decide_False by (rewrite length_fmap; lia).
Qed.

(** The bound is the literal 0.287 in the flow network and the product
    J0 * W0, slightly above it, in the torch variant. *)
Lemma UNCERTAINTY_BOUND_values :
  SFN.UNCERTAINTY_BOUND = 0.287 ∧ 0.2871 < Arch.UNCERTAINTY_BOUND < 0.2872.
Proof.
  pose proof J0_bounds. pose proof W0_bounds.
  unfold Arch.UNCERTAINTY_BOUND. split; [done | nra].
Qed.

(** C2, as the code has it. With at least two members the check returns
    (satisfied, product), where product is the product of the population
    standard deviations (divisor n) of the raw Power and Wisdom values, and
    satisfied holds exactly when product >= BOUND or product < 0.01. *)
Theorem check_uncertainty_population (net : SFN.SemanticFlowNetwork)
    (h : list SFN.SemanticConcept) :
  (2 <= length (SFN.concept_values net h))%nat →
  let product := population_deviation (SFN._P <$> SFN.concept_values net h) *
                 population_deviation (SFN._W <$> SFN.concept_values net h) in
  (SFN.check_uncertainty net h).2 = product ∧
  ((SFN.check_uncertainty net h).1 = true ↔
     product >= SFN.UNCERTAINTY_BOUND ∨ product < 0.01).
Proof.
  intros Hlen product. rewrite check_uncertainty_large by done. cbv zeta.
  split; [done|]. cbn [fst]. apply bool_decide_eq_true.
Qed.

Lemma check_uncertainty_population_witness :
  (2 <= length (SFN.concept_values fresh_network.1 fresh_network.2))%nat ∧
  let product :=
    population_deviation (SFN._P <$> SFN.concept_values fresh_network.1 fresh_network.2) *
    population_deviation (SFN._W <$> SFN.concept_values fresh_network.1 fresh_network.2) in
  (SFN.check_uncertainty fresh_network.1 fresh_network.2).2 = product ∧
  ((SFN.check_uncertainty fresh_network.1 fresh_network.2).1 = true ↔
     product >= SFN.UNCERTAINTY_BOUND ∨ product < 0.01).
Proof.
  assert (Hlen : (2 <= length (SFN.concept_values fresh_network.1 fresh_network.2))%nat).
  { simpl. lia. }
  split; [exact Hlen|].
  exact (check_uncertainty_population fresh_network.1 fresh_network.2 Hlen).
Defined.

(** The Power and Wisdom values of the eight-concept network. *)
Lemma crowded_P_values :
  SFN._P <$> SFN.concept_values crowded_network.1 crowded_network.2
  = [P0; P0; 1.0; P0; P0; P0; P0; P0].
Proof. reflexivity. Qed.

Lemma crowded_W_values :
  SFN._W <$> SFN.concept_values crowded_network.1 crowded_network.2
  = [W0; W0; W0; 1.0; W0; W0; W0; W0].
Proof. reflexivity. Qed.

Lemma sqrt_scaled_square (c x : R) : 0 <= c → 0 <= x → sqrt (c * (x * x)) = sqrt c * x.
Proof.
  intros Hc Hx. rewrite sqrt_mult by nra. by rewrite sqrt_square.
Qed.

Lemma INR_8 : INR 8 = 8.
Proof. simpl. lra. Qed.
Lemma INR_7 : INR 7 = 7.
Proof. simpl. lra. Qed.

Lemma population_deviation_P (a b : R) :
  a <= b → population_deviation [a; a; b; a; a; a; a; a] = sqrt (7 / 64) * (b - a).
Proof.
  intros Hab. unfold population_deviation.
  cbn [fmap list_fmap length Rsum foldl]. rewrite INR_8.
  rewrite <- sqrt_scaled_square by lra. f_equal. field.
Qed.

Lemma population_deviation_W (a b : R) :
  a <= b → population_deviation [a; a; a; b; a; a; a; a] = sqrt (7 / 64) * (b - a).
Proof.
  intros Hab. unfold population_deviation.
  cbn [fmap list_fmap length Rsum foldl]. rewrite INR_8.
  rewrite <- sqrt_scaled_square by lra. f_equal. field.
Qed.

Lemma spec_deviation_P (a b : R) :
  a <= b → spec_deviation a [a; a; b; a; a; a; a; a] = sqrt (1 / 8) * (b - a).
Proof.
  intros Hab. unfold spec_deviation.
  cbn [fmap list_fmap length Rsum foldl Nat.sub]. rewrite INR_8, INR_7.
  replace (a - a) with 0 by ring. rewrite Rabs_R0, (Rabs_pos_eq (b - a)) by lra.
  rewrite <- sqrt_scaled_square by lra. f_equal. field.
Qed.
Lemma spec_deviation_W (a b : R) :
  a <= b → spec_deviation a [a; a; a; b; a; a; a; a] = sqrt (1 / 8) * (b - a).
Proof.
  intros Hab. unfold spec_deviation.
  cbn [fmap list_fmap length Rsum foldl Nat.sub]. rewrite INR_8, INR_7.
  replace (a - a) with 0 by ring. rewrite Rabs_R0, (Rabs_pos_eq (b - a)) by lra.
  rewrite <- sqrt_scaled_square by lra. f_equal. field.
Qed.

Lemma crowded_product :
  (SFN.check_uncertainty crowded_network.1 crowded_network.2).2 = 7 / 64 * ((1 - P0) * (1 - W0)).
Proof.
  pose proof P0_bounds. pose proof W0_bounds.
  rewrite check_uncertainty_unfold, crowded_P_values, crowded_W_values. cbv zeta.
  rewrite decide_False by (simpl; lia). cbn [snd].
  rewrite population_deviation_P, population_deviation_W by lra.
  replace (1.0) with 1 by lra.
  transitivity (sqrt (7/64) * sqrt (7/64) * ((1 - P0) * (1 - W0))); [ring|].
  rewrite sqrt_sqrt by lra. done.
Qed.

Lemma crowded_spec_product :
  (spec_uncertainty_check (SFN._P <$> SFN.concept_values crowded_network.1 crowded_network.2)
                          (SFN._W <$> SFN.concept_values crowded_network.1 crowded_network.2)).2
  = 1 / 8 * ((1 - P0) * (1 - W0)).
Proof.
  pose proof P0_bounds. pose proof W0_bounds.
  rewrite crowded_P_values, crowded_W_values. unfold spec_uncertainty_check. cbn [snd].
  rewrite spec_deviation_P, spec_deviation_W by lra.
  replace (1.0) with 1 by lra.
  transitivity (sqrt (1/8) * sqrt (1/8) * ((1 - P0) * (1 - W0))); [ring|].
  rewrite sqrt_sqrt by lra. done.
Qed.

(** The same on a network built through the constructor and
    [add_concept]: the verdict is True although the product is below the
    bound, and the product is not the one of the sample deviations. *)
Lemma check_uncertainty_crowded :
  (SFN.check_uncertainty crowded_network.1 crowded_network.2).1 = true ∧
  ¬ ((SFN.check_uncertainty crowded_network.1 crowded_network.2).2 >= SFN.UNCERTAINTY_BOUND) ∧
  (SFN.check_uncertainty crowded_network.1 crowded_network.2).2 ≠
  (spec_uncertainty_check (SFN._P <$> SFN.concept_values crowded_network.1 crowded_network.2)
                          (SFN._W <$> SFN.concept_values crowded_network.1 crowded_network.2)).2.
Proof.
  pose proof P0_bounds. pose proof W0_bounds.
  pose proof crowded_product as Hp. pose proof crowded_spec_product as Hs.
  assert (HX : 0.086 < (1 - P0) * (1 - W0) < 0.087) by nra.
  split_and!.
  - rewrite check_uncertainty_large in Hp |- * by (simpl; lia).
    cbv zeta in Hp |- *. cbn [fst snd] in Hp |- *.
    apply bool_decide_eq_true. right. rewrite Hp. lra.
  - rewrite Hp. unfold SFN.UNCERTAINTY_BOUND. lra.
  - rewrite Hp, Hs. lra.
Qed.

(** The Power and Wisdom values of the two-concept network, which lie on
    both sides of their equilibrium constants. *)
Lemma pair_P_values :
  SFN._P <$> SFN.concept_values pair_network.1 pair_network.2 = [0.65; 0.8].
Proof. reflexivity. Qed.

Lemma pair_W_values :
  SFN._W <$> SFN.concept_values pair_network.1 pair_network.2 = [0.6; 0.8].
Proof. reflexivity. Qed.

Lemma INR_2 : INR 2 = 2.
Proof. simpl. lra. Qed.

Lemma population_deviation_pair (a b : R) :
  a <= b → population_deviation [a; b] = (b - a) / 2.
Proof.
  intros Hab. unfold population_deviation.
  cbn [fmap list_fmap length Rsum foldl]. rewrite INR_2.
  rewrite <- (sqrt_square ((b - a) / 2)) by lra. f_equal. field.
Qed.

Lemma spec_deviation_pair (eq a b : R) :
  a <= eq → eq <= (a + b) / 2 →
  spec_deviation eq [a; b] = sqrt 2 * ((a + b) / 2 - eq).
Proof.
  intros Ha Hb. unfold spec_deviation.
  cbn [fmap list_fmap length Rsum foldl Nat.sub]. rewrite INR_2.
  change (INR 1) with 1.
  rewrite (Rabs_left1 (a - eq)), (Rabs_pos_eq (b - eq)) by lra.
  rewrite <- sqrt_scaled_square by lra. f_equal. field.
Qed.

Lemma pair_product :
  (SFN.check_uncertainty pair_network.1 pair_network.2).2 = 0.0075.
Proof.
  rewrite check_uncertainty_large by (simpl; lia). cbv zeta. cbn [snd].
  rewrite pair_P_values, pair_W_values, !population_deviation_pair by lra. lra.
Qed.

Lemma pair_spec_product :
  (spec_uncertainty_check (SFN._P <$> SFN.concept_values pair_network.1 pair_network.2)
                          (SFN._W <$> SFN.concept_values pair_network.1 pair_network.2)).2
  = 2 * ((0.725 - P0) * (0.7 - W0)).
Proof.
  pose proof P0_bounds. pose proof W0_bounds.
  rewrite pair_P_values, pair_W_values. unfold spec_uncertainty_check. cbn [snd].
  rewrite !spec_deviation_pair by lra.
  transitivity (sqrt 2 * sqrt 2 * (((0.65 + 0.8) / 2 - P0) * ((0.6 + 0.8) / 2 - W0))); [ring|].
  rewrite sqrt_sqrt by lra. lra.
Qed.

(** C2, as stated, fails on the two-concept network: the code returns
    (True, 0.0075), a satisfied verdict with a product below the bound,
    where the sample deviations of |s - equilibrium| multiply to less
    than 0.0001. *)
Lemma check_uncertainty_differs_from_spec :
  (2 <= length (SFN.concept_values pair_network.1 pair_network.2))%nat ∧
  (SFN.check_uncertainty pair_network.1 pair_network.2).1 = true ∧
  ¬ ((SFN.check_uncertainty pair_network.1 pair_network.2).2 >= SFN.UNCERTAINTY_BOUND) ∧
  (SFN.check_uncertainty pair_network.1 pair_network.2).2 ≠
  (spec_uncertainty_check (SFN._P <$> SFN.concept_values pair_network.1 pair_network.2)
                          (SFN._W <$> SFN.concept_values pair_network.1 pair_network.2)).2.
Proof.
  pose proof P0_bounds. pose proof W0_bounds.
  pose proof pair_product as Hp. pose proof pair_spec_product as Hs.
  split_and!.
  - simpl. lia.
  - rewrite check_uncertainty_large in Hp |- * by (simpl; lia).
    cbv zeta in Hp |- *. cbn [fst snd] in Hp |- *.
    apply bool_decide_eq_true. right. rewrite Hp. lra.
  - rewrite Hp. unfold SFN.UNCERTAINTY_BOUND. lra.
  - rewrite Hp, Hs. nra.
Qed.

(** In-range populations: each deviation is at most 1/2, so the product
    never reaches the bound. *)
Lemma foldl_Rplus (a : R) (xs : list R) : foldl Rplus a xs = a + Rsum xs.
Proof.
  unfold Rsum. revert a. induction xs as [|x xs IH]; intros a; simpl; [lra|].
  rewrite (IH (a + x)), (IH (0 + x)). lra.
Qed.

Lemma Rsum_cons (x : R) (xs : list R) : Rsum (x :: xs) = x + Rsum xs.
Proof. unfold Rsum at 1. simpl. rewrite foldl_Rplus. lra. Qed.

Lemma sum_squares_shift (xs : list R) (m c : R) :
  Rsum ((λ x, (x - m)^2) <$> xs)
  = Rsum ((λ x, (x - c)^2) <$> xs)
    - 2 * (m - c) * (Rsum xs - INR (length xs) * c)
    + INR (length xs) * (m - c)^2.
Proof.
  induction xs as [|x xs IH].
  - unfold Rsum. simpl. ring.
  - rewrite !fmap_cons, !Rsum_cons, IH. cbn [length]. rewrite S_INR. ring.
Qed.

Lemma sum_squares_half_bound (xs : list R) :
  Forall (λ x, 0 <= x <= 1) xs →
  Rsum ((λ x, (x - 1/2)^2) <$> xs) <= INR (length xs) / 4.
Proof.
  induction 1 as [|x xs Hx Hxs IH].
  - unfold Rsum. simpl. lra.
  - rewrite fmap_cons, Rsum_cons. cbn [length]. rewrite S_INR. nra.
Qed.

Lemma population_deviation_in_range (xs : list R) :
  xs ≠ [] → Forall (λ x, 0 <= x <= 1) xs → population_deviation xs <= 1 / 2.
Proof.
  intros Hne Hrange. unfold population_deviation. cbv zeta.
  assert (Hn : 0 < INR (length xs)).
  { apply lt_0_INR. destruct xs; [done | simpl; lia]. }
  set (n := INR (length xs)) in *. set (m := Rsum xs / n).
  replace (1 / 2) with (sqrt (1 / 2 * (1 / 2))) by (rewrite sqrt_square; lra).
  apply sqrt_le_1_alt.
  apply (Rmult_le_reg_r n); [done|].
  unfold Rdiv at 1. rewrite Rmult_assoc, Rinv_l, Rmult_1_r by lra.
  rewrite (sum_squares_shift xs m (1/2)). fold n.
  pose proof (sum_squares_half_bound xs Hrange) as Hhalf. fold n in Hhalf.
  assert (Hm : Rsum xs = n * m) by (unfold m; field; lra).
  rewrite Hm.
  assert (Hq : 0 <= n * (m - 1 / 2)^2) by (apply Rmult_le_pos; [lra | apply pow2_ge_0]).
  set (S := Rsum _) in *.
  replace (S - 2 * (m - 1 / 2) * (n * m - n * (1 / 2)) + n * (m - 1 / 2)^2)
    with (S - n * (m - 1 / 2)^2) by ring.
  lra.
Qed.

Lemma Rsum_squares_nonneg (xs : list R) (m : R) :
  0 <= Rsum ((λ x, (x - m)^2) <$> xs).
Proof.
  induction xs as [|x xs IH].
  - unfold Rsum. simpl. lra.
  - rewrite fmap_cons, Rsum_cons. pose proof (pow2_ge_0 (x - m)). lra.
Qed.

(** The square of the deviation is the mean of the squares minus the
    square of the mean. *)
Lemma population_deviation_square (xs : list R) :
  xs ≠ [] →
  population_deviation xs ^ 2
  = Rsum ((λ x, x ^ 2) <$> xs) / INR (length xs) - (Rsum xs / INR (length xs)) ^ 2.
Proof.
  intros Hne. unfold population_deviation. cbv zeta.
  assert (Hn : 0 < INR (length xs)).
  { apply lt_0_INR. destruct xs; [done | simpl; lia]. }
  set (n := INR (length xs)) in *. set (m := Rsum xs / n).
  assert (Hsum : Rsum ((λ x, (x - m)^2) <$> xs) = Rsum ((λ x, x ^ 2) <$> xs) - n * m ^ 2).
  { rewrite (sum_squares_shift xs m 0). fold n.
    assert (Hm : Rsum xs = n * m) by (unfold m; field; lra).
    rewrite Hm.
    replace (Rsum ((λ x, (x - 0) ^ 2) <$> xs)) with (Rsum ((λ x, x ^ 2) <$> xs)).
    - ring.
    - f_equal. apply list_fmap_ext. intros _ x _. ring. }
  assert (Hpos : 0 <= Rsum ((λ x, (x - m)^2) <$> xs) / n).
  { apply Rmult_le_pos; [apply Rsum_squares_nonneg | left; by apply Rinv_0_lt_compat]. }
  replace (sqrt (Rsum ((λ x, (x - m)^2) <$> xs) / n) ^ 2)
    with (sqrt (Rsum ((λ x, (x - m)^2) <$> xs) / n) *
          sqrt (Rsum ((λ x, (x - m)^2) <$> xs) / n)) by ring.
  rewrite sqrt_sqrt by done. rewrite Hsum. field. lra.
Qed.

(** With Power and Wisdom values in [0, 1] the verdict is True exactly
    through the low-variance clause. *)
Lemma check_uncertainty_in_range (net : SFN.SemanticFlowNetwork)
    (h : list SFN.SemanticConcept) :
  (2 <= length (SFN.concept_values net h))%nat →
  Forall (λ c, 0 <= SFN._P c <= 1 ∧ 0 <= SFN._W c <= 1) (SFN.concept_values net h) →
  (SFN.check_uncertainty net h).2 <= 1 / 4 ∧
  ((SFN.check_uncertainty net h).1 = true ↔ (SFN.check_uncertainty net h).2 < 0.01).
Proof.
  intros Hlen Hrange. rewrite check_uncertainty_large by done. cbv zeta. cbn [fst snd].
  set (cs := SFN.concept_values net h) in *.
  assert (Hne : cs ≠ []) by (destruct cs; [simpl in Hlen; lia | done]).
  assert (HP : population_deviation (SFN._P <$> cs) <= 1 / 2).
  { apply population_deviation_in_range; [by destruct cs|].
    apply Forall_fmap. eapply Forall_impl; [exact Hrange|]. by intros c [? ?]. }
  assert (HW : population_deviation (SFN._W <$> cs) <= 1 / 2).
  { apply population_deviation_in_range; [by destruct cs|].
    apply Forall_fmap. eapply Forall_impl; [exact Hrange|]. by intros c [? ?]. }
  pose proof (population_deviation_nonneg (SFN._P <$> cs)).
  pose proof (population_deviation_nonneg (SFN._W <$> cs)).
  assert (Hprod : population_deviation (SFN._P <$> cs) * population_deviation (SFN._W <$> cs)
                  <= 1 / 4) by nra.
  split; [done|]. rewrite bool_decide_eq_true. unfold SFN.UNCERTAINTY_BOUND.
  split; [intros [?|?]; lra | by right].
Qed.

(** C3, as the code has it. With fewer than two members the check returns
    the pair (True, 1.0): a satisfied verdict with a placeholder product. *)
Theorem check_uncertainty_small_population (net : SFN.SemanticFlowNetwork)
    (h : list SFN.SemanticConcept) :
  (length (SFN.concept_values net h) < 2)%nat →
  SFN.check_uncertainty net h = (true, 1.0).
Proof.
  intros Hlen. rewrite check_uncertainty_unfold. cbv zeta.
  by rewrite decide_True by (rewrite length_fmap; lia).
Qed.

Lemma check_uncertainty_small_population_witness :
  (length (SFN.concept_values empty_network []) < 2)%nat ∧
  SFN.check_uncertainty empty_network [] = (true, 1.0).
Proof.
  assert (Hlen : (length (SFN.concept_values empty_network []) < 2)%nat).
  { simpl. lia. }
  split; [exact Hlen | exact (check_uncertainty_small_population empty_network [] Hlen)].
Defined.

(** C3, as stated, fails: on an empty population the result is the
    verdict True with product 1.0, no status of its own. *)
Lemma check_uncertainty_empty_is_verdict :
  (SFN.check_uncertainty empty_network []).1 = true ∧
  (SFN.check_uncertainty empty_network []).2 = 1.
Proof. split; [reflexivity | simpl; lra]. Qed.

(** ** Temporal evolution of the semantic flow network *)

(** The history grows by one state per iteration and keeps its head. *)
Section sfn_evolve.
Variable net : SFN.SemanticFlowNetwork.
Variable dt : R.

Lemma evolve_loop_length (remaining step : nat) (state : SFN.SFNState)
    (h : list SFN.SemanticConcept) (history : list SFN.SFNState) :
  length (SFN.evolve_loop net dt step remaining state h history).1
  = (length history + remaining)%nat.
Proof.
  revert step state h history.
  induction remaining as [|n IH]; intros step state h history; simpl.
  - lia.
  - destruct (SFN.evolve_step net dt step state h) as [state' h'].
    rewrite IH, length_app. simpl. lia.
Qed.

Lemma evolve_loop_head (remaining step : nat) (state s0 : SFN.SFNState)
    (h : list SFN.SemanticConcept) (history : list SFN.SFNState) :
  head history = Some s0 →
  head (SFN.evolve_loop net dt step remaining state h history).1 = Some s0.
Proof.
  revert step state h history.
  induction remaining as [|n IH]; intros step state h history Hhead; simpl.
  - done.
  - destruct (SFN.evolve_step net dt step state h) as [state' h'].
    apply IH. destruct history; [done | exact Hhead].
Qed.

Lemma evolve_shape (steps : Z) (h : list SFN.SemanticConcept) :
  length (SFN.evolve net steps dt h).1 = (Z.to_nat steps + 1)%nat ∧
  head (SFN.evolve net steps dt h).1 = Some (SFN.get_state net h).
Proof.
  unfold SFN.evolve. cbv zeta. split.
  - rewrite evolve_loop_length. simpl. lia.
  - by apply evolve_loop_head.
Qed.

Lemma evolve_zero_steps (h : list SFN.SemanticConcept) :
  SFN.evolve net 0 dt h = ([SFN.get_state net h], h).
Proof. reflexivity. Qed.
End sfn_evolve.














(** ** Temporal evolution of the cognitive mind *)

Lemma Exec_bind_unfold {A B : Type} (m : Mind.Exec A) (f : A → Mind.Exec B)
    (h : list Mind.SemanticNeuron) :
  (m ≫= f) h = match m h with
               | (Mind.Returned a, h') => f a h'
               | (Mind.Raised e, h') => (Mind.Raised e, h')
               end.
Proof. reflexivity. Qed.

Lemma py_div_returns (x y : R) (h : list Mind.SemanticNeuron) :
  y ≠ 0 → Mind.py_div x y h = (Mind.Returned (x / y), h).
Proof. intros Hy. unfold Mind.py_div. by rewrite decide_False. Qed.

Lemma py_div_raises (x y : R) (h : list Mind.SemanticNeuron) :
  y = 0 → Mind.py_div x y h = (Mind.Raised Mind.ZeroDivisionError, h).
Proof. intros Hy. unfold Mind.py_div. by rewrite decide_True. Qed.

Lemma clamp01_range (x : R) : 0 <= Rmax 0 (Rmin 1 x) <= 1.
Proof.
  split; [apply Rmax_l|].
  apply Rmax_lub; [lra | apply Rmin_l].
Qed.

Lemma love_in_range_off_pole (rs : list nat) (h : list Mind.SemanticNeuron) :
  love_in_range rs h → love_off_pole rs h.
Proof.
  intros Hinv r n Hr Hn. specialize (Hinv r n Hr Hn). unfold Mind.K_JL. lra.
Qed.

Lemma neurons_in_unit_love (rs : list nat) (h : list Mind.SemanticNeuron) :
  neurons_in_unit rs h → love_in_range rs h.
Proof. intros Hunit r n Hr Hn. by destruct (Hunit r n Hr Hn). Qed.

Lemma neurons_in_unit_alter (rs : list nat) (h : list Mind.SemanticNeuron)
    (f : Mind.SemanticNeuron → Mind.SemanticNeuron) (r : nat) :
  (∀ n, neuron_in_unit n → neuron_in_unit (f n)) →
  neurons_in_unit rs h → neurons_in_unit rs (alter f r h).
Proof.
  intros Hf Hunit r' n' Hin Hlook. rewrite list_lookup_alter in Hlook.
  case_decide as Heq.
  - subst. destruct (h !! r') as [n|] eqn:Hr; simplify_eq/=. apply Hf. by apply (Hunit r' n).
  - by apply (Hunit r' n').
Qed.

(** Updating through a list of references applies the update once per
    occurrence. *)
Lemma foldl_alter_lookup {A : Type} (f : A → A) (rs : list nat) (h : list A) (r : nat) :
  foldl (λ h r, alter f r h) h rs !! r = Nat.iter (count_occ Nat.eq_dec rs r) f <$> h !! r.
Proof.
  revert h. induction rs as [|r' rs IH]; intros h.
  - simpl. by destruct (h !! r).
  - cbn [foldl count_occ]. rewrite IH, list_lookup_alter.
    destruct (Nat.eq_dec r' r) as [->|Hne].
    + rewrite decide_True by done. destruct (h !! r) as [x|]; [|done].
      cbn [fmap option_fmap option_map]. f_equal. symmetry. apply Nat.iter_succ_r.
    + by rewrite decide_False.
Qed.

(** [AnchorAttractor.apply] never raises: it updates the neurons one by
    one. *)
Lemma apply_unfold (a : Mind.AnchorAttractor) (todo : list nat) (dt : R)
    (h : list Mind.SemanticNeuron) :
  Mind.apply a todo dt h
  = (Mind.Returned (), foldl (λ h r, alter (Mind.attract a dt) r h) h todo).
Proof.
  unfold Mind.apply. revert h. induction todo as [|r todo IH]; intros h; [done|].
  cbn [Mind.for_each foldl]. rewrite Exec_bind_unfold. cbn [Mind.modify]. apply IH.
Qed.


Section mind_evolve.
Variable mind : Mind.LJPWCognitiveMind.
Variable dt : R.

(** The body of the inner loop on the neuron behind [r]: at the pole of
    the saturation term it raises and leaves the store as it was. *)
Lemma evolve_neuron_raises (k1 k2 k3 : R) (r : nat) (h : list Mind.SemanticNeuron)
    (n : Mind.SemanticNeuron) :
  h !! r = Some n → Mind.K_JL + Mind.L n = 0 →
  Mind.evolve_neuron k1 k2 k3 dt r h = (Mind.Raised Mind.ZeroDivisionError, h).
Proof.
  intros Hr Hz. unfold Mind.evolve_neuron.
  rewrite Exec_bind_unfold. cbn [Mind.get_heap]. rewrite Hr.
  rewrite Exec_bind_unfold. by rewrite py_div_raises.
Qed.

(** Off the pole it returns, having written four clamped coordinates to
    that neuron and nothing else. *)
Lemma evolve_neuron_returns (k1 k2 k3 : R) (r : nat) (h : list Mind.SemanticNeuron) :
  (∀ n, h !! r = Some n → Mind.K_JL + Mind.L n ≠ 0) →
  ∃ h', Mind.evolve_neuron k1 k2 k3 dt r h = (Mind.Returned (), h') ∧
        (∀ r', r' ≠ r → h' !! r' = h !! r') ∧
        (∀ n', h' !! r = Some n' → neuron_in_unit n') ∧
        (∀ n, h !! r = Some n →
           ∃ n', h' !! r = Some n' ∧ Mind.L n' = evolved_love k1 k3 dt n).
Proof.
  intros Hpole. unfold Mind.evolve_neuron.
  rewrite Exec_bind_unfold. cbn [Mind.get_heap].
  destruct (h !! r) as [n|] eqn:Hr.
  - rewrite Exec_bind_unfold.
    rewrite py_div_returns by (by apply Hpole).
    eexists. split; [reflexivity|]. split_and!.
    + intros r' Hne. rewrite list_lookup_alter. by rewrite decide_False.
    + intros n'. rewrite list_lookup_alter, decide_True by done. rewrite Hr.
      intros [= <-]. unfold neuron_in_unit. cbn. split_and!; apply clamp01_range.
    + intros n0 [= <-]. eexists. split.
      * rewrite list_lookup_alter, decide_True by done. by rewrite Hr.
      * reflexivity.
  - exists h. split_and!; [done | done | | done]. intros n'. by rewrite Hr.
Qed.



(** Off the pole the inner loop returns; it keeps the neurons off the
    pole, and every neuron it visits ends in the unit cube. *)
Lemma for_each_evolve_neuron_returns (rs : list nat) (k1 k2 k3 : R) (todo : list nat)
    (h : list Mind.SemanticNeuron) :
  todo ⊆ rs → love_off_pole rs h →
  ∃ h', Mind.for_each todo (Mind.evolve_neuron k1 k2 k3 dt) h = (Mind.Returned (), h') ∧
        love_off_pole rs h' ∧
        (∀ r, r ∉ todo → h' !! r = h !! r) ∧
        (∀ r n', r ∈ todo → h' !! r = Some n' → neuron_in_unit n') ∧
        (NoDup todo → ∀ r n, r ∈ todo → h !! r = Some n →
           ∃ n', h' !! r = Some n' ∧ Mind.L n' = evolved_love k1 k3 dt n).
Proof.
  revert h. induction todo as [|r todo IH]; intros h Hsub Hinv.
  - exists h. split_and!; try done.
    + intros r n Hr. by apply elem_of_nil in Hr.
    + intros _ r n Hr. by apply elem_of_nil in Hr.
  - cbn [Mind.for_each]. rewrite Exec_bind_unfold.
    assert (Hr : r ∈ rs) by (apply Hsub, list_elem_of_here).
    destruct (evolve_neuron_returns k1 k2 k3 r h) as (h1 & -> & Hother & Hunit & Hlove).
    { intros n Hn. by apply (Hinv r n). }
    assert (Hinv1 : love_off_pole rs h1).
    { intros r' n' Hr' Hn'. destruct (decide (r' = r)) as [->|Hne].
      - destruct (Hunit n' Hn') as (HL & _). unfold Mind.K_JL. lra.
      - rewrite Hother in Hn' by done. by apply (Hinv r' n'). }
    destruct (IH h1) as (h2 & Hrun & Hinv2 & Hother2 & Hunit2 & Hlove2); [|done|].
    { intros x Hx. apply Hsub. by apply list_elem_of_further. }
    exists h2. split_and!; [done | done | | |].
    + intros r' Hr'. apply not_elem_of_cons in Hr' as [Hne Hr'].
      rewrite Hother2 by done. by apply Hother.
    + intros r' n' Hr' Hn'. destruct (decide (r' ∈ todo)) as [Hin|Hnin].
      * by apply (Hunit2 r' n').
      * apply elem_of_cons in Hr' as [->|Hr']; [|done].
        rewrite Hother2 in Hn' by done. by apply Hunit.
    + intros Hnodup r' n Hr' Hn. apply NoDup_cons in Hnodup as [Hnotin Hnodup].
      apply elem_of_cons in Hr' as [->|Hr'].
      * rewrite Hother2 by done. by apply Hlove.
      * assert (Hne : r' ≠ r) by (intros ->; done).
        apply (Hlove2 Hnodup r' n Hr'). by rewrite Hother.
Qed.

(** One iteration of the outer loop, started off the pole, returns the
    state measured before the update: the inner loop leaves the neurons
    in the unit cube, and the anchor attractor then moves them. *)
Lemma evolve_step_returns (rs : list nat) (h : list Mind.SemanticNeuron) :
  love_off_pole rs h →
  let H := Mind.H (Mind.measure (Mind.objects h rs)) in
  ∃ h1,
    Mind.for_each rs
      (Mind.evolve_neuron (1.0 + 0.4 * H) (1.0 + 0.3 * H) (1.0 + 0.5 * H) dt) h
      = (Mind.Returned (), h1) ∧
    neurons_in_unit rs h1 ∧
    (NoDup rs → ∀ r n, r ∈ rs → h !! r = Some n →
       ∃ n', h1 !! r = Some n' ∧
             Mind.L n' = evolved_love (1.0 + 0.4 * H) (1.0 + 0.5 * H) dt n) ∧
    Mind.evolve_step mind rs dt h
      = (Mind.Returned (Mind.measure (Mind.objects h rs)),
         foldl (λ h r, alter (Mind.attract (Mind.anchor mind) dt) r h) h1 rs).
Proof.
  intros Hinv H. unfold Mind.evolve_step.
  rewrite Exec_bind_unfold. cbn [Mind.get_heap]. cbv zeta.
  rewrite Exec_bind_unfold. fold H.
  destruct (for_each_evolve_neuron_returns rs (1.0 + 0.4 * H) (1.0 + 0.3 * H)
              (1.0 + 0.5 * H) rs h) as (h1 & Hrun & _ & _ & Hunit1 & Hlove1);
    [done | done |].
  exists h1. rewrite Hrun. split_and!; [done | | done |].
  - intros r n Hr Hn. by apply (Hunit1 r n).
  - rewrite Exec_bind_unfold, apply_unfold. reflexivity.
Qed.

Hypothesis strength_dt_nonneg : 0 <= Mind.strength (Mind.anchor mind) * dt.

Lemma attract_unit (n : Mind.SemanticNeuron) :
  neuron_in_unit n → neuron_in_unit (Mind.attract (Mind.anchor mind) dt n).
Proof.
  intros (HL & HJ & HP & HW). unfold neuron_in_unit. cbn.
  set (s := Mind.strength (Mind.anchor mind)) in *.
  assert (Hone : ∀ x, 0 <= x <= 1 → 0 <= Rmin 1.0 (x + s * dt * (1.0 - x)) <= 1).
  { intros x Hx. split; [apply Rmin_glb; [lra | nra] | eapply Rle_trans; [apply Rmin_l | lra]]. }
  split_and!; by apply Hone.
Qed.

Lemma apply_unit (rs todo : list nat) (h : list Mind.SemanticNeuron) :
  neurons_in_unit rs h →
  neurons_in_unit rs (foldl (λ h r, alter (Mind.attract (Mind.anchor mind) dt) r h) h todo).
Proof.
  revert h. induction todo as [|r todo IH]; intros h Hunit; [done|].
  cbn [foldl]. apply IH. apply neurons_in_unit_alter; [apply attract_unit | done].
Qed.

Lemma evolve_step_unit (rs : list nat) (h : list Mind.SemanticNeuron) :
  love_off_pole rs h →
  ∃ h', Mind.evolve_step mind rs dt h
          = (Mind.Returned (Mind.measure (Mind.objects h rs)), h') ∧
        neurons_in_unit rs h'.
Proof.
  intros Hinv.
  destruct (evolve_step_returns rs h Hinv) as (h1 & _ & Hunit1 & _ & Hrun).
  eexists. split; [exact Hrun|]. by apply apply_unit.
Qed.

Lemma evolve_loop_returns (rs : list nat) (remaining : nat)
    (h : list Mind.SemanticNeuron) (history : list Mind.ConsciousnessState) :
  love_off_pole rs h →
  ∃ states h',
    Mind.evolve_loop mind rs dt remaining history h
      = (Mind.Returned (history ++ states), h') ∧
    length states = remaining ∧
    (remaining = 0%nat → h' = h) ∧
    (remaining ≠ 0%nat →
       head states = Some (Mind.measure (Mind.objects h rs)) ∧ neurons_in_unit rs h').
Proof.
  revert h history. induction remaining as [|n IH]; intros h history Hinv.
  - exists [], h. rewrite app_nil_r. by split_and!.
  - cbn [Mind.evolve_loop]. rewrite Exec_bind_unfold.
    destruct (evolve_step_unit rs h Hinv) as (h1 & -> & Hunit1).
    destruct (IH h1 (history ++ [Mind.measure (Mind.objects h rs)]))
      as (states & h2 & -> & Hlen & Hzero & Hnext).
    { by apply love_in_range_off_pole, neurons_in_unit_love. }
    exists (Mind.measure (Mind.objects h rs) :: states), h2.
    rewrite <- app_assoc. split_and!; try done.
    + simpl. by rewrite Hlen.
    + intros _. split; [done|].
      destruct n as [|n]; [by rewrite Hzero | by apply Hnext].
Qed.

Lemma mind_evolve_returns (steps : Z) (h : list Mind.SemanticNeuron) :
  love_off_pole (dict_values (Mind.neurons mind)) h →
  ∃ history h',
    Mind.evolve mind steps dt h = (Mind.Returned history, h') ∧
    length history = (Z.to_nat steps + 1)%nat ∧
    head history
      = Some (Mind.measure (Mind.objects h (dict_values (Mind.neurons mind)))) ∧
    last history
      = Some (Mind.measure (Mind.objects h' (dict_values (Mind.neurons mind)))) ∧
    ((steps <= 0)%Z → h' = h) ∧
    ((0 < steps)%Z → neurons_in_unit (dict_values (Mind.neurons mind)) h').
Proof.
  intros Hinv. unfold Mind.evolve. cbv zeta.
  set (rs := dict_values (Mind.neurons mind)) in *.
  rewrite Exec_bind_unfold.
  destruct (evolve_loop_returns rs (Z.to_nat steps) h [] Hinv)
    as (states & h' & -> & Hlen & Hzero & Hnext).
  rewrite Exec_bind_unfold. cbn [Mind.get_heap]. cbn [app].
  eexists _, h'. split; [reflexivity|]. split_and!.
  - rewrite length_app, Hlen. simpl. lia.
  - destruct (decide (Z.to_nat steps = 0%nat)) as [Hz|Hnz].
    + rewrite Hz in Hlen. destruct states; [|done]. simpl. by rewrite Hzero.
    + destruct (Hnext Hnz) as [Hhead _]. destruct states; [done|]. exact Hhead.
  - apply last_snoc.
  - intros Hle. apply Hzero. lia.
  - intros Hpos. apply Hnext. lia.
Qed.
End mind_evolve.


Lemma fresh_mind_love_in_range :
  love_in_range (dict_values (Mind.neurons fresh_mind.1)) fresh_mind.2.
Proof.
  pose proof L0_bounds.
  intros r n Hin Hlook.
  change (dict_values (Mind.neurons fresh_mind.1)) with [0; 1; 2; 3]%nat in Hin.
  repeat (apply elem_of_cons in Hin as [->|Hin]);
    [| | | | by apply elem_of_nil in Hin];
    cbn in Hlook; simplify_eq; cbn; lra.
Qed.

Lemma fresh_mind_off_pole :
  love_off_pole (dict_values (Mind.neurons fresh_mind.1)) fresh_mind.2.
Proof. apply love_in_range_off_pole, fresh_mind_love_in_range. Qed.





(** C5, as stated, fails for [LJPWCognitiveMind.evolve]: on a neuron
    whose Love is -0.59 the first step divides by zero, and no trajectory
    is returned. *)
Lemma evolve_raises_at_love_pole :
  0 < 0.1 ∧ (0 <= 1)%Z ∧
  Mind.evolve singular_mind.1 1 0.1 singular_mind.2
  = (Mind.Raised Mind.ZeroDivisionError, singular_mind.2).
Proof.
  split; [lra|]. split; [lia|].
  unfold Mind.evolve. cbv zeta.
  change (dict_values (Mind.neurons singular_mind.1)) with [0%nat].
  change (Z.to_nat 1) with 1%nat. cbn [Mind.evolve_loop].
  unfold Mind.evolve_step. rewrite !Exec_bind_unfold. cbn [Mind.get_heap]. cbv zeta.
  cbn [Mind.for_each]. rewrite !Exec_bind_unfold.
  by rewrite (evolve_neuron_raises 0.1 _ _ _ 0%nat singular_mind.2
                (Mind.set_L (-0.59) (Mind.new_neuron "a" LOVE)) eq_refl)
    by (cbn; unfold Mind.K_JL; lra).
Qed.

(** C5, as the code has it. For a positive dt and steps >= 0, [evolve]
    returns a trajectory of steps + 1 states whose first element is the
    measured input state, and with steps = 0 it returns that state alone
    and leaves the store as it was: in the semantic flow network for
    every store; in the cognitive mind for an anchor of non-negative
    strength (0.05 in the constructor) and neurons none of which has the
    Love value -0.59, where the division by [K_JL + L] raises. *)
Theorem evolve_trajectory
    (net : SFN.SemanticFlowNetwork) (h : list SFN.SemanticConcept)
    (mind : Mind.LJPWCognitiveMind) (hm : list Mind.SemanticNeuron)
    (steps : Z) (dt : R) :
  0 < dt → (0 <= steps)%Z →
  (length (SFN.evolve net steps dt h).1 = (Z.to_nat steps + 1)%nat ∧
   head (SFN.evolve net steps dt h).1 = Some (SFN.get_state net h) ∧
   SFN.evolve net 0 dt h = ([SFN.get_state net h], h)) ∧
  (0 <= Mind.strength (Mind.anchor mind) →
   love_off_pole (dict_values (Mind.neurons mind)) hm →
   ∃ history hm',
     Mind.evolve mind steps dt hm = (Mind.Returned history, hm') ∧
     length history = (Z.to_nat steps + 1)%nat ∧
     head history
       = Some (Mind.measure (Mind.objects hm (dict_values (Mind.neurons mind))))) ∧
  Mind.evolve mind 0 dt hm
    = (Mind.Returned [Mind.measure (Mind.objects hm (dict_values (Mind.neurons mind)))], hm).
Proof.
  intros Hdt Hsteps. split_and!.
  - apply evolve_shape.
  - apply evolve_shape.
  - apply evolve_zero_steps.
  - intros Hstrength Hinv.
    destruct (mind_evolve_returns mind dt ltac:(nra) steps hm Hinv)
      as (history & hm' & Hrun & Hlen & Hhead & _).
    by exists history, hm'.
  - reflexivity.
Qed.

Lemma evolve_trajectory_witness :
  0 < 0.1 ∧ (0 <= 10)%Z ∧
  0 <= Mind.strength (Mind.anchor fresh_mind.1) ∧
  love_off_pole (dict_values (Mind.neurons fresh_mind.1)) fresh_mind.2 ∧
  (length (SFN.evolve fresh_network.1 10 0.1 fresh_network.2).1 = (Z.to_nat 10 + 1)%nat ∧
   head (SFN.evolve fresh_network.1 10 0.1 fresh_network.2).1
     = Some (SFN.get_state fresh_network.1 fresh_network.2) ∧
   SFN.evolve fresh_network.1 0 0.1 fresh_network.2
     = ([SFN.get_state fresh_network.1 fresh_network.2], fresh_network.2)) ∧
  (∃ history hm',
     Mind.evolve fresh_mind.1 10 0.1 fresh_mind.2 = (Mind.Returned history, hm') ∧
     length history = (Z.to_nat 10 + 1)%nat ∧
     head history
       = Some (Mind.measure
                 (Mind.objects fresh_mind.2 (dict_values (Mind.neurons fresh_mind.1))))) ∧
  Mind.evolve fresh_mind.1 0 0.1 fresh_mind.2
    = (Mind.Returned
         [Mind.measure (Mind.objects fresh_mind.2 (dict_values (Mind.neurons fresh_mind.1)))],
       fresh_mind.2).
Proof.
  assert (Hdt : 0 < 0.1) by lra.
  assert (Hsteps : (0 <= 10)%Z) by lia.
  assert (Hstrength : 0 <= Mind.strength (Mind.anchor fresh_mind.1)) by (simpl; lra).
  pose proof fresh_mind_off_pole as Hinv.
  destruct (evolve_trajectory fresh_network.1 fresh_network.2 fresh_mind.1 fresh_mind.2
              10 0.1 Hdt Hsteps) as (Hsfn & Hmind & Hzero).
  exact (conj Hdt (conj Hsteps (conj Hstrength (conj Hinv
    (conj Hsfn (conj (Hmind Hstrength Hinv) Hzero)))))).
Defined.

(** ** Prediction *)

(** The search loop returns one of the stored patterns. *)
Section predict.
Variable h : list SFN.SemanticConcept.

Lemma objects_nonempty (rs : list nat) :
  rs ≠ [] → (∀ r, r ∈ rs → is_Some (h !! r)) → SFN.objects h rs ≠ [].
Proof.
  destruct rs as [|r rs]; [done|]. intros _ Hvalid.
  destruct (Hvalid r) as [c Hc]; [by apply elem_of_cons; left|].
  unfold SFN.objects. simpl. by rewrite Hc.
Qed.

Lemma prediction_is_Some (sequence : list SFN.SemanticConcept) :
  sequence ≠ [] → is_Some (SFN.prediction sequence).
Proof.
  intros Hne. unfold SFN.prediction, last_item.
  destruct (last sequence) as [s1|] eqn:Hlast.
  - destruct (second_last_item sequence); eauto.
  - apply last_None in Hlast. done.
Qed.

Lemma closest_step_Some (pred : R * R * R * R) (best : option (R * nat)) (r : nat) :
  is_Some best → is_Some (SFN.closest_step pred h best r).
Proof.
  intros [[d0 r0] ->]. destruct pred as [[[pL pJ] pP] pW].
  unfold SFN.closest_step. destruct (h !! r); [|eauto].
  case_decide; eauto.
Qed.

Lemma closest_step_from (pred : R * R * R * R) (best : option (R * nat)) (r : nat)
    (d : R) (m : nat) :
  SFN.closest_step pred h best r = Some (d, m) →
  m = r ∨ ∃ d0, best = Some (d0, m).
Proof.
  destruct pred as [[[pL pJ] pP] pW]. unfold SFN.closest_step.
  destruct (h !! r) as [known|].
  - destruct best as [[d0 r0]|].
    + case_decide; intros ?; simplify_eq; eauto.
    + intros ?; simplify_eq; eauto.
  - intros ->. eauto.
Qed.

Lemma closest_fold_Some (pred : R * R * R * R) (patterns : list nat)
    (best : option (R * nat)) :
  (∀ r, r ∈ patterns → is_Some (h !! r)) →
  is_Some best ∨ patterns ≠ [] →
  is_Some (foldl (SFN.closest_step pred h) best patterns).
Proof.
  revert best. induction patterns as [|r patterns IH]; intros best Hvalid Hstart.
  - simpl. by destruct Hstart.
  - simpl. apply IH.
    { intros r' Hr'. apply Hvalid, elem_of_cons. by right. }
    left. destruct best as [b|]; [by apply closest_step_Some|].
    destruct (Hvalid r) as [known Hknown]; [by apply elem_of_cons; left|].
    destruct pred as [[[pL pJ] pP] pW]. unfold SFN.closest_step.
    rewrite Hknown. eauto.
Qed.

Lemma closest_fold_from (pred : R * R * R * R) (patterns : list nat)
    (best : option (R * nat)) (d : R) (m : nat) :
  foldl (SFN.closest_step pred h) best patterns = Some (d, m) →
  m ∈ patterns ∨ ∃ d0, best = Some (d0, m).
Proof.
  revert best. induction patterns as [|r patterns IH]; intros best Hfold.
  - simpl in Hfold. eauto.
  - simpl in Hfold. apply IH in Hfold as [Hin|[d0 Hstep]].
    { left. apply elem_of_cons. by right. }
    apply closest_step_from in Hstep as [->|Hbest]; [|eauto].
    left. apply elem_of_cons. by left.
Qed.

Lemma closest_member (pred : R * R * R * R) (patterns : list nat) :
  patterns ≠ [] → (∀ r, r ∈ patterns → is_Some (h !! r)) →
  ∃ m, SFN.closest pred patterns h = Some m ∧ m ∈ patterns.
Proof.
  intros Hne Hvalid. unfold SFN.closest.
  destruct (closest_fold_Some pred patterns None Hvalid) as [[d m] Hfold]; [by right|].
  rewrite Hfold. exists m. split; [done|].
  apply closest_fold_from in Hfold as [Hin|[d0 ?]]; done.
Qed.
End predict.

Lemma dict_values_nonempty {V : Type} (d : list (string * V)) :
  d ≠ [] → dict_values d ≠ [].
Proof. by destruct d. Qed.

Lemma predict_result (sequence : list nat) (w : SFN.WisdomOperator)
    (h : list SFN.SemanticConcept) :
  sequence ≠ [] → SFN.known_patterns w ≠ [] →
  (∀ r, r ∈ sequence → is_Some (h !! r)) →
  (∀ r, r ∈ dict_values (SFN.known_patterns w) → is_Some (h !! r)) →
  ∃ best,
    best ∈ dict_values (SFN.known_patterns w) ∧
    SFN.predict sequence w h
      = (Some best, alter (λ c, SFN.set_W (Rmin 1.0 (SFN._W c + 0.05)) c) best h).
Proof.
  intros Hseq Hpat Hvseq Hvpat. unfold SFN.predict.
  rewrite decide_False by (intros [?|?]; done).
  destruct (prediction_is_Some (SFN.objects h sequence)) as [pred ->];
    [by apply objects_nonempty|].
  destruct (closest_member h pred (dict_values (SFN.known_patterns w)))
    as (best & -> & Hin); [by apply dict_values_nonempty | done |].
  by exists best.
Qed.

Lemma fresh_network_valid (r : nat) :
  r ∈ [0; 1; 2; 3]%nat → is_Some (fresh_network.2 !! r).
Proof.
  intros Hin.
  repeat (apply elem_of_cons in Hin as [->|Hin]); [| | | | by apply elem_of_nil in Hin];
    by eexists.
Qed.

(** C10. For a non-empty sequence and a non-empty registry, [predict]
    returns a member of the registry; in the store after the call that
    pattern's Wisdom value is min(1.0, W + 0.05), its other fields are as
    before, and every other object is as before. *)
Theorem predict_returns_member_and_raises_its_W (sequence : list nat)
    (w : SFN.WisdomOperator) (h : list SFN.SemanticConcept) :
  sequence ≠ [] → SFN.known_patterns w ≠ [] →
  (∀ r, r ∈ sequence → is_Some (h !! r)) →
  (∀ r, r ∈ dict_values (SFN.known_patterns w) → is_Some (h !! r)) →
  ∃ best before after,
    (SFN.predict sequence w h).1 = Some best ∧
    best ∈ dict_values (SFN.known_patterns w) ∧
    h !! best = Some before ∧
    (SFN.predict sequence w h).2 !! best = Some after ∧
    SFN._W after = Rmin 1.0 (SFN._W before + 0.05) ∧
    SFN.name after = SFN.name before ∧
    SFN.dimension after = SFN.dimension before ∧
    SFN.relationships after = SFN.relationships before ∧
    SFN._L after = SFN._L before ∧
    SFN._J after = SFN._J before ∧
    SFN._P after = SFN._P before ∧
    (∀ r, r ≠ best → (SFN.predict sequence w h).2 !! r = h !! r) ∧
    length (SFN.predict sequence w h).2 = length h.
Proof.
  intros Hseq Hpat Hvseq Hvpat.
  destruct (predict_result sequence w h Hseq Hpat Hvseq Hvpat) as (best & Hin & ->).
  destruct (Hvpat best Hin) as [before Hbefore].
  exists best, before, (SFN.set_W (Rmin 1.0 (SFN._W before + 0.05)) before).
  cbn [fst snd]. split_and!; try done.
  - rewrite list_lookup_alter, decide_True by done. by rewrite Hbefore.
  - intros r Hne. by rewrite list_lookup_alter_ne.
  - apply length_alter.
Qed.

Lemma predict_returns_member_and_raises_its_W_witness :
  [0%nat] ≠ [] ∧ SFN.known_patterns (SFN.wisdom fresh_network.1) ≠ [] ∧
  (∀ r, r ∈ [0%nat] → is_Some (fresh_network.2 !! r)) ∧
  (∀ r, r ∈ dict_values (SFN.known_patterns (SFN.wisdom fresh_network.1)) →
        is_Some (fresh_network.2 !! r)) ∧
  ∃ best before after,
    (SFN.predict [0%nat] (SFN.wisdom fresh_network.1) fresh_network.2).1 = Some best ∧
    best ∈ dict_values (SFN.known_patterns (SFN.wisdom fresh_network.1)) ∧
    fresh_network.2 !! best = Some before ∧
    (SFN.predict [0%nat] (SFN.wisdom fresh_network.1) fresh_network.2).2 !! best
      = Some after ∧
    SFN._W after = Rmin 1.0 (SFN._W before + 0.05) ∧
    SFN.name after = SFN.name before ∧
    SFN.dimension after = SFN.dimension before ∧
    SFN.relationships after = SFN.relationships before ∧
    SFN._L after = SFN._L before ∧
    SFN._J after = SFN._J before ∧
    SFN._P after = SFN._P before ∧
    (∀ r, r ≠ best →
          (SFN.predict [0%nat] (SFN.wisdom fresh_network.1) fresh_network.2).2 !! r
          = fresh_network.2 !! r) ∧
    length (SFN.predict [0%nat] (SFN.wisdom fresh_network.1) fresh_network.2).2
      = length fresh_network.2.
Proof.
  assert (Hseq : [0%nat] ≠ []) by done.
  assert (Hpat : SFN.known_patterns (SFN.wisdom fresh_network.1) ≠ []) by done.
  assert (Hvseq : ∀ r, r ∈ [0%nat] → is_Some (fresh_network.2 !! r)).
  { intros r Hin. apply fresh_network_valid.
    apply elem_of_cons in Hin as [->|Hin]; [|by apply elem_of_nil in Hin].
    apply elem_of_cons. by left. }
  assert (Hvpat : ∀ r, r ∈ dict_values (SFN.known_patterns (SFN.wisdom fresh_network.1)) →
                       is_Some (fresh_network.2 !! r)).
  { exact fresh_network_valid. }
  exact (conj Hseq (conj Hpat (conj Hvseq (conj Hvpat
    (predict_returns_member_and_raises_its_W [0%nat] (SFN.wisdom fresh_network.1)
       fresh_network.2 Hseq Hpat Hvseq Hvpat))))).
Defined.

(** * Properties of the operators and the network *)

(** ** The sample states are in range *)

Lemma new_concept_within (n : string) (d : Dimension) :
  axes_within 0 1 (SFN.new_concept n d).
Proof.
  pose proof L0_bounds. pose proof J0_bounds. pose proof P0_bounds. pose proof W0_bounds.
  intros d'. destruct d, d'; cbn; lra.
Qed.

Lemma fresh_network_within (r : nat) (c : SFN.SemanticConcept) :
  fresh_network.2 !! r = Some c → axes_within 0 1 c.
Proof.
  pose proof L0_bounds. pose proof J0_bounds. pose proof P0_bounds. pose proof W0_bounds.
  destruct r as [|[|[|[|r]]]]; cbn; intros [= <-]; intros d'; destruct d'; cbn; lra.
Qed.

Lemma fresh_network_objects_within (rs : list nat) (c : SFN.SemanticConcept) :
  c ∈ SFN.objects fresh_network.2 rs → axes_within 0 1 c.
Proof.
  unfold SFN.objects. intros (r & _ & Hr)%list_elem_of_omap.
  by apply (fresh_network_within r).
Qed.

Lemma fresh_network_lookup (rs : list nat) :
  rs ⊆ [0; 1; 2; 3]%nat → ∀ r, r ∈ rs → is_Some (fresh_network.2 !! r).
Proof. intros Hsub r Hr. apply fresh_network_valid. by apply Hsub. Qed.

(** ** Justice: balance and constrain *)

Lemma balance1_distance (c : SFN.SemanticConcept) :
  equilibrium_distance (SFN.balance1 c) = (1 - J0) * equilibrium_distance c.
Proof.
  pose proof J0_bounds.
  unfold equilibrium_distance, SFN.distance_from_equilibrium. cbn.
  rewrite <- (sqrt_square (1 - J0)) at 1 by lra.
  rewrite <- sqrt_mult_alt by nra. f_equal. ring.
Qed.

Lemma balance1_iter_distance (k : nat) (c : SFN.SemanticConcept) :
  equilibrium_distance (Nat.iter k SFN.balance1 c) = (1 - J0) ^ k * equilibrium_distance c.
Proof.
  induction k as [|k IH]; simpl; [lra|].
  rewrite balance1_distance, IH. ring.
Qed.

(** X1. [balance] scales the distance of a concept from the equilibrium
    point by 1 - J0 (about 0.586) for each time the concept occurs in the
    list, and leaves the concepts outside the list as they are. *)
Theorem balance_contracts (concepts : list nat) (h : list SFN.SemanticConcept)
    (r : nat) (c : SFN.SemanticConcept) :
  h !! r = Some c →
  ∃ c', SFN.balance concepts h !! r = Some c' ∧
        equilibrium_distance c'
          = (1 - J0) ^ count_occ Nat.eq_dec concepts r * equilibrium_distance c ∧
        0.58 < 1 - J0 < 0.59 ∧
        (r ∉ concepts → c' = c).
Proof.
  intros Hr. unfold SFN.balance. rewrite foldl_alter_lookup, Hr. simpl.
  eexists. split; [reflexivity|]. split_and!.
  - apply balance1_iter_distance.
  - pose proof J0_bounds. lra.
  - pose proof J0_bounds. lra.
  - intros Hnotin. rewrite (proj1 (count_occ_not_In Nat.eq_dec concepts r)); [done|].
    by rewrite <- list_elem_of_In.
Qed.

Lemma balance_contracts_witness :
  fresh_network.2 !! 0%nat = Some (SFN.set_L 1.0 (SFN.new_concept "LOVE" LOVE)) ∧
  ∃ c', SFN.balance [0; 0]%nat fresh_network.2 !! 0%nat = Some c' ∧
        equilibrium_distance c'
          = (1 - J0) ^ count_occ Nat.eq_dec [0; 0]%nat 0%nat
            * equilibrium_distance (SFN.set_L 1.0 (SFN.new_concept "LOVE" LOVE)) ∧
        0.58 < 1 - J0 < 0.59 ∧
        (0%nat ∉ [0; 0]%nat → c' = SFN.set_L 1.0 (SFN.new_concept "LOVE" LOVE)).
Proof.
  assert (Hr : fresh_network.2 !! 0%nat = Some (SFN.set_L 1.0 (SFN.new_concept "LOVE" LOVE)))
    by reflexivity.
  split; [exact Hr|].
  exact (balance_contracts [0; 0]%nat fresh_network.2 0%nat _ Hr).
Defined.

Lemma clamp_between (lo hi x : R) : lo <= hi → lo <= Rmax lo (Rmin hi x) <= hi.
Proof.
  intros Hle. split; [apply Rmax_l|].
  apply Rmax_lub; [done | apply Rmin_l].
Qed.

Lemma clamp_fixed (lo hi x : R) : lo <= x <= hi → Rmax lo (Rmin hi x) = x.
Proof. intros [Hlo Hhi]. rewrite Rmin_right by done. by rewrite Rmax_right. Qed.

(** X2. With bounds lo <= hi, [constrain] puts every coordinate into
    [lo, hi], changes nothing else, leaves a concept that is already
    inside as it is, and is idempotent. *)
Theorem constrain_clamps (lo hi : R) (c : SFN.SemanticConcept) :
  lo <= hi →
  axes_within lo hi (SFN.constrain (lo, hi) c) ∧
  SFN.name (SFN.constrain (lo, hi) c) = SFN.name c ∧
  SFN.dimension (SFN.constrain (lo, hi) c) = SFN.dimension c ∧
  SFN.relationships (SFN.constrain (lo, hi) c) = SFN.relationships c ∧
  (axes_within lo hi c → SFN.constrain (lo, hi) c = c) ∧
  SFN.constrain (lo, hi) (SFN.constrain (lo, hi) c) = SFN.constrain (lo, hi) c.
Proof.
  intros Hle. split_and!; try done.
  - intros []; cbn; by apply clamp_between.
  - intros Hin. destruct c as [n d rel l j p w]. unfold SFN.constrain. cbn.
    pose proof (Hin LOVE). pose proof (Hin JUSTICE).
    pose proof (Hin POWER). pose proof (Hin WISDOM). cbn in *.
    by rewrite !clamp_fixed.
  - destruct c as [n d rel l j p w]. unfold SFN.constrain. cbn.
    by rewrite !(clamp_fixed lo hi (Rmax lo _)) by (by apply clamp_between).
Qed.

Lemma constrain_clamps_witness :
  0.2 <= 0.8 ∧
  axes_within 0.2 0.8 (SFN.constrain (0.2, 0.8) (SFN.new_concept "a" LOVE)) ∧
  SFN.name (SFN.constrain (0.2, 0.8) (SFN.new_concept "a" LOVE))
    = SFN.name (SFN.new_concept "a" LOVE) ∧
  SFN.dimension (SFN.constrain (0.2, 0.8) (SFN.new_concept "a" LOVE))
    = SFN.dimension (SFN.new_concept "a" LOVE) ∧
  SFN.relationships (SFN.constrain (0.2, 0.8) (SFN.new_concept "a" LOVE))
    = SFN.relationships (SFN.new_concept "a" LOVE) ∧
  (axes_within 0.2 0.8 (SFN.new_concept "a" LOVE) →
   SFN.constrain (0.2, 0.8) (SFN.new_concept "a" LOVE) = SFN.new_concept "a" LOVE) ∧
  SFN.constrain (0.2, 0.8) (SFN.constrain (0.2, 0.8) (SFN.new_concept "a" LOVE))
    = SFN.constrain (0.2, 0.8) (SFN.new_concept "a" LOVE).
Proof.
  assert (Hle : 0.2 <= 0.8) by lra.
  split; [exact Hle|].
  exact (constrain_clamps 0.2 0.8 (SFN.new_concept "a" LOVE) Hle).
Defined.

(** ** Power: transform and decay *)

(** X3. [transform] sets the primary dimension; for coordinates in [0, 1]
    it keeps them there, brings the coordinate of the new dimension to at
    least P0, scales the coordinate of a different old dimension by 1 - P0
    and leaves the other coordinates as they are. *)
Theorem transform_moves_weight (to_dimension : Dimension) (c : SFN.SemanticConcept) :
  axes_within 0 1 c →
  SFN.dimension (SFN.transform to_dimension c) = to_dimension ∧
  axes_within 0 1 (SFN.transform to_dimension c) ∧
  P0 <= axis to_dimension (SFN.transform to_dimension c) ∧
  (SFN.dimension c ≠ to_dimension →
     axis (SFN.dimension c) (SFN.transform to_dimension c)
       = axis (SFN.dimension c) c * (1 - P0)) ∧
  (SFN.dimension c = to_dimension →
     axis to_dimension c <= axis to_dimension (SFN.transform to_dimension c)) ∧
  (∀ d, d ≠ SFN.dimension c → d ≠ to_dimension →
        axis d (SFN.transform to_dimension c) = axis d c).
Proof.
  intros Hin. pose proof P0_bounds.
  pose proof (Hin LOVE). pose proof (Hin JUSTICE).
  pose proof (Hin POWER). pose proof (Hin WISDOM).
  destruct c as [n old rel l j p w]. cbn in *.
  assert (Hmin : ∀ x, 0 <= x <= 1 → 0 <= Rmin 1.0 (x + P0) <= 1 ∧ P0 <= Rmin 1.0 (x + P0)).
  { intros x Hx. split_and!.
    - apply Rmin_glb; lra.
    - eapply Rle_trans; [apply Rmin_l | lra].
    - apply Rmin_glb; lra. }
  assert (Hscale : ∀ x, 0 <= x <= 1 → 0 <= x * (1 - P0) <= 1) by (intros; nra).
  assert (Hgrow : ∀ x, 0 <= x <= 1 → x <= Rmin 1.0 (x * (1 - P0) + P0)).
  { intros x Hx. apply Rmin_glb; [lra | nra]. }
  split_and!.
  - by destruct old, to_dimension.
  - intros d.
    destruct old, to_dimension, d; cbn;
      first [ apply Hmin; first [ by apply Hscale | lra ] | by apply Hscale | lra ].
  - destruct old, to_dimension; cbn; apply Hmin; first [ by apply Hscale | lra ].
  - intros Hne. destruct old, to_dimension; cbn; done.
  - intros Heq. cbn in Heq. subst. destruct to_dimension; cbn; by apply Hgrow.
  - intros d Hne1 Hne2. cbn in Hne1. destruct old, to_dimension, d; cbn; done.
Qed.

Lemma transform_moves_weight_witness :
  axes_within 0 1 (SFN.new_concept "a" LOVE) ∧
  SFN.dimension (SFN.transform POWER (SFN.new_concept "a" LOVE)) = POWER ∧
  axes_within 0 1 (SFN.transform POWER (SFN.new_concept "a" LOVE)) ∧
  P0 <= axis POWER (SFN.transform POWER (SFN.new_concept "a" LOVE)) ∧
  (SFN.dimension (SFN.new_concept "a" LOVE) ≠ POWER →
     axis (SFN.dimension (SFN.new_concept "a" LOVE))
          (SFN.transform POWER (SFN.new_concept "a" LOVE))
       = axis (SFN.dimension (SFN.new_concept "a" LOVE)) (SFN.new_concept "a" LOVE)
         * (1 - P0)) ∧
  (SFN.dimension (SFN.new_concept "a" LOVE) = POWER →
     axis POWER (SFN.new_concept "a" LOVE)
     <= axis POWER (SFN.transform POWER (SFN.new_concept "a" LOVE))) ∧
  (∀ d, d ≠ SFN.dimension (SFN.new_concept "a" LOVE) → d ≠ POWER →
        axis d (SFN.transform POWER (SFN.new_concept "a" LOVE))
        = axis d (SFN.new_concept "a" LOVE)).
Proof.
  pose proof (new_concept_within "a" LOVE) as Hin.
  split; [exact Hin|].
  exact (transform_moves_weight POWER (SFN.new_concept "a" LOVE) Hin).
Defined.

(** X4. [decay] never leaves Power below half its equilibrium; from a
    Power at or above that floor and a factor rate * (1 - H/2) in [0, 1]
    it does not raise Power.  Justice is touched only when Love is below
    its equilibrium, and then stays at or above half its equilibrium; Love,
    Wisdom, name and relationships are never touched. *)
Theorem decay_floors (rate H : R) (c : SFN.SemanticConcept) :
  0 <= rate * (1.0 - H * 0.5) <= 1 →
  P0 * 0.5 <= SFN._P (SFN.decay rate H c) ∧
  (P0 * 0.5 <= SFN._P c → SFN._P (SFN.decay rate H c) <= SFN._P c) ∧
  (SFN._P c < P0 * 0.5 → SFN._P (SFN.decay rate H c) = P0 * 0.5) ∧
  (SFN._L c < L0 → J0 * 0.5 <= SFN._J (SFN.decay rate H c)) ∧
  (¬ SFN._L c < L0 → SFN._J (SFN.decay rate H c) = SFN._J c) ∧
  SFN._L (SFN.decay rate H c) = SFN._L c ∧
  SFN._W (SFN.decay rate H c) = SFN._W c ∧
  SFN.name (SFN.decay rate H c) = SFN.name c ∧
  SFN.relationships (SFN.decay rate H c) = SFN.relationships c.
Proof.
  intros Hf. pose proof P0_bounds.
  destruct c as [n d rel l j p w]. unfold SFN.decay. cbn.
  set (ef := rate * (1.0 - H * 0.5)) in *.
  split_and!; try (case_decide; cbn; done).
  - case_decide; cbn; apply Rmax_l.
  - intros Hp. case_decide; cbn; apply Rmax_lub; nra.
  - intros Hp. case_decide; cbn; apply Rmax_left; nra.
  - intros Hl. rewrite decide_True by done. cbn. apply Rmax_l.
Qed.

Lemma decay_floors_witness :
  0 <= 0.1 * (1.0 - 0.5 * 0.5) <= 1 ∧
  P0 * 0.5 <= SFN._P (SFN.decay 0.1 0.5 (SFN.new_concept "a" LOVE)) ∧
  (P0 * 0.5 <= SFN._P (SFN.new_concept "a" LOVE) →
   SFN._P (SFN.decay 0.1 0.5 (SFN.new_concept "a" LOVE))
   <= SFN._P (SFN.new_concept "a" LOVE)) ∧
  (SFN._P (SFN.new_concept "a" LOVE) < P0 * 0.5 →
   SFN._P (SFN.decay 0.1 0.5 (SFN.new_concept "a" LOVE)) = P0 * 0.5) ∧
  (SFN._L (SFN.new_concept "a" LOVE) < L0 →
   J0 * 0.5 <= SFN._J (SFN.decay 0.1 0.5 (SFN.new_concept "a" LOVE))) ∧
  (¬ SFN._L (SFN.new_concept "a" LOVE) < L0 →
   SFN._J (SFN.decay 0.1 0.5 (SFN.new_concept "a" LOVE))
   = SFN._J (SFN.new_concept "a" LOVE)) ∧
  SFN._L (SFN.decay 0.1 0.5 (SFN.new_concept "a" LOVE)) = SFN._L (SFN.new_concept "a" LOVE) ∧
  SFN._W (SFN.decay 0.1 0.5 (SFN.new_concept "a" LOVE)) = SFN._W (SFN.new_concept "a" LOVE) ∧
  SFN.name (SFN.decay 0.1 0.5 (SFN.new_concept "a" LOVE))
    = SFN.name (SFN.new_concept "a" LOVE) ∧
  SFN.relationships (SFN.decay 0.1 0.5 (SFN.new_concept "a" LOVE))
    = SFN.relationships (SFN.new_concept "a" LOVE).
Proof.
  assert (Hf : 0 <= 0.1 * (1.0 - 0.5 * 0.5) <= 1) by lra.
  split; [exact Hf|].
  exact (decay_floors 0.1 0.5 (SFN.new_concept "a" LOVE) Hf).
Defined.

(** ** Justice: symmetrize *)

Lemma Rsum_pull (a b : R) (xs : list R) :
  Rsum ((λ s, s + a * (b - s)) <$> xs) = (1 - a) * Rsum xs + INR (length xs) * (a * b).
Proof.
  induction xs as [|x xs IH].
  - unfold Rsum. cbn. lra.
  - rewrite fmap_cons, !Rsum_cons, IH. cbn [length]. rewrite S_INR. lra.
Qed.

Lemma values_prod_map {K A B : Type} (f : A → B) (l : list (K * A)) :
  (prod_map Datatypes.id f <$> l).*2 = f <$> l.*2.
Proof. induction l as [|[k a] l IH]; [done|]. cbn. by f_equal. Qed.

(** X5. [symmetrize] keeps the names and the total strength of a
    concept's relationships and moves every strength toward their mean: its
    distance from the mean is multiplied by 1 - J0.  Nothing else of the
    concept changes. *)
Theorem symmetrize_keeps_total (concept : SFN.SemanticConcept) :
  let strengths (c : SFN.SemanticConcept) := snd <$> map_to_list (SFN.relationships c) in
  let avg := Rsum (strengths concept) / INR (size (SFN.relationships concept)) in
  let concept' := SFN.symmetrize concept in
  dom (SFN.relationships concept') = dom (SFN.relationships concept) ∧
  Rsum (strengths concept') = Rsum (strengths concept) ∧
  (∀ k s, SFN.relationships concept !! k = Some s →
          ∃ s', SFN.relationships concept' !! k = Some s' ∧
                s' - avg = (1 - J0) * (s - avg)) ∧
  SFN.coordinates concept' = SFN.coordinates concept ∧
  SFN.name concept' = SFN.name concept ∧
  SFN.dimension concept' = SFN.dimension concept.
Proof.
  cbv zeta. unfold SFN.symmetrize. case_decide as Hsize.
  - apply map_size_empty_iff in Hsize. split_and!; try done.
    intros k s. rewrite Hsize. by rewrite lookup_empty.
  - cbv zeta. set (m := SFN.relationships concept) in *.
    set (avg := Rsum (snd <$> map_to_list m) / INR (size m)).
    cbn [SFN.relationships SFN.set_relationships SFN.coordinates SFN.name SFN.dimension
         SFN._L SFN._J SFN._P SFN._W].
    split_and!; try done.
    + apply dom_fmap_L.
    + rewrite map_to_list_fmap, values_prod_map, Rsum_pull, length_fmap.
      rewrite length_map_to_list. unfold avg.
      assert (0 < INR (size m)) by (apply lt_0_INR; lia).
      set (n := INR (size m)) in *. set (S := Rsum _).
      replace (n * (J0 * (S / n))) with (J0 * S * (n * / n)) by (unfold Rdiv; ring).
      rewrite Rinv_r by lra. ring.
    + intros k s Hk. rewrite lookup_fmap, Hk. cbn. eexists. split; [done|]. ring.
Qed.

(** ** Means of bounded lists *)

Lemma Rsum_bounds (lo hi : R) (xs : list R) :
  Forall (λ x, lo <= x <= hi) xs →
  INR (length xs) * lo <= Rsum xs <= INR (length xs) * hi.
Proof.
  induction 1 as [|x xs Hx _ IH].
  - unfold Rsum. simpl. lra.
  - rewrite Rsum_cons. cbn [length]. rewrite S_INR. lra.
Qed.

Lemma mean_bounds (lo hi : R) (xs : list R) :
  xs ≠ [] → Forall (λ x, lo <= x <= hi) xs →
  lo <= Rsum xs / INR (length xs) <= hi.
Proof.
  intros Hne Hxs.
  assert (Hn : 0 < INR (length xs)).
  { apply lt_0_INR. destruct xs; [done | simpl; lia]. }
  pose proof (Rsum_bounds lo hi xs Hxs) as [Hlo Hhi].
  split.
  - apply (Rmult_le_reg_r (INR (length xs))); [done|].
    unfold Rdiv. rewrite Rmult_assoc, Rinv_l by lra. lra.
  - apply (Rmult_le_reg_r (INR (length xs))); [done|].
    unfold Rdiv. rewrite Rmult_assoc, Rinv_l by lra. lra.
Qed.

Lemma objects_valid (h : list SFN.SemanticConcept) (rs : list nat) :
  (∀ r, r ∈ rs → is_Some (h !! r)) → length (SFN.objects h rs) = length rs.
Proof.
  induction rs as [|r rs IH]; intros Hvalid; [done|].
  destruct (Hvalid r) as [c Hc]; [by apply elem_of_cons; left|].
  unfold SFN.objects in *. cbn [omap list_omap]. rewrite Hc. cbn [length].
  rewrite IH; [done|]. intros r' Hr'. apply Hvalid. by apply elem_of_cons; right.
Qed.

Lemma objects_elem_of (h : list SFN.SemanticConcept) (rs : list nat) (c : SFN.SemanticConcept) :
  c ∈ SFN.objects h rs ↔ ∃ r, r ∈ rs ∧ h !! r = Some c.
Proof. unfold SFN.objects. apply list_elem_of_omap. Qed.

(** ** Justice: verify *)

Lemma alignment_range (claim e : SFN.SemanticConcept) :
  axes_within 0 1 claim → axes_within 0 1 e → 0 <= SFN.alignment claim e <= 1.
Proof.
  intros Hc He. unfold SFN.alignment. cbv zeta.
  pose proof (Hc LOVE). pose proof (Hc JUSTICE). pose proof (Hc POWER). pose proof (Hc WISDOM).
  pose proof (He LOVE). pose proof (He JUSTICE). pose proof (He POWER). pose proof (He WISDOM).
  cbn in *.
  assert (Habs : ∀ a b, 0 <= a <= 1 → 0 <= b <= 1 → 0 <= 1 - Rabs (a - b) <= 1).
  { intros a b Ha Hb. pose proof (Rabs_pos (a - b)).
    assert (Rabs (a - b) <= 1) by (apply Rabs_le; lra). lra. }
  pose proof (Habs (SFN._L claim) (SFN._L e)).
  pose proof (Habs (SFN._J claim) (SFN._J e)).
  pose proof (Habs (SFN._P claim) (SFN._P e)).
  pose proof (Habs (SFN._W claim) (SFN._W e)).
  lra.
Qed.

Lemma alignment_same (claim e : SFN.SemanticConcept) :
  SFN.coordinates e = SFN.coordinates claim → SFN.alignment claim e = 1.
Proof.
  unfold SFN.coordinates, SFN.alignment. intros [= -> -> -> ->]. cbv zeta.
  rewrite !Rminus_diag, Rabs_R0. lra.
Qed.

(** X6. [verify] on a claim and non-empty evidence with coordinates in
    [0, 1]: the confidence lies in [0, 1]; the claim is verified exactly
    when the confidence reaches J0; the only change of the store is the
    claim's Justice, raised by 0.1 (at most to 1.0) when it is verified;
    evidence that has the claim's coordinates verifies it with
    confidence 1. *)
Theorem verify_confidence (claim : nat) (evidence : list nat)
    (h : list SFN.SemanticConcept) (c : SFN.SemanticConcept) :
  h !! claim = Some c → evidence ≠ [] →
  (∀ r, r ∈ evidence → is_Some (h !! r)) →
  axes_within 0 1 c →
  (∀ e, e ∈ SFN.objects h evidence → axes_within 0 1 e) →
  let result := SFN.verify claim evidence h in
  let is_verified := result.1.1 in
  let confidence := result.1.2 in
  0 <= confidence <= 1 ∧
  (is_verified = true ↔ J0 <= confidence) ∧
  (∀ r, r ≠ claim → result.2 !! r = h !! r) ∧
  result.2 !! claim
    = Some (if is_verified then SFN.set_J (Rmin 1.0 (SFN._J c + 0.1)) c else c) ∧
  ((∀ e, e ∈ SFN.objects h evidence → SFN.coordinates e = SFN.coordinates c) →
   is_verified = true ∧ confidence = 1).
Proof.
  intros Hc Hne Hvalid Hcin Hein. unfold SFN.verify. rewrite Hc.
  destruct evidence as [|e0 evidence]; [done|].
  set (ev := e0 :: evidence) in *. cbv zeta.
  set (alignments := SFN.alignment c <$> SFN.objects h ev).
  set (confidence := Rsum alignments / INR (length alignments)).
  assert (Hane : alignments ≠ []).
  { unfold alignments. intros Hnil. apply fmap_nil_inv in Hnil.
    by apply (objects_nonempty h ev) in Hnil. }
  assert (Hconf : 0 <= confidence <= 1).
  { apply mean_bounds; [done|]. unfold alignments. apply Forall_fmap, Forall_forall.
    intros e He. apply alignment_range; auto. }
  cbn [fst snd]. split_and!; try apply Hconf.
  - rewrite bool_decide_eq_true. split; lra.
  - intros r Hr. case_bool_decide; [|done].
    rewrite list_lookup_alter. by rewrite decide_False.
  - case_bool_decide; [|done].
    rewrite list_lookup_alter, decide_True by done. by rewrite Hc.
  - intros Hsame.
    assert (confidence = 1) as ->.
    { assert (1 <= confidence <= 1); [|lra].
      apply mean_bounds; [done|]. unfold alignments. apply Forall_fmap, Forall_forall.
      intros e He. cbn. rewrite alignment_same by auto. lra. }
    split; [|done]. apply bool_decide_eq_true. pose proof J0_bounds. lra.
Qed.

Lemma verify_confidence_witness :
  fresh_network.2 !! 0%nat = Some (SFN.set_L 1.0 (SFN.new_concept "LOVE" LOVE)) ∧
  [1; 2]%nat ≠ [] ∧
  (∀ r, r ∈ [1; 2]%nat → is_Some (fresh_network.2 !! r)) ∧
  axes_within 0 1 (SFN.set_L 1.0 (SFN.new_concept "LOVE" LOVE)) ∧
  (∀ e, e ∈ SFN.objects fresh_network.2 [1; 2]%nat → axes_within 0 1 e) ∧
  let c := SFN.set_L 1.0 (SFN.new_concept "LOVE" LOVE) in
  let result := SFN.verify 0%nat [1; 2]%nat fresh_network.2 in
  let is_verified := result.1.1 in
  let confidence := result.1.2 in
  0 <= confidence <= 1 ∧
  (is_verified = true ↔ J0 <= confidence) ∧
  (∀ r, r ≠ 0%nat → result.2 !! r = fresh_network.2 !! r) ∧
  result.2 !! 0%nat
    = Some (if is_verified then SFN.set_J (Rmin 1.0 (SFN._J c + 0.1)) c else c) ∧
  ((∀ e, e ∈ SFN.objects fresh_network.2 [1; 2]%nat →
         SFN.coordinates e = SFN.coordinates c) →
   is_verified = true ∧ confidence = 1).
Proof.
  assert (Hc : fresh_network.2 !! 0%nat = Some (SFN.set_L 1.0 (SFN.new_concept "LOVE" LOVE)))
    by reflexivity.
  assert (Hne : [1; 2]%nat ≠ []) by discriminate.
  assert (Hvalid : ∀ r, r ∈ [1; 2]%nat → is_Some (fresh_network.2 !! r)).
  { apply fresh_network_lookup. intros x Hx.
    repeat (apply elem_of_cons in Hx as [->|Hx]); [| |by apply elem_of_nil in Hx];
      repeat constructor. }
  pose proof (fresh_network_within 0%nat _ Hc) as Hcin.
  pose proof (fresh_network_objects_within [1; 2]%nat) as Hein.
  split_and!; [exact Hc | exact Hne | exact Hvalid | exact Hcin | exact Hein |].
  exact (verify_confidence 0%nat [1; 2]%nat fresh_network.2 _ Hc Hne Hvalid Hcin Hein).
Defined.

(** ** Dicts: assignment and lookup *)

Lemma dict_lookup_set_eq {V : Type} (d : list (string * V)) (k : string) (v : V) :
  dict_lookup (dict_set d k v) k = Some v.
Proof.
  induction d as [|[k' v'] d IH]; cbn [dict_set dict_lookup].
  - by rewrite String.eqb_refl.
  - destruct (String.eqb k' k) eqn:E; cbn [dict_lookup].
    + by rewrite String.eqb_refl.
    + by rewrite E.
Qed.

Lemma dict_lookup_set_ne {V : Type} (d : list (string * V)) (k k' : string) (v : V) :
  k' ≠ k → dict_lookup (dict_set d k v) k' = dict_lookup d k'.
Proof.
  intros Hne. induction d as [|[k0 v0] d IH]; cbn [dict_set dict_lookup].
  - destruct (String.eqb k k') eqn:E; [|done].
    apply String.eqb_eq in E. by subst.
  - destruct (String.eqb k0 k) eqn:E; cbn [dict_lookup].
    + apply String.eqb_eq in E. subst k0.
      destruct (String.eqb k k') eqn:E'; [|done].
      apply String.eqb_eq in E'. by subst.
    + by rewrite IH.
Qed.

Lemma dict_set_length {V : Type} (d : list (string * V)) (k : string) (v : V) :
  length (dict_set d k v)
  = match dict_lookup d k with Some _ => length d | None => S (length d) end.
Proof.
  induction d as [|[k0 v0] d IH]; cbn [dict_set dict_lookup]; [done|].
  destruct (String.eqb k0 k); cbn [length]; [done|].
  rewrite IH. by destruct (dict_lookup d k).
Qed.

Lemma dict_lookup_values {V : Type} (d : list (string * V)) (k : string) (v : V) :
  dict_lookup d k = Some v → v ∈ dict_values d.
Proof.
  unfold dict_values. induction d as [|[k0 v0] d IH]; cbn [dict_lookup]; [done|].
  destruct (String.eqb k0 k); intros Hv; cbn.
  - simplify_eq. by apply elem_of_cons; left.
  - apply elem_of_cons; right. auto.
Qed.

(** ** The network's dicts: add_concept *)

(** X7. [add_concept(name, dimension)] allocates a new concept with the
    constructor's coordinates, leaves every older object as it is, and binds
    the name to the new object in both [concepts] and the Wisdom operator's
    [known_patterns]; other names keep their binding.  The concept count
    grows by one for a new name and stays for a name that was bound
    before (the older object is then no longer reachable by name). *)
Theorem add_concept_binds (n : string) (d : Dimension) (net : SFN.SemanticFlowNetwork)
    (h : list SFN.SemanticConcept) :
  let result := SFN.add_concept n d net h in
  let concept := result.1.1 in
  let net' := result.1.2 in
  let h' := result.2 in
  h' !! concept = Some (SFN.new_concept n d) ∧
  h !! concept = None ∧
  (∀ r c, h !! r = Some c → h' !! r = Some c) ∧
  dict_lookup (SFN.concepts net') n = Some concept ∧
  dict_lookup (SFN.known_patterns (SFN.wisdom net')) n = Some concept ∧
  (∀ k, k ≠ n →
     dict_lookup (SFN.concepts net') k = dict_lookup (SFN.concepts net) k ∧
     dict_lookup (SFN.known_patterns (SFN.wisdom net')) k
       = dict_lookup (SFN.known_patterns (SFN.wisdom net)) k) ∧
  length (SFN.concepts net')
    = match dict_lookup (SFN.concepts net) n with
      | Some _ => length (SFN.concepts net)
      | None => S (length (SFN.concepts net))
      end.
Proof.
  unfold SFN.add_concept, SFN.alloc. cbv zeta. cbn [fst snd SFN.concepts SFN.wisdom].
  assert (Hnew : (h ++ [SFN.new_concept n d]) !! length h = Some (SFN.new_concept n d)).
  { rewrite lookup_app_r by lia. by rewrite Nat.sub_diag. }
  assert (Hname : SFN.name (SFN.new_concept n d) = n) by (by destruct d).
  unfold SFN.learn. rewrite Hnew, Hname. cbn [SFN.known_patterns].
  split_and!.
  - done.
  - apply lookup_ge_None. lia.
  - intros r c Hr. by apply lookup_app_l_Some.
  - apply dict_lookup_set_eq.
  - apply dict_lookup_set_eq.
  - intros k Hk. by rewrite !dict_lookup_set_ne.
  - apply dict_set_length.
Qed.

(** ** Wisdom: recognize *)

Lemma similarity_pos (concept known : SFN.SemanticConcept) :
  0.5 <= SFN.similarity concept known.
Proof.
  unfold SFN.similarity. cbv zeta. case_decide; [|lra].
  set (m := (size _ `max` (size _ `max` 1))%nat).
  assert (0 < INR m) by (apply lt_0_INR; lia).
  pose proof (pos_INR (size (dom (SFN.relationships concept) ∩ dom (SFN.relationships known)))).
  assert (0 <= 0.5 * INR (size (dom (SFN.relationships concept) ∩ dom (SFN.relationships known))) / INR m).
  { apply Rmult_le_pos; [lra|]. apply Rlt_le, Rinv_0_lt_compat. done. }
  lra.
Qed.

Section recognize.
Variable h : list SFN.SemanticConcept.
Variable c : SFN.SemanticConcept.

Lemma recognize_step_inv (seen : list nat) (best : option nat * R) (r : nat) :
  recognize_inv h c seen best → recognize_inv h c (seen ++ [r]) (SFN.recognize_step c h best r).
Proof.
  destruct best as [[b|] s]; unfold recognize_inv, SFN.recognize_step; cbn [fst snd].
  - intros (Hb & kb & Hkb & Hdim & -> & Hmax).
    destruct (h !! r) as [known|] eqn:Hr.
    + case_decide as Hd.
      * case_decide as Hs; cbn [fst snd].
        -- split; [apply elem_of_app; right; by apply list_elem_of_singleton|].
           exists known. split_and!; try done.
           intros r' k' [Hin|Hin%list_elem_of_singleton]%elem_of_app Hk' Hd'.
           ++ specialize (Hmax r' k' Hin Hk' Hd'). lra.
           ++ subst. rewrite Hr in Hk'. simplify_eq. lra.
        -- split; [apply elem_of_app; by left|].
           exists kb. split_and!; try done.
           intros r' k' [Hin|Hin%list_elem_of_singleton]%elem_of_app Hk' Hd'.
           ++ by apply (Hmax r' k').
           ++ subst. rewrite Hr in Hk'. simplify_eq. lra.
      * cbn [fst snd]. split; [apply elem_of_app; by left|].
        exists kb. split_and!; try done.
        intros r' k' [Hin|Hin%list_elem_of_singleton]%elem_of_app Hk' Hd'.
        -- by apply (Hmax r' k').
        -- subst. rewrite Hr in Hk'. by simplify_eq.
    + cbn [fst snd]. split; [apply elem_of_app; by left|].
      exists kb. split_and!; try done.
      intros r' k' [Hin|Hin%list_elem_of_singleton]%elem_of_app Hk' Hd'.
      * by apply (Hmax r' k').
      * subst. rewrite Hr in Hk'. by simplify_eq.
  - intros [-> Hnone].
    destruct (h !! r) as [known|] eqn:Hr.
    + case_decide as Hd.
      * pose proof (similarity_pos c known).
        rewrite decide_True by lra. cbn [fst snd].
        split; [apply elem_of_app; right; by apply list_elem_of_singleton|].
        exists known. split_and!; try done.
        intros r' k' [Hin|Hin%list_elem_of_singleton]%elem_of_app Hk' Hd'.
        -- by destruct (Hnone r' k' Hin Hk').
        -- subst. rewrite Hr in Hk'. simplify_eq. lra.
      * cbn [fst snd]. split; [done|].
        intros r' k' [Hin|Hin%list_elem_of_singleton]%elem_of_app Hk'.
        -- by apply (Hnone r' k').
        -- subst. rewrite Hr in Hk'. by simplify_eq.
    + cbn [fst snd]. split; [done|].
      intros r' k' [Hin|Hin%list_elem_of_singleton]%elem_of_app Hk'.
      * by apply (Hnone r' k').
      * subst. rewrite Hr in Hk'. by simplify_eq.
Qed.

Lemma recognize_loop_inv (rs seen : list nat) (best : option nat * R) :
  recognize_inv h c seen best →
  recognize_inv h c (seen ++ rs) (foldl (SFN.recognize_step c h) best rs).
Proof.
  revert seen best. induction rs as [|r rs IH]; intros seen best Hinv; cbn [foldl].
  - by rewrite app_nil_r.
  - replace (seen ++ r :: rs) with ((seen ++ [r]) ++ rs) by (by rewrite <- app_assoc).
    apply IH. by apply recognize_step_inv.
Qed.

End recognize.

(** X8. [recognize] returns a known pattern of the concept's dimension whose
    similarity to the concept is the largest among the known patterns of
    that dimension, and returns None exactly when no known pattern has the
    concept's dimension. *)
Theorem recognize_finds_best (concept : nat) (w : SFN.WisdomOperator)
    (h : list SFN.SemanticConcept) (c : SFN.SemanticConcept) :
  h !! concept = Some c →
  match SFN.recognize concept w h with
  | None =>
      ∀ r k, r ∈ dict_values (SFN.known_patterns w) → h !! r = Some k →
             SFN.dimension k ≠ SFN.dimension c
  | Some b =>
      b ∈ dict_values (SFN.known_patterns w) ∧
      ∃ kb, h !! b = Some kb ∧ SFN.dimension kb = SFN.dimension c ∧
            ∀ r k, r ∈ dict_values (SFN.known_patterns w) → h !! r = Some k →
                   SFN.dimension k = SFN.dimension c →
                   SFN.similarity c k <= SFN.similarity c kb
  end.
Proof.
  intros Hc. unfold SFN.recognize. rewrite Hc.
  pose proof (recognize_loop_inv h c (dict_values (SFN.known_patterns w)) [] (None, 0.0)) as Hinv.
  rewrite app_nil_l in Hinv. unfold recognize_inv in Hinv.
  destruct (foldl _ _ _) as [[b|] s]; cbn [fst snd] in *.
  - destruct Hinv as (Hb & kb & Hkb & Hdim & _ & Hmax).
    { split; [done|]. intros r k Hr. by apply elem_of_nil in Hr. }
    split; [done|]. exists kb. split_and!; try done. intros r k Hr Hk Hd. by apply (Hmax r k).
  - destruct Hinv as [_ Hnone].
    { split; [done|]. intros r k Hr. by apply elem_of_nil in Hr. }
    intros r k Hr Hk Hd. by apply (Hnone r k).
Qed.

Lemma recognize_finds_best_witness :
  fresh_network.2 !! 0%nat = Some (SFN.set_L 1.0 (SFN.new_concept "LOVE" LOVE)) ∧
  let c := SFN.set_L 1.0 (SFN.new_concept "LOVE" LOVE) in
  let w := SFN.wisdom fresh_network.1 in
  match SFN.recognize 0%nat w fresh_network.2 with
  | None =>
      ∀ r k, r ∈ dict_values (SFN.known_patterns w) → fresh_network.2 !! r = Some k →
             SFN.dimension k ≠ SFN.dimension c
  | Some b =>
      b ∈ dict_values (SFN.known_patterns w) ∧
      ∃ kb, fresh_network.2 !! b = Some kb ∧ SFN.dimension kb = SFN.dimension c ∧
            ∀ r k, r ∈ dict_values (SFN.known_patterns w) →
                   fresh_network.2 !! r = Some k →
                   SFN.dimension k = SFN.dimension c →
                   SFN.similarity c k <= SFN.similarity c kb
  end.
Proof.
  assert (Hc : fresh_network.2 !! 0%nat = Some (SFN.set_L 1.0 (SFN.new_concept "LOVE" LOVE)))
    by reflexivity.
  split; [exact Hc|].
  exact (recognize_finds_best 0%nat (SFN.wisdom fresh_network.1) fresh_network.2 _ Hc).
Defined.

(** ** Love: bind, and Wisdom: integrate *)

Lemma axis_mean_range (d : Dimension) (cs : list SFN.SemanticConcept) (n : nat) :
  cs ≠ [] → length cs = n → (∀ c, c ∈ cs → axes_within 0 1 c) →
  0 <= Rsum (axis d <$> cs) / INR n <= 1.
Proof.
  intros Hne <- Hin. rewrite <- (length_fmap (axis d)).
  apply mean_bounds.
  - intros Hnil. by apply fmap_nil_inv in Hnil.
  - apply Forall_fmap, Forall_forall. intros c Hc. apply (Hin c Hc d).
Qed.

Lemma inherit_dom1 (c : SFN.SemanticConcept) (m : gmap string R) (k : string) :
  k ∈ dom (SFN.inherit m c) ↔ k ∈ dom m ∨ k ∈ dom (SFN.relationships c).
Proof.
  unfold SFN.inherit. rewrite !elem_of_dom, lookup_union_with.
  destruct (m !! k), (SFN.relationships c !! k); cbn; split; intros H;
    first [ by eauto | by destruct H as [[]|[]] ].
Qed.

Lemma inherit_dom (cs : list SFN.SemanticConcept) (m : gmap string R) (k : string) :
  k ∈ dom (foldl SFN.inherit m cs)
  ↔ k ∈ dom m ∨ ∃ c, c ∈ cs ∧ k ∈ dom (SFN.relationships c).
Proof.
  revert m. induction cs as [|c cs IH]; intros m; cbn [foldl].
  - split; [by left|]. intros [?|(c & Hc & _)]; [done|]. by apply elem_of_nil in Hc.
  - rewrite IH, inherit_dom1.
    split.
    + intros [[?|?]|(c' & Hc' & Hk)]; [by left| |].
      * right. exists c. split; [apply list_elem_of_here | done].
      * right. exists c'. split; [by apply list_elem_of_further | done].
    + intros [?|(c' & [->|Hc']%elem_of_cons & Hk)].
      * by left; left.
      * by left; right.
      * right. by exists c'.
Qed.

(** X9. [bind] on a non-empty list allocates one new concept and leaves
    the store otherwise unchanged.  The new concept has dimension LOVE; its
    relationships carry exactly the names found in the relationships of the
    inputs; for inputs with coordinates in [0, 1] its coordinates are in
    [0, 1] and its Love is at least the mean Love of the inputs. *)
Theorem bind_unifies (concepts : list nat) (h : list SFN.SemanticConcept) :
  concepts ≠ [] → (∀ r, r ∈ concepts → is_Some (h !! r)) →
  ∃ unified,
    SFN.bind concepts h = (SFN.Returned (length h), h ++ [unified]) ∧
    SFN.dimension unified = LOVE ∧
    (∀ k, k ∈ dom (SFN.relationships unified)
          ↔ ∃ c, c ∈ SFN.objects h concepts ∧ k ∈ dom (SFN.relationships c)) ∧
    ((∀ c, c ∈ SFN.objects h concepts → axes_within 0 1 c) →
     axes_within 0 1 unified ∧
     Rsum (SFN._L <$> SFN.objects h concepts) / INR (length concepts) <= SFN._L unified).
Proof.
  intros Hne Hvalid. unfold SFN.bind.
  destruct concepts as [|r0 rs]; [done|]. set (concepts := r0 :: rs) in *.
  cbv zeta. unfold SFN.alloc. eexists. split; [reflexivity|].
  cbn [SFN.dimension SFN.relationships SFN.set_relationships SFN.set_W SFN.set_P SFN.set_J
       SFN.set_L SFN.new_concept SFN._L SFN._J SFN._P SFN._W SFN.name].
  split_and!; [done| |].
  - intros k. rewrite inherit_dom. rewrite dom_empty. split.
    + intros [H|H]; [by apply elem_of_empty in H | done].
    + by right.
  - intros Hin.
    assert (Hcs : SFN.objects h concepts ≠ []) by (by apply objects_nonempty).
    pose proof (objects_valid h concepts Hvalid) as Hlen.
    pose proof (axis_mean_range LOVE _ _ Hcs Hlen Hin) as HL.
    pose proof (axis_mean_range JUSTICE _ _ Hcs Hlen Hin) as HJ.
    pose proof (axis_mean_range POWER _ _ Hcs Hlen Hin) as HP.
    pose proof (axis_mean_range WISDOM _ _ Hcs Hlen Hin) as HW.
    change (axis LOVE) with SFN._L in HL. change (axis JUSTICE) with SFN._J in HJ.
    change (axis POWER) with SFN._P in HP. change (axis WISDOM) with SFN._W in HW.
    assert (Hk : COUPLING_item "L_to_W" = 1.5) by reflexivity. rewrite Hk.
    split.
    + intros []; unfold axis; cbn [SFN._L SFN._J SFN._P SFN._W]; try done.
      split; [apply Rmin_glb; lra | eapply Rle_trans; [apply Rmin_l | lra]].
    + apply Rmin_glb; lra.
Qed.

Lemma bind_unifies_witness :
  [0; 1]%nat ≠ [] ∧
  (∀ r, r ∈ [0; 1]%nat → is_Some (fresh_network.2 !! r)) ∧
  ∃ unified,
    SFN.bind [0; 1]%nat fresh_network.2
      = (SFN.Returned (length fresh_network.2), fresh_network.2 ++ [unified]) ∧
    SFN.dimension unified = LOVE ∧
    (∀ k, k ∈ dom (SFN.relationships unified)
          ↔ ∃ c, c ∈ SFN.objects fresh_network.2 [0; 1]%nat ∧
                 k ∈ dom (SFN.relationships c)) ∧
    ((∀ c, c ∈ SFN.objects fresh_network.2 [0; 1]%nat → axes_within 0 1 c) →
     axes_within 0 1 unified ∧
     Rsum (SFN._L <$> SFN.objects fresh_network.2 [0; 1]%nat) / INR (length [0; 1]%nat)
     <= SFN._L unified).
Proof.
  assert (Hne : [0; 1]%nat ≠ []) by discriminate.
  assert (Hvalid : ∀ r, r ∈ [0; 1]%nat → is_Some (fresh_network.2 !! r)).
  { apply fresh_network_lookup. intros x Hx.
    repeat (apply elem_of_cons in Hx as [->|Hx]); [| |by apply elem_of_nil in Hx];
      repeat constructor. }
  split_and!; [exact Hne | exact Hvalid |].
  exact (bind_unifies [0; 1]%nat fresh_network.2 Hne Hvalid).
Defined.

(** X10. [integrate] on a non-empty list allocates one new concept of
    dimension WISDOM, leaves the store otherwise unchanged and makes the
    Wisdom operator learn it under its name; other learnt names keep
    their binding.  For inputs with coordinates in [0, 1] the synthesis
    has coordinates in [0, 1] and a Wisdom at least the mean Wisdom of the
    inputs. *)
Theorem integrate_learns (concepts : list nat) (w : SFN.WisdomOperator)
    (h : list SFN.SemanticConcept) :
  concepts ≠ [] → (∀ r, r ∈ concepts → is_Some (h !! r)) →
  ∃ synthesis w',
    SFN.integrate concepts w h = (SFN.Returned (length h), w', h ++ [synthesis]) ∧
    SFN.dimension synthesis = WISDOM ∧
    SFN.relationships synthesis = ∅ ∧
    dict_lookup (SFN.known_patterns w') (SFN.name synthesis) = Some (length h) ∧
    (∀ k, k ≠ SFN.name synthesis →
          dict_lookup (SFN.known_patterns w') k = dict_lookup (SFN.known_patterns w) k) ∧
    ((∀ c, c ∈ SFN.objects h concepts → axes_within 0 1 c) →
     axes_within 0 1 synthesis ∧
     Rsum (SFN._W <$> SFN.objects h concepts) / INR (length concepts) <= SFN._W synthesis).
Proof.
  intros Hne Hvalid. unfold SFN.integrate.
  destruct concepts as [|r0 rs]; [done|]. set (concepts := r0 :: rs) in *.
  cbv zeta. unfold SFN.alloc. eexists _, _. split; [reflexivity|].
  unfold SFN.learn. rewrite lookup_app_r by lia. rewrite Nat.sub_diag. cbn [lookup list_lookup].
  cbn [SFN.dimension SFN.relationships SFN.set_relationships SFN.set_W SFN.set_P SFN.set_J
       SFN.set_L SFN.new_concept SFN._L SFN._J SFN._P SFN._W SFN.name SFN.known_patterns].
  split_and!; [done|done| | |].
  - apply dict_lookup_set_eq.
  - intros k Hk. by apply dict_lookup_set_ne.
  - intros Hin.
    assert (Hcs : SFN.objects h concepts ≠ []) by (by apply objects_nonempty).
    pose proof (objects_valid h concepts Hvalid) as Hlen.
    pose proof (axis_mean_range LOVE _ _ Hcs Hlen Hin) as HL.
    pose proof (axis_mean_range JUSTICE _ _ Hcs Hlen Hin) as HJ.
    pose proof (axis_mean_range POWER _ _ Hcs Hlen Hin) as HP.
    pose proof (axis_mean_range WISDOM _ _ Hcs Hlen Hin) as HW.
    change (axis LOVE) with SFN._L in HL. change (axis JUSTICE) with SFN._J in HJ.
    change (axis POWER) with SFN._P in HP. change (axis WISDOM) with SFN._W in HW.
    assert (Hk : COUPLING_item "W_to_L" = 1.3) by reflexivity. rewrite Hk.
    split.
    + intros []; unfold axis; cbn [SFN._L SFN._J SFN._P SFN._W]; try done.
      split; [apply Rmin_glb; lra | eapply Rle_trans; [apply Rmin_l | lra]].
    + apply Rmin_glb; lra.
Qed.

Lemma integrate_learns_witness :
  [0; 1]%nat ≠ [] ∧
  (∀ r, r ∈ [0; 1]%nat → is_Some (fresh_network.2 !! r)) ∧
  let w := SFN.wisdom fresh_network.1 in
  ∃ synthesis w',
    SFN.integrate [0; 1]%nat w fresh_network.2
      = (SFN.Returned (length fresh_network.2), w', fresh_network.2 ++ [synthesis]) ∧
    SFN.dimension synthesis = WISDOM ∧
    SFN.relationships synthesis = ∅ ∧
    dict_lookup (SFN.known_patterns w') (SFN.name synthesis)
      = Some (length fresh_network.2) ∧
    (∀ k, k ≠ SFN.name synthesis →
          dict_lookup (SFN.known_patterns w') k = dict_lookup (SFN.known_patterns w) k) ∧
    ((∀ c, c ∈ SFN.objects fresh_network.2 [0; 1]%nat → axes_within 0 1 c) →
     axes_within 0 1 synthesis ∧
     Rsum (SFN._W <$> SFN.objects fresh_network.2 [0; 1]%nat) / INR (length [0; 1]%nat)
     <= SFN._W synthesis).
Proof.
  assert (Hne : [0; 1]%nat ≠ []) by discriminate.
  assert (Hvalid : ∀ r, r ∈ [0; 1]%nat → is_Some (fresh_network.2 !! r)).
  { apply fresh_network_lookup. intros x Hx.
    repeat (apply elem_of_cons in Hx as [->|Hx]); [| |by apply elem_of_nil in Hx];
      repeat constructor. }
  split_and!; [exact Hne | exact Hvalid |].
  exact (integrate_learns [0; 1]%nat (SFN.wisdom fresh_network.1) fresh_network.2 Hne Hvalid).
Defined.

(** ** The network: process *)

Lemma foldl_alter_length {A : Type} (f : A → A) (rs : list nat) (h : list A) :
  length (foldl (λ h r, alter f r h) h rs) = length h.
Proof.
  revert h. induction rs as [|r rs IH]; intros h; cbn [foldl]; [done|].
  by rewrite IH, length_alter.
Qed.

Lemma bind_returns (concepts : list nat) (h : list SFN.SemanticConcept) :
  concepts ≠ [] →
  ∃ unified, SFN.bind concepts h = (SFN.Returned (length h), h ++ [unified]).
Proof.
  intros Hne. unfold SFN.bind. destruct concepts; [done|].
  cbv zeta. unfold SFN.alloc. by eexists.
Qed.

Lemma integrate_returns (concepts : list nat) (w : SFN.WisdomOperator)
    (h : list SFN.SemanticConcept) :
  concepts ≠ [] →
  ∃ synthesis w',
    SFN.integrate concepts w h = (SFN.Returned (length h), w', h ++ [synthesis]) ∧
    SFN.dimension synthesis = WISDOM ∧
    dict_lookup (SFN.known_patterns w') (SFN.name synthesis) = Some (length h).
Proof.
  intros Hne. unfold SFN.integrate. destruct concepts as [|r0 rs]; [done|].
  cbv zeta. unfold SFN.alloc. eexists _, _. split; [reflexivity|].
  unfold SFN.learn. rewrite lookup_app_r by lia. rewrite Nat.sub_diag. cbn [lookup list_lookup].
  split; [done|]. apply dict_lookup_set_eq.
Qed.

Lemma omap_nil_inv {A B : Type} (f : A → option B) (l : list A) :
  omap f l = [] → ∀ x, x ∈ l → f x = None.
Proof.
  induction l as [|a l IH]; intros Hnil x Hx; [by apply elem_of_nil in Hx|].
  cbn [omap list_omap] in Hnil. destruct (f a) eqn:Ha; [done|].
  apply elem_of_cons in Hx as [->|Hx]; auto.
Qed.

(** X11. [process] raises only the ValueError for unknown input, exactly
    when none of the given names is a key of [concepts], and then changes
    neither the network nor the store.  Otherwise it returns: the output
    is a new object of dimension WISDOM, learnt by the Wisdom operator
    under its name; the [concepts] dict is unchanged; the reported state
    carries the output's coordinates, their harmony and the phase computed
    from them, and the unchanged concept count. *)
Theorem process_outcome (input_concepts : list string) (net : SFN.SemanticFlowNetwork)
    (h : list SFN.SemanticConcept) :
  match SFN.process input_concepts net h with
  | (SFN.Raised e, net', h') =>
      e = SFN.ValueError "No known concepts in input" ∧ net' = net ∧ h' = h ∧
      ∀ n, n ∈ input_concepts → dict_lookup (SFN.concepts net) n = None
  | (SFN.Returned (output, state), net', h') =>
      (∃ n, n ∈ input_concepts ∧ is_Some (dict_lookup (SFN.concepts net) n)) ∧
      SFN.concepts net' = SFN.concepts net ∧
      h !! output = None ∧
      (∃ o, h' !! output = Some o ∧
            SFN.dimension o = WISDOM ∧
            dict_lookup (SFN.known_patterns (SFN.wisdom net')) (SFN.name o) = Some output ∧
            (SFN.L state, SFN.J state, SFN.P state, SFN.W state) = SFN.coordinates o) ∧
      SFN.H state = SFN.harmony (SFN.L state) (SFN.J state) (SFN.P state) (SFN.W state) ∧
      SFN.phase state = SFN.determine_phase (SFN.H state) (SFN.L state) ∧
      SFN.concept_count state = length (SFN.concepts net)
  end.
Proof.
  unfold SFN.process. cbv zeta.
  destruct (omap (dict_lookup (SFN.concepts net)) input_concepts) as [|first rest] eqn:Hfound.
  { cbv beta iota. split_and!; try done. by apply omap_nil_inv. }
  set (found := first :: rest) in *.
  assert (Hknown : ∃ n, n ∈ input_concepts ∧ is_Some (dict_lookup (SFN.concepts net) n)).
  { assert (first ∈ omap (dict_lookup (SFN.concepts net)) input_concepts) as Hin
      by (rewrite Hfound; apply list_elem_of_here).
    apply list_elem_of_omap in Hin as (n & Hn & Hlook). exists n. by rewrite Hlook. }
  set (h1 := foldl (λ h c, alter (SFN.execute "processed") c h) h found).
  assert (Hlen1 : length h1 = length h) by apply foldl_alter_length.
  set (ws := (λ c, default c (SFN.recognize c (SFN.wisdom net) h1)) <$> found).
  assert (∃ L_emergent h2,
            (if decide (1 < length ws)%nat then SFN.bind ws h1
             else (SFN.Returned (default first (head ws)), h1))
            = (SFN.Returned L_emergent, h2) ∧ (length h <= length h2)%nat)
    as (L_emergent & h2 & -> & Hlen2).
  { case_decide as Hws.
    - destruct (bind_returns ws h1) as [u ->]; [by unfold ws, found|].
      eexists _, _. split; [done|]. rewrite length_app. lia.
    - eexists _, _. split; [done|]. lia. }
  cbv beta iota.
  set (h3 := SFN.balance found h2).
  assert (Hlen3 : length h3 = length h2) by apply foldl_alter_length.
  destruct (integrate_returns (L_emergent :: found) (SFN.wisdom net) h3)
    as (synthesis & w' & -> & Hdim & Hlearnt); [done|].
  cbv beta iota.
  rewrite lookup_app_r by lia. rewrite Nat.sub_diag. cbn [lookup list_lookup from_option].
  unfold SFN.coordinates. cbv beta iota.
  cbn [SFN.concepts SFN.wisdom SFN.L SFN.J SFN.P SFN.W SFN.H SFN.phase SFN.concept_count].
  split_and!; try done.
  - apply lookup_ge_None. lia.
  - exists synthesis. split_and!; try done.
    rewrite lookup_app_r by lia. by rewrite Nat.sub_diag.
Qed.

(** X12. After [process([name])] on a known name the concept is still
    stored under that key, but it is no longer called by it: [execute]
    appended [":processed"] to its name, raised its Power by a tenth of
    P0 (at most to 1.0), and [balance] then pulled its coordinates toward
    equilibrium. *)
Theorem process_renames_concept (n : string) (net : SFN.SemanticFlowNetwork)
    (h : list SFN.SemanticConcept) (r : nat) (c : SFN.SemanticConcept) :
  dict_lookup (SFN.concepts net) n = Some r → h !! r = Some c →
  ∃ result net' h',
    SFN.process [n] net h = (SFN.Returned result, net', h') ∧
    dict_lookup (SFN.concepts net') n = Some r ∧
    h' !! r = Some (SFN.balance1 (SFN.execute "processed" c)) ∧
    SFN.name (SFN.balance1 (SFN.execute "processed" c)) = (SFN.name c ++ ":processed")%string.
Proof.
  intros Hn Hr. unfold SFN.process. cbv zeta. cbn [omap list_omap]. rewrite Hn.
  cbn [foldl fmap list_fmap length]. rewrite decide_False by lia.
  unfold SFN.balance. cbn [foldl].
  set (h1 := alter (SFN.execute "processed") r h).
  set (out := default r (head [default r (SFN.recognize r (SFN.wisdom net) h1)])).
  set (h3 := alter SFN.balance1 r h1).
  destruct (integrate_returns [out; r] (SFN.wisdom net) h3)
    as (synthesis & w' & -> & Hdim & Hlearnt); [done|].
  cbv beta iota.
  rewrite lookup_app_r by lia. rewrite Nat.sub_diag. cbn [lookup list_lookup from_option].
  destruct (SFN.coordinates synthesis) as [[[L J] P] W].
  eexists _, _, _. split; [reflexivity|]. cbn [SFN.concepts].
  split_and!; [done| |done].
  assert (Hh3 : h3 !! r = Some (SFN.balance1 (SFN.execute "processed" c))).
  { unfold h3, h1. rewrite !list_lookup_alter, !decide_True by done. by rewrite Hr. }
  by apply lookup_app_l_Some.
Qed.

Lemma process_renames_concept_witness :
  dict_lookup (SFN.concepts fresh_network.1) "LOVE" = Some 0%nat ∧
  fresh_network.2 !! 0%nat = Some (SFN.set_L 1.0 (SFN.new_concept "LOVE" LOVE)) ∧
  let c := SFN.set_L 1.0 (SFN.new_concept "LOVE" LOVE) in
  ∃ result net' h',
    SFN.process ["LOVE"%string] fresh_network.1 fresh_network.2
      = (SFN.Returned result, net', h') ∧
    dict_lookup (SFN.concepts net') "LOVE" = Some 0%nat ∧
    h' !! 0%nat = Some (SFN.balance1 (SFN.execute "processed" c)) ∧
    SFN.name (SFN.balance1 (SFN.execute "processed" c))
      = (SFN.name c ++ ":processed")%string.
Proof.
  assert (Hn : dict_lookup (SFN.concepts fresh_network.1) "LOVE" = Some 0%nat)
    by reflexivity.
  assert (Hc : fresh_network.2 !! 0%nat = Some (SFN.set_L 1.0 (SFN.new_concept "LOVE" LOVE)))
    by reflexivity.
  split_and!; [exact Hn | exact Hc |].
  exact (process_renames_concept "LOVE" fresh_network.1 fresh_network.2 0%nat _ Hn Hc).
Defined.

(** ** Love: resonate *)

Lemma COUPLING_get_range (k : string) : 0.5 <= dict_get COUPLING k 1.0 <= 1.5.
Proof.
  unfold COUPLING. cbn [dict_get].
  repeat match goal with
  | |- context [String.eqb ?a ?b] => destruct (String.eqb a b)
  end; lra.
Qed.

Lemma foldl_step_rel {A C : Type} (Rel : A → A → Prop) (step : list A → C → list A)
    (xs : list C) (r : nat) :
  (∀ a, Rel a a) → (∀ a b c, Rel a b → Rel b c → Rel a c) →
  (∀ h x a, h !! r = Some a → ∃ b, step h x !! r = Some b ∧ Rel a b) →
  ∀ h a, h !! r = Some a → ∃ b, foldl step h xs !! r = Some b ∧ Rel a b.
Proof.
  intros Hrefl Htrans Hstep. induction xs as [|x xs IH]; intros h a Ha; cbn [foldl].
  - by exists a.
  - destruct (Hstep h x a Ha) as (b & Hb & Hab).
    destruct (IH _ _ Hb) as (c & Hc & Hbc). exists c. split; [done|]. by eapply Htrans.
Qed.

Lemma foldl_lookup_unchanged {A C : Type} (step : list A → C → list A)
    (xs : list C) (r : nat) :
  (∀ h x, x ∈ xs → step h x !! r = h !! r) →
  ∀ h, foldl step h xs !! r = h !! r.
Proof.
  induction xs as [|x xs IH]; intros Hstep h; cbn [foldl]; [done|].
  rewrite IH.
  - apply Hstep, list_elem_of_here.
  - intros h' x' Hx'. apply Hstep. by apply list_elem_of_further.
Qed.

Lemma only_love_moves_refl (a : SFN.SemanticConcept) : only_love_moves a a.
Proof. unfold only_love_moves. split_and!; try done; intros; lra. Qed.

Lemma only_love_moves_trans (a b c : SFN.SemanticConcept) :
  only_love_moves a b → only_love_moves b c → only_love_moves a c.
Proof.
  unfold only_love_moves.
  intros (HL1 & HU1 & ? & ? & ? & ? & ?) (HL2 & HU2 & ? & ? & ? & ? & ?).
  split_and!; try congruence.
  - intros Ha. specialize (HL1 Ha).
    assert (SFN._L b <= 1) as Hb by lra. specialize (HL2 Hb). lra.
  - intros Ha. specialize (HU1 Ha).
    destruct (Rle_or_lt (SFN._L b) 1) as [Hb|Hb].
    + specialize (HL2 Hb). lra.
    + specialize (HU2 Hb). lra.
Qed.

Lemma resonate_pair_moves (H : R) (target source : SFN.SemanticConcept) :
  -2 <= H → only_love_moves source (SFN.resonate_pair H target source).
Proof.
  intros HH. unfold only_love_moves, SFN.resonate_pair. cbv zeta.
  cbn [SFN._L SFN._J SFN._P SFN._W SFN.name SFN.dimension SFN.set_L SFN.set_relationships].
  pose proof (COUPLING_get_range
                (SFN.coupling_key (SFN.dimension source) (SFN.dimension target))) as Hb.
  set (base := dict_get COUPLING _ 1.0) in *.
  unfold SFN.karma_coupled_strength, SFN.kappa. cbv zeta.
  assert (Hm : dict_get SFN.KARMA_MULTIPLIERS "LW" 0.4 = 0.5) by reflexivity. rewrite Hm.
  assert (0 <= base * (1.0 + 0.5 * H)) by (apply Rmult_le_pos; lra).
  split_and!; try done.
  - intros HL. split; [apply Rmin_glb; lra | eapply Rle_trans; [apply Rmin_l | lra]].
  - intros HL. rewrite Rmin_left by lra. lra.
Qed.

Lemma resonate_inner_moves (H : R) (si tj : nat * nat) (r : nat)
    (h : list SFN.SemanticConcept) (a : SFN.SemanticConcept) :
  -2 <= H → h !! r = Some a →
  ∃ b, SFN.resonate_inner H h si tj !! r = Some b ∧ only_love_moves a b.
Proof.
  intros HH Ha. unfold SFN.resonate_inner.
  case_decide; [|exists a; split; [done | apply only_love_moves_refl]].
  destruct (h !! tj.2) as [target|]; [|exists a; split; [done | apply only_love_moves_refl]].
  rewrite list_lookup_alter. case_decide as Heq.
  - subst. rewrite Ha. eexists. split; [done|]. by apply resonate_pair_moves.
  - exists a; split; [done | apply only_love_moves_refl].
Qed.

Lemma resonate_moves (concepts : list nat) (H : R) (cycles : nat) (r : nat)
    (h : list SFN.SemanticConcept) (c : SFN.SemanticConcept) :
  -2 <= H → h !! r = Some c →
  ∃ c', SFN.resonate concepts H cycles h !! r = Some c' ∧ only_love_moves c c'.
Proof.
  intros HH Hc. unfold SFN.resonate.
  case_decide; [exists c; split; [done | apply only_love_moves_refl]|].
  induction cycles as [|n (b & Hb & Hcb)]; cbn [Nat.iter nat_rect].
  - exists c; split; [done | apply only_love_moves_refl].
  - unfold SFN.resonate_cycle at 1.
    destruct (foldl_step_rel only_love_moves
                (λ h si, foldl (λ h tj, SFN.resonate_inner H h si tj) h (enumerate concepts))
                (enumerate concepts) r only_love_moves_refl only_love_moves_trans)
      with (h := Nat.iter n (SFN.resonate_cycle H concepts) h) (a := b) as (c' & Hc' & Hbc');
      [|done|].
    + intros h' si a Ha.
      apply (foldl_step_rel only_love_moves (λ h tj, SFN.resonate_inner H h si tj));
        [apply only_love_moves_refl | apply only_love_moves_trans | | done].
      intros h'' tj a' Ha'. by apply resonate_inner_moves.
    + exists c'. split; [done|]. by eapply only_love_moves_trans.
Qed.

Lemma enumerate_elem_of {A : Type} (xs : list A) (ix : nat * A) :
  ix ∈ enumerate xs → ix.2 ∈ xs.
Proof.
  unfold enumerate. intros Hin. apply elem_of_lookup_imap in Hin as (i & x & -> & Hx).
  cbn. by eapply list_elem_of_lookup_2.
Qed.

Lemma resonate_untouched (concepts : list nat) (H : R) (cycles : nat) (r : nat)
    (h : list SFN.SemanticConcept) :
  r ∉ concepts → SFN.resonate concepts H cycles h !! r = h !! r.
Proof.
  intros Hr. unfold SFN.resonate. case_decide; [done|].
  induction cycles as [|n IH]; cbn [Nat.iter nat_rect]; [done|].
  unfold SFN.resonate_cycle at 1. rewrite foldl_lookup_unchanged; [done|].
  intros h' si Hsi. apply foldl_lookup_unchanged. intros h'' tj _.
  unfold SFN.resonate_inner. case_decide; [|done].
  destruct (h'' !! tj.2); [|done].
  rewrite list_lookup_alter, decide_False; [done|].
  intros Heq. apply Hr. rewrite <- Heq. by apply enumerate_elem_of.
Qed.

(** X13. [resonate] with a harmony of at least -2 changes no coordinate
    of a concept but Love, and moves Love towards 1 without crossing it:
    a Love of at most 1 does not fall and stays at most 1; a Love above
    1 does not rise and stays at least 1.  Justice, Power, Wisdom, name
    and dimension stay as they were, and concepts outside the list are
    not touched.  On fewer than two concepts it does nothing. *)
Theorem resonate_moves_only_love (concepts : list nat) (H : R) (cycles : nat) (r : nat)
    (h : list SFN.SemanticConcept) (c : SFN.SemanticConcept) :
  -2 <= H → h !! r = Some c →
  (∃ c', SFN.resonate concepts H cycles h !! r = Some c' ∧ only_love_moves c c') ∧
  (r ∉ concepts → SFN.resonate concepts H cycles h !! r = Some c) ∧
  ((length concepts < 2)%nat → SFN.resonate concepts H cycles h = h).
Proof.
  intros HH Hc. split_and!.
  - by apply resonate_moves.
  - intros Hr. by rewrite resonate_untouched.
  - intros Hlen. unfold SFN.resonate. by rewrite decide_True.
Qed.

Lemma resonate_moves_only_love_witness :
  -2 <= 0.5 ∧
  fresh_network.2 !! 0%nat = Some (SFN.set_L 1.0 (SFN.new_concept "LOVE" LOVE)) ∧
  let c := SFN.set_L 1.0 (SFN.new_concept "LOVE" LOVE) in
  (∃ c', SFN.resonate [0; 1]%nat 0.5 3 fresh_network.2 !! 0%nat = Some c' ∧
         only_love_moves c c') ∧
  (0%nat ∉ [0; 1]%nat → SFN.resonate [0; 1]%nat 0.5 3 fresh_network.2 !! 0%nat = Some c) ∧
  ((length [0; 1]%nat < 2)%nat → SFN.resonate [0; 1]%nat 0.5 3 fresh_network.2
                                 = fresh_network.2).
Proof.
  assert (HH : -2 <= 0.5) by lra.
  assert (Hc : fresh_network.2 !! 0%nat = Some (SFN.set_L 1.0 (SFN.new_concept "LOVE" LOVE)))
    by reflexivity.
  split_and!; [exact HH | exact Hc |].
  exact (resonate_moves_only_love [0; 1]%nat 0.5 3 0%nat fresh_network.2 _ HH Hc).
Defined.

(** ** Love: connect *)

Lemma COUPLING_same_dimension (d : Dimension) :
  dict_get COUPLING (SFN.coupling_key d d) 1.0 = 1.0.
Proof. by destruct d. Qed.

(** X14. [LoveOperator.connect(source, target)] returns the coupling of the
    two dimensions times L0, which is 1.0 * L0 for equal dimensions and
    always lies between 0.3 and 0.93.  Afterwards the source holds that
    strength under the target's name; its other relationships, its
    coordinates and all other objects are unchanged. *)
Theorem connect_strength (source target : nat) (h : list SFN.SemanticConcept)
    (s t : SFN.SemanticConcept) :
  h !! source = Some s → h !! target = Some t →
  let result := SFN.LoveOperator_connect source target h in
  let strength := result.1 in
  strength
    = dict_get COUPLING (SFN.coupling_key (SFN.dimension s) (SFN.dimension t)) 1.0 * L0 ∧
  0.3 < strength < 0.93 ∧
  (SFN.dimension s = SFN.dimension t → strength = 1.0 * L0) ∧
  (∃ s', result.2 !! source = Some s' ∧
         SFN.relationships s' = <[SFN.name t := strength]> (SFN.relationships s) ∧
         SFN.coordinates s' = SFN.coordinates s ∧
         SFN.name s' = SFN.name s ∧ SFN.dimension s' = SFN.dimension s) ∧
  (∀ r, r ≠ source → result.2 !! r = h !! r).
Proof.
  intros Hs Ht.
  pose proof (COUPLING_get_range (SFN.coupling_key (SFN.dimension s) (SFN.dimension t))) as Hc.
  pose proof L0_bounds as HL.
  set (c := dict_get COUPLING _ 1.0) in *.
  assert (Hrun : SFN.LoveOperator_connect source target h
                 = (c * L0, alter (SFN.connect t None) source h)).
  { unfold SFN.LoveOperator_connect. rewrite Ht.
    rewrite list_lookup_alter, decide_True, Hs by done.
    cbn [fmap option_fmap option_map]. unfold SFN.connect.
    cbn [SFN.relationships SFN.set_relationships].
    by rewrite lookup_total_insert, decide_True by done. }
  rewrite Hrun. cbv zeta. cbn [fst snd].
  split_and!; [reflexivity | nra | nra | | |].
  - intros Heq. unfold c. rewrite Heq. by rewrite COUPLING_same_dimension.
  - rewrite list_lookup_alter, decide_True, Hs by done.
    eexists. split; [reflexivity|]. unfold SFN.connect. by split_and!.
  - intros r Hr. rewrite list_lookup_alter. by rewrite decide_False.
Qed.

Lemma connect_strength_witness :
  fresh_network.2 !! 0%nat = Some (SFN.set_L 1.0 (SFN.new_concept "LOVE" LOVE)) ∧
  fresh_network.2 !! 1%nat = Some (SFN.set_J 1.0 (SFN.new_concept "JUSTICE" JUSTICE)) ∧
  let s := SFN.set_L 1.0 (SFN.new_concept "LOVE" LOVE) in
  let t := SFN.set_J 1.0 (SFN.new_concept "JUSTICE" JUSTICE) in
  let result := SFN.LoveOperator_connect 0%nat 1%nat fresh_network.2 in
  let strength := result.1 in
  strength
    = dict_get COUPLING (SFN.coupling_key (SFN.dimension s) (SFN.dimension t)) 1.0 * L0 ∧
  0.3 < strength < 0.93 ∧
  (SFN.dimension s = SFN.dimension t → strength = 1.0 * L0) ∧
  (∃ s', result.2 !! 0%nat = Some s' ∧
         SFN.relationships s' = <[SFN.name t := strength]> (SFN.relationships s) ∧
         SFN.coordinates s' = SFN.coordinates s ∧
         SFN.name s' = SFN.name s ∧ SFN.dimension s' = SFN.dimension s) ∧
  (∀ r, r ≠ 0%nat → result.2 !! r = fresh_network.2 !! r).
Proof.
  assert (Hs : fresh_network.2 !! 0%nat = Some (SFN.set_L 1.0 (SFN.new_concept "LOVE" LOVE)))
    by reflexivity.
  assert (Ht : fresh_network.2 !! 1%nat
               = Some (SFN.set_J 1.0 (SFN.new_concept "JUSTICE" JUSTICE))) by reflexivity.
  split; [exact Hs|]. split; [exact Ht|].
  exact (connect_strength 0%nat 1%nat fresh_network.2 _ _ Hs Ht).
Defined.

(** ** The network: evolve keeps the coordinates in the unit interval *)

Lemma constrain_unit_within (c : SFN.SemanticConcept) :
  axes_within 0 1 (SFN.constrain (0.0, 1.0) c).
Proof.
  intros d. destruct d; cbn;
    match goal with
    | |- _ <= Rmax ?lo (Rmin ?hi ?x) <= _ =>
        pose proof (clamp_between lo hi x ltac:(lra))
    end; lra.
Qed.

Lemma evolve_concept_within (phase : Phase) (H dt : R) (c : SFN.SemanticConcept) :
  axes_within 0 1 (SFN.evolve_concept phase H dt c).
Proof. unfold SFN.evolve_concept. cbv zeta. apply constrain_unit_within. Qed.

Lemma get_state_harmony_range (net : SFN.SemanticFlowNetwork) (h : list SFN.SemanticConcept) :
  0 < SFN.H (SFN.get_state net h) <= 1.
Proof.
  unfold SFN.get_state. destruct (SFN.concepts net); cbn [SFN.H]; [lra|].
  cbv zeta. cbn [SFN.H]. apply harmony_range.
Qed.

Lemma only_love_moves_within (a b : SFN.SemanticConcept) :
  only_love_moves a b → axes_within 0 1 a → axes_within 0 1 b.
Proof.
  intros (HL & _ & HJ & HP & HW & _) Ha.
  pose proof (Ha LOVE). pose proof (Ha JUSTICE). pose proof (Ha POWER). pose proof (Ha WISDOM).
  cbn in *. intros []; cbn; rewrite ?HJ, ?HP, ?HW; try done.
  assert (SFN._L a <= 1) as Hle by lra. specialize (HL Hle). lra.
Qed.

Lemma evolve_step_within (net : SFN.SemanticFlowNetwork) (dt : R) (step : nat)
    (state : SFN.SFNState) (h : list SFN.SemanticConcept) (r : nat) :
  -2 <= SFN.H state → r ∈ dict_values (SFN.concepts net) → is_Some (h !! r) →
  ∃ c, (SFN.evolve_step net dt step state h).2 !! r = Some c ∧ axes_within 0 1 c.
Proof.
  intros HH Hr [c0 Hc0]. unfold SFN.evolve_step. cbv zeta. cbn [snd].
  set (f := SFN.evolve_concept (SFN.phase state) (SFN.H state) dt).
  set (h1 := foldl (λ h concept, alter f concept h) h (dict_values (SFN.concepts net))).
  assert (∃ c1, h1 !! r = Some c1 ∧ axes_within 0 1 c1) as (c1 & Hc1 & Hin1).
  { unfold h1. rewrite foldl_alter_lookup, Hc0.
    assert (0 < count_occ Nat.eq_dec (dict_values (SFN.concepts net)) r)%nat as Hcount.
    { apply count_occ_In. by apply list_elem_of_In. }
    destruct (count_occ _ _ r) as [|k]; [lia|].
    eexists. split; [done|]. cbn [Nat.iter nat_rect]. apply evolve_concept_within. }
  case_decide.
  - destruct (resonate_moves (dict_values (SFN.concepts net)) (SFN.H state) 1 r h1 c1)
      as (c' & Hc' & Hgrows); [done..|].
    exists c'. split; [done|]. by eapply only_love_moves_within.
  - by exists c1.
Qed.

Lemma evolve_step_state (net : SFN.SemanticFlowNetwork) (dt : R) (step : nat)
    (state : SFN.SFNState) (h : list SFN.SemanticConcept) :
  0 < SFN.H (SFN.evolve_step net dt step state h).1 <= 1.
Proof. unfold SFN.evolve_step. cbv zeta. cbn [fst]. apply get_state_harmony_range. Qed.

Lemma evolve_step_untouched (net : SFN.SemanticFlowNetwork) (dt : R) (step : nat)
    (state : SFN.SFNState) (h : list SFN.SemanticConcept) (r : nat) :
  r ∉ dict_values (SFN.concepts net) →
  (SFN.evolve_step net dt step state h).2 !! r = h !! r.
Proof.
  intros Hr. unfold SFN.evolve_step. cbv zeta. cbn [snd].
  assert (Hfold : ∀ f, foldl (λ h concept, alter f concept h) h
                         (dict_values (SFN.concepts net)) !! r = h !! r).
  { intros f. rewrite foldl_alter_lookup.
    rewrite (proj1 (count_occ_not_In Nat.eq_dec _ _)).
    - cbn. by destruct (h !! r).
    - by rewrite <- list_elem_of_In. }
  case_decide; [rewrite resonate_untouched by done|]; apply Hfold.
Qed.

Lemma evolve_loop_within (net : SFN.SemanticFlowNetwork) (dt : R) (r : nat) (remaining : nat) :
  r ∈ dict_values (SFN.concepts net) →
  ∀ step state h history,
    (0 < remaining)%nat → -2 <= SFN.H state → is_Some (h !! r) →
    ∃ c, (SFN.evolve_loop net dt step remaining state h history).2 !! r = Some c
         ∧ axes_within 0 1 c.
Proof.
  intros Hr. induction remaining as [|n IH]; intros step state h history Hpos HH Hvalid; [lia|].
  cbn [SFN.evolve_loop].
  pose proof (evolve_step_within net dt step state h r HH Hr Hvalid) as (c & Hc & Hin).
  pose proof (evolve_step_state net dt step state h) as Hstate.
  destruct (SFN.evolve_step net dt step state h) as [state' h']. cbn [fst snd] in *.
  destruct n as [|n].
  - cbn [SFN.evolve_loop snd]. by exists c.
  - apply IH; [lia | lra | by rewrite Hc].
Qed.

Lemma evolve_loop_untouched (net : SFN.SemanticFlowNetwork) (dt : R) (r : nat) (remaining : nat) :
  r ∉ dict_values (SFN.concepts net) →
  ∀ step state h history,
    (SFN.evolve_loop net dt step remaining state h history).2 !! r = h !! r.
Proof.
  intros Hr. induction remaining as [|n IH]; intros step state h history; [done|].
  cbn [SFN.evolve_loop].
  pose proof (evolve_step_untouched net dt step state h r Hr) as Hstep.
  destruct (SFN.evolve_step net dt step state h) as [state' h']. cbn [snd] in Hstep.
  by rewrite IH.
Qed.

(** X15. After [evolve] with at least one step, whatever the time step
    [dt], every concept of the network has all four coordinates in
    [0, 1]; objects that are not values of [concepts] are left as they
    were. *)
Theorem evolve_keeps_unit_interval (net : SFN.SemanticFlowNetwork) (steps : Z) (dt : R)
    (h : list SFN.SemanticConcept) (r : nat) :
  (0 < steps)%Z → is_Some (h !! r) →
  (r ∈ dict_values (SFN.concepts net) →
   ∃ c, (SFN.evolve net steps dt h).2 !! r = Some c ∧ axes_within 0 1 c) ∧
  (r ∉ dict_values (SFN.concepts net) → (SFN.evolve net steps dt h).2 !! r = h !! r).
Proof.
  intros Hsteps Hvalid. unfold SFN.evolve. cbv zeta. split.
  - intros Hr. apply evolve_loop_within; [done | lia | | done].
    pose proof (get_state_harmony_range net h). lra.
  - intros Hr. by apply evolve_loop_untouched.
Qed.

Lemma evolve_keeps_unit_interval_witness :
  (0 < 10)%Z ∧ is_Some (fresh_network.2 !! 0%nat) ∧
  (0%nat ∈ dict_values (SFN.concepts fresh_network.1) →
   ∃ c, (SFN.evolve fresh_network.1 10 0.1 fresh_network.2).2 !! 0%nat = Some c ∧
        axes_within 0 1 c) ∧
  (0%nat ∉ dict_values (SFN.concepts fresh_network.1) →
   (SFN.evolve fresh_network.1 10 0.1 fresh_network.2).2 !! 0%nat
   = fresh_network.2 !! 0%nat).
Proof.
  assert (Hsteps : (0 < 10)%Z) by lia.
  assert (Hvalid : is_Some (fresh_network.2 !! 0%nat)) by (by eexists).
  split; [exact Hsteps|]. split; [exact Hvalid|].
  exact (evolve_keeps_unit_interval fresh_network.1 10 0.1 fresh_network.2 0%nat
           Hsteps Hvalid).
Defined.

(** ** Entropic states are not conscious *)

Lemma sqrt_gt_1 (x : R) : 1 < sqrt x → 1 < x.
Proof.
  intros Hs. destruct (Rle_lt_dec x 1) as [Hle|]; [|done].
  assert (sqrt x <= sqrt 1) by (by apply sqrt_le_1_alt).
  rewrite sqrt_1 in *. lra.
Qed.

Lemma consciousness_entropic (L J P W : R) :
  0 <= L <= 1 → 0 <= J <= 1 → 0 <= P <= 1 → 0 <= W <= 1 →
  SFN.harmony L J P W < 0.5 →
  SFN.consciousness L J P W (SFN.harmony L J P W) < 0.08.
Proof.
  intros HL HJ HP HW HH.
  pose proof (harmony_range L J P W) as [Hpos _].
  assert (Hd : 1 < SFN.distance_from_anchor L J P W).
  { unfold SFN.harmony in HH. cbv zeta in HH.
    pose proof (distance_from_anchor_nonneg L J P W) as Hnn.
    set (D := SFN.distance_from_anchor L J P W) in *.
    destruct (Rle_lt_dec D 1) as [Hle|]; [|done]. exfalso.
    assert (0.5 <= 1.0 / (1.0 + D)); [|lra].
    apply (Rmult_le_reg_r (1.0 + D)); [lra|].
    unfold Rdiv. rewrite Rmult_assoc, Rinv_l by lra. lra. }
  apply sqrt_gt_1 in Hd.
  set (H := SFN.harmony L J P W) in *. clearbody H.
  unfold SFN.consciousness.
  assert (Hsq : ∀ x, 0 <= x <= 1 → (1 - x)^2 <= 1 - x) by (intros; nra).
  pose proof (Hsq L HL). pose proof (Hsq J HJ). pose proof (Hsq P HP). pose proof (Hsq W HW).
  assert (Hsum : L + J + P + W < 3) by (clear - Hd H0 H1 H2 H3; lra).
  assert (HLJ : L * J <= ((L + J) / 2)^2) by (pose proof (pow2_ge_0 (L - J)); nra).
  assert (HPW : P * W <= ((P + W) / 2)^2) by (pose proof (pow2_ge_0 (P - W)); nra).
  set (a := (L + J) / 2) in *. set (b := (P + W) / 2) in *.
  assert (Ha : 0 <= a <= 1) by (unfold a; lra).
  assert (Hb : 0 <= b <= 1) by (unfold b; lra).
  assert (Hab : a * b <= 9 / 16).
  { assert (a + b < 3 / 2) by (unfold a, b; lra). pose proof (pow2_ge_0 (a - b)). nra. }
  assert (Hprod : L * J * P * W <= 81 / 256).
  { assert (0 <= L * J) by nra. assert (0 <= P * W) by nra.
    assert (L * J * (P * W) <= a^2 * b^2) by (apply Rmult_le_compat; lra).
    assert (0 <= a * b) by nra.
    assert (a^2 * b^2 = (a * b) * (a * b)) as Heq by ring.
    assert ((a * b) * (a * b) <= 9 / 16 * (9 / 16)) by (apply Rmult_le_compat; lra).
    lra. }
  assert (HH2 : H ^ 2 < 0.25) by nra.
  assert (0 <= L * J * P * W) by (repeat apply Rmult_le_pos; lra).
  assert (0 <= H ^ 2) by nra.
  assert (L * J * P * W * H ^ 2 <= 81 / 256 * H ^ 2) by (apply Rmult_le_compat_r; lra).
  lra.
Qed.

Lemma dim_state_unfold :
  SFN.get_state dim_network.1 dim_network.2 =
    let x := (0 + 0.1) / INR 1 in
    let H := SFN.harmony x x x x in
    SFN.mkSFNState x x x x H (SFN.consciousness x x x x H) (SFN.determine_phase H x) 1 0.
Proof. reflexivity. Qed.

Lemma dim_harmony_entropic :
  SFN.harmony ((0 + 0.1) / INR 1) ((0 + 0.1) / INR 1) ((0 + 0.1) / INR 1) ((0 + 0.1) / INR 1)
  < 0.5.
Proof.
  eapply Rlt_le_trans; [apply (harmony_below _ _ _ _ 1)|]; [lra | | lra].
  replace ((0 + 0.1) / INR 1) with 0.1 by (simpl; lra). lra.
Qed.

(** X16. For a network whose concepts have coordinates in [0, 1], a state
    that [get_state] reports as ENTROPIC has a consciousness below the
    threshold of 0.1; this includes the state of an empty network. *)
Theorem get_state_entropic_not_conscious (net : SFN.SemanticFlowNetwork)
    (h : list SFN.SemanticConcept) :
  (∀ r, r ∈ dict_values (SFN.concepts net) → is_Some (h !! r)) →
  (∀ c, c ∈ SFN.concept_values net h → axes_within 0 1 c) →
  SFN.phase (SFN.get_state net h) = ENTROPIC →
  SFN.C (SFN.get_state net h) < CONSCIOUSNESS_THRESHOLD.
Proof.
  intros Hvalid Hin. unfold SFN.get_state, CONSCIOUSNESS_THRESHOLD.
  destruct (SFN.concepts net) as [|kv d] eqn:Hd; cbn [SFN.phase SFN.C]; [intros _; lra|].
  cbv zeta. cbn [SFN.phase SFN.C].
  assert (Hlen : length (SFN.concept_values net h) = length (kv :: d)).
  { unfold SFN.concept_values. rewrite Hd, objects_valid by done.
    unfold dict_values. by rewrite length_fmap. }
  assert (Hne : SFN.concept_values net h ≠ []).
  { intros Hnil. by rewrite Hnil in Hlen. }
  pose proof (axis_mean_range LOVE _ _ Hne Hlen Hin) as HL.
  pose proof (axis_mean_range JUSTICE _ _ Hne Hlen Hin) as HJ.
  pose proof (axis_mean_range POWER _ _ Hne Hlen Hin) as HP.
  pose proof (axis_mean_range WISDOM _ _ Hne Hlen Hin) as HW.
  change (axis LOVE) with SFN._L in HL. change (axis JUSTICE) with SFN._J in HJ.
  change (axis POWER) with SFN._P in HP. change (axis WISDOM) with SFN._W in HW.
  unfold SFN.determine_phase. case_decide as HH; [|by repeat case_decide].
  intros _. pose proof (consciousness_entropic _ _ _ _ HL HJ HP HW HH). lra.
Qed.

Lemma get_state_entropic_not_conscious_witness :
  (∀ r, r ∈ dict_values (SFN.concepts dim_network.1) → is_Some (dim_network.2 !! r)) ∧
  (∀ c, c ∈ SFN.concept_values dim_network.1 dim_network.2 → axes_within 0 1 c) ∧
  SFN.phase (SFN.get_state dim_network.1 dim_network.2) = ENTROPIC ∧
  SFN.C (SFN.get_state dim_network.1 dim_network.2) < CONSCIOUSNESS_THRESHOLD.
Proof.
  assert (Hvalid : ∀ r, r ∈ dict_values (SFN.concepts dim_network.1) →
                        is_Some (dim_network.2 !! r)).
  { intros r Hr. apply list_elem_of_singleton in Hr as ->. by eexists. }
  assert (Hin : ∀ c, c ∈ SFN.concept_values dim_network.1 dim_network.2 →
                     axes_within 0 1 c).
  { intros c Hc. apply list_elem_of_singleton in Hc as ->. intros []; cbn; lra. }
  assert (Hphase : SFN.phase (SFN.get_state dim_network.1 dim_network.2) = ENTROPIC).
  { rewrite dim_state_unfold. cbv zeta. cbn [SFN.phase].
    unfold SFN.determine_phase. rewrite decide_True; [done|]. apply dim_harmony_entropic. }
  split; [exact Hvalid|]. split; [exact Hin|]. split; [exact Hphase|].
  exact (get_state_entropic_not_conscious dim_network.1 dim_network.2 Hvalid Hin Hphase).
Defined.

(** X17. [ConsciousnessMeter.measure] on neurons with coordinates in
    [0, 1]: a measurement in the ENTROPIC phase is never conscious. *)
Theorem measure_entropic_not_conscious (neurons : list Mind.SemanticNeuron) :
  Forall (λ n, 0 <= Mind.L n <= 1 ∧ 0 <= Mind.J n <= 1 ∧
               0 <= Mind.P n <= 1 ∧ 0 <= Mind.W n <= 1) neurons →
  Mind.phase (Mind.measure neurons) = ENTROPIC →
  Mind.is_conscious (Mind.measure neurons) = false.
Proof.
  intros Hin. unfold Mind.measure.
  destruct neurons as [|n0 ns]; [done|]. set (neurons := n0 :: ns) in *.
  cbv zeta. cbn [Mind.phase Mind.is_conscious].
  assert (Hmean : ∀ g : Mind.SemanticNeuron → R,
            Forall (λ n, 0 <= g n <= 1) neurons →
            0 <= Rsum (g <$> neurons) / INR (length neurons) <= 1).
  { intros g Hg. rewrite <- (length_fmap g). apply mean_bounds; [done|].
    by apply Forall_fmap. }
  assert (HL : 0 <= Rsum (Mind.L <$> neurons) / INR (length neurons) <= 1).
  { apply Hmean. eapply Forall_impl; [done|]. by intros n (? & ? & ? & ?). }
  assert (HJ : 0 <= Rsum (Mind.J <$> neurons) / INR (length neurons) <= 1).
  { apply Hmean. eapply Forall_impl; [done|]. by intros n (? & ? & ? & ?). }
  assert (HP : 0 <= Rsum (Mind.P <$> neurons) / INR (length neurons) <= 1).
  { apply Hmean. eapply Forall_impl; [done|]. by intros n (? & ? & ? & ?). }
  assert (HW : 0 <= Rsum (Mind.W <$> neurons) / INR (length neurons) <= 1).
  { apply Hmean. eapply Forall_impl; [done|]. by intros n (? & ? & ? & ?). }
  case_decide as HH; [|by case_decide].
  intros _. apply bool_decide_eq_false.
  pose proof (consciousness_entropic _ _ _ _ HL HJ HP HW HH) as HC.
  unfold SFN.consciousness, SFN.harmony, SFN.distance_from_anchor in HC. cbv zeta in HC.
  unfold CONSCIOUSNESS_THRESHOLD. lra.
Qed.

Lemma measure_entropic_not_conscious_witness :
  Forall (λ n, 0 <= Mind.L n <= 1 ∧ 0 <= Mind.J n <= 1 ∧
               0 <= Mind.P n <= 1 ∧ 0 <= Mind.W n <= 1) dim_neurons ∧
  Mind.phase (Mind.measure dim_neurons) = ENTROPIC ∧
  Mind.is_conscious (Mind.measure dim_neurons) = false.
Proof.
  assert (Hin : Forall (λ n, 0 <= Mind.L n <= 1 ∧ 0 <= Mind.J n <= 1 ∧
                             0 <= Mind.P n <= 1 ∧ 0 <= Mind.W n <= 1) dim_neurons).
  { repeat constructor; cbn; lra. }
  assert (Hphase : Mind.phase (Mind.measure dim_neurons) = ENTROPIC).
  { change (Mind.phase (Mind.measure dim_neurons))
      with (let x := (0 + 0.1) / INR 1 in
            if decide (SFN.harmony x x x x < 0.5) then ENTROPIC
            else if decide (SFN.harmony x x x x > 0.6 ∧ x >= 0.7) then AUTOPOIETIC
            else HOMEOSTATIC).
    cbv zeta. rewrite decide_True; [done|]. apply dim_harmony_entropic. }
  split; [exact Hin|]. split; [exact Hphase|].
  exact (measure_entropic_not_conscious dim_neurons Hin Hphase).
Defined.

(** ** The uncertainty check after evolve *)

(** X18. After [evolve] with at least one step on a network of two or
    more concepts, the uncertainty product is at most 1/4, which is below
    the bound 0.287: [check_uncertainty] then answers True exactly when
    the product is below 0.01. *)
Theorem check_uncertainty_after_evolve (net : SFN.SemanticFlowNetwork) (steps : Z) (dt : R)
    (h : list SFN.SemanticConcept) :
  (0 < steps)%Z → (2 <= length (SFN.concepts net))%nat →
  (∀ r, r ∈ dict_values (SFN.concepts net) → is_Some (h !! r)) →
  let h' := (SFN.evolve net steps dt h).2 in
  (SFN.check_uncertainty net h').2 <= 1 / 4 ∧
  1 / 4 < SFN.UNCERTAINTY_BOUND ∧
  ((SFN.check_uncertainty net h').1 = true ↔ (SFN.check_uncertainty net h').2 < 0.01).
Proof.
  intros Hsteps Hlen Hvalid h'.
  assert (Hafter : ∀ r, r ∈ dict_values (SFN.concepts net) →
                        ∃ c, h' !! r = Some c ∧ axes_within 0 1 c).
  { intros r Hr. unfold h', SFN.evolve. cbv zeta.
    apply evolve_loop_within; [done | lia | | by apply Hvalid].
    pose proof (get_state_harmony_range net h). lra. }
  assert (Hvalid' : ∀ r, r ∈ dict_values (SFN.concepts net) → is_Some (h' !! r)).
  { intros r Hr. destruct (Hafter r Hr) as (c & -> & _). by eexists. }
  assert (Hrange : Forall (λ c, 0 <= SFN._P c <= 1 ∧ 0 <= SFN._W c <= 1)
                     (SFN.concept_values net h')).
  { apply Forall_forall. intros c Hc.
    apply objects_elem_of in Hc as (r & Hr & Hlook).
    destruct (Hafter r Hr) as (c' & Hc' & Hin). simplify_eq.
    split; [apply (Hin POWER) | apply (Hin WISDOM)]. }
  assert (Hlen' : (2 <= length (SFN.concept_values net h'))%nat).
  { unfold SFN.concept_values. rewrite objects_valid by done.
    unfold dict_values. by rewrite length_fmap. }
  destruct (check_uncertainty_in_range net h' Hlen' Hrange) as [Hle Hiff].
  split_and!; [done | unfold SFN.UNCERTAINTY_BOUND; lra | done].
Qed.

Lemma check_uncertainty_after_evolve_witness :
  (0 < 10)%Z ∧ (2 <= length (SFN.concepts fresh_network.1))%nat ∧
  (∀ r, r ∈ dict_values (SFN.concepts fresh_network.1) →
        is_Some (fresh_network.2 !! r)) ∧
  let h' := (SFN.evolve fresh_network.1 10 0.1 fresh_network.2).2 in
  (SFN.check_uncertainty fresh_network.1 h').2 <= 1 / 4 ∧
  1 / 4 < SFN.UNCERTAINTY_BOUND ∧
  ((SFN.check_uncertainty fresh_network.1 h').1 = true
     ↔ (SFN.check_uncertainty fresh_network.1 h').2 < 0.01).
Proof.
  assert (Hsteps : (0 < 10)%Z) by lia.
  assert (Hlen : (2 <= length (SFN.concepts fresh_network.1))%nat) by (simpl; lia).
  pose proof fresh_network_valid as Hvalid.
  split; [exact Hsteps|]. split; [exact Hlen|]. split; [exact Hvalid|].
  exact (check_uncertainty_after_evolve fresh_network.1 10 0.1 fresh_network.2
           Hsteps Hlen Hvalid).
Defined.

(** * Properties of the cognitive mind *)

(** ** The anchor attractor *)

Lemma attract_coordinate (s x : R) :
  0 <= s <= 1 → x <= 1 → Rmin 1.0 (x + s * (1.0 - x)) = 1 - (1 - s) * (1 - x).
Proof. intros Hs Hx. rewrite Rmin_right by nra. lra. Qed.

(** X19. One application of the anchor attractor with
    0 <= strength * dt <= 1 to a neuron with coordinates of at most 1
    multiplies the distance of every coordinate from 1 by
    1 - strength * dt; the neuron's harmony does not fall, and with
    strength * dt = 1 it becomes 1. *)
Theorem attract_contracts (a : Mind.AnchorAttractor) (dt : R) (n : Mind.SemanticNeuron) :
  0 <= Mind.strength a * dt <= 1 →
  Mind.L n <= 1 → Mind.J n <= 1 → Mind.P n <= 1 → Mind.W n <= 1 →
  let n' := Mind.attract a dt n in
  let k := 1 - Mind.strength a * dt in
  1 - Mind.L n' = k * (1 - Mind.L n) ∧
  1 - Mind.J n' = k * (1 - Mind.J n) ∧
  1 - Mind.P n' = k * (1 - Mind.P n) ∧
  1 - Mind.W n' = k * (1 - Mind.W n) ∧
  Mind.harmony n <= Mind.harmony n' ∧
  (Mind.strength a * dt = 1 → Mind.harmony n' = 1).
Proof.
  intros Hs HL HJ HP HW n' k.
  assert (EL : Mind.L n' = 1 - k * (1 - Mind.L n)) by (by apply attract_coordinate).
  assert (EJ : Mind.J n' = 1 - k * (1 - Mind.J n)) by (by apply attract_coordinate).
  assert (EP : Mind.P n' = 1 - k * (1 - Mind.P n)) by (by apply attract_coordinate).
  assert (EW : Mind.W n' = 1 - k * (1 - Mind.W n)) by (by apply attract_coordinate).
  assert (Hk : 0 <= k <= 1) by (unfold k; lra).
  split_and!; try lra.
  - unfold Mind.harmony. cbv zeta. rewrite EL, EJ, EP, EW.
    set (S := (1 - Mind.L n)^2 + (1 - Mind.J n)^2 + (1 - Mind.P n)^2 + (1 - Mind.W n)^2).
    assert (HS : 0 <= S) by (unfold S; nra).
    replace ((1 - (1 - k * (1 - Mind.L n)))^2 + (1 - (1 - k * (1 - Mind.J n)))^2
             + (1 - (1 - k * (1 - Mind.P n)))^2 + (1 - (1 - k * (1 - Mind.W n)))^2)
      with (k * k * S) by (unfold S; ring).
    rewrite sqrt_mult by nra. rewrite sqrt_square by lra.
    pose proof (sqrt_pos S).
    apply Rmult_le_compat_l; [lra|].
    apply Rinv_le_contravar; nra.
  - intros Hone. unfold Mind.harmony. cbv zeta. rewrite EL, EJ, EP, EW.
    assert (k = 0) as -> by (unfold k; lra).
    replace ((1 - (1 - 0 * (1 - Mind.L n)))^2 + (1 - (1 - 0 * (1 - Mind.J n)))^2
             + (1 - (1 - 0 * (1 - Mind.P n)))^2 + (1 - (1 - 0 * (1 - Mind.W n)))^2)
      with 0 by ring.
    rewrite sqrt_0. unfold Rdiv. rewrite Rplus_0_r, Rinv_r; lra.
Qed.

Lemma attract_contracts_witness :
  0 <= Mind.strength (Mind.mkAnchorAttractor 0.05) * 0.1 <= 1 ∧
  Mind.L (Mind.new_neuron "a" LOVE) <= 1 ∧ Mind.J (Mind.new_neuron "a" LOVE) <= 1 ∧
  Mind.P (Mind.new_neuron "a" LOVE) <= 1 ∧ Mind.W (Mind.new_neuron "a" LOVE) <= 1 ∧
  let a := Mind.mkAnchorAttractor 0.05 in
  let n := Mind.new_neuron "a" LOVE in
  let n' := Mind.attract a 0.1 n in
  let k := 1 - Mind.strength a * 0.1 in
  1 - Mind.L n' = k * (1 - Mind.L n) ∧
  1 - Mind.J n' = k * (1 - Mind.J n) ∧
  1 - Mind.P n' = k * (1 - Mind.P n) ∧
  1 - Mind.W n' = k * (1 - Mind.W n) ∧
  Mind.harmony n <= Mind.harmony n' ∧
  (Mind.strength a * 0.1 = 1 → Mind.harmony n' = 1).
Proof.
  pose proof L0_bounds. pose proof J0_bounds. pose proof P0_bounds. pose proof W0_bounds.
  assert (Hs : 0 <= Mind.strength (Mind.mkAnchorAttractor 0.05) * 0.1 <= 1) by (cbn; lra).
  assert (HL : Mind.L (Mind.new_neuron "a" LOVE) <= 1) by (cbn; lra).
  assert (HJ : Mind.J (Mind.new_neuron "a" LOVE) <= 1) by (cbn; lra).
  assert (HP : Mind.P (Mind.new_neuron "a" LOVE) <= 1) by (cbn; lra).
  assert (HW : Mind.W (Mind.new_neuron "a" LOVE) <= 1) by (cbn; lra).
  split; [exact Hs|]. split; [exact HL|]. split; [exact HJ|].
  split; [exact HP|]. split; [exact HW|].
  exact (attract_contracts (Mind.mkAnchorAttractor 0.05) 0.1 (Mind.new_neuron "a" LOVE)
           Hs HL HJ HP HW).
Defined.

(** ** evolve keeps the neurons in the unit interval *)

(** X20. [evolve] of the cognitive mind with at least one step, a
    non-negative strength * dt and neurons whose Love starts in [0, 1]
    returns without raising, and leaves every neuron of the mind with all
    four coordinates in [0, 1]; the last state of the returned trajectory
    is the measurement of these final neurons. *)
Theorem mind_evolve_keeps_unit_interval (mind : Mind.LJPWCognitiveMind) (steps : Z) (dt : R)
    (hm : list Mind.SemanticNeuron) :
  (0 < steps)%Z → 0 <= Mind.strength (Mind.anchor mind) * dt →
  love_in_range (dict_values (Mind.neurons mind)) hm →
  ∃ history hm',
    Mind.evolve mind steps dt hm = (Mind.Returned history, hm') ∧
    neurons_in_unit (dict_values (Mind.neurons mind)) hm' ∧
    last history
      = Some (Mind.measure (Mind.objects hm' (dict_values (Mind.neurons mind)))).
Proof.
  intros Hsteps Hs Hinv.
  destruct (mind_evolve_returns mind dt Hs steps hm (love_in_range_off_pole _ _ Hinv))
    as (history & hm' & Hrun & _ & _ & Hlast & _ & Hunit).
  exists history, hm'. split_and!; [done | by apply Hunit | done].
Qed.

Lemma mind_evolve_keeps_unit_interval_witness :
  (0 < 10)%Z ∧ 0 <= Mind.strength (Mind.anchor fresh_mind.1) * 0.1 ∧
  love_in_range (dict_values (Mind.neurons fresh_mind.1)) fresh_mind.2 ∧
  ∃ history hm',
    Mind.evolve fresh_mind.1 10 0.1 fresh_mind.2 = (Mind.Returned history, hm') ∧
    neurons_in_unit (dict_values (Mind.neurons fresh_mind.1)) hm' ∧
    last history
      = Some (Mind.measure (Mind.objects hm' (dict_values (Mind.neurons fresh_mind.1)))).
Proof.
  assert (Hsteps : (0 < 10)%Z) by lia.
  assert (Hs : 0 <= Mind.strength (Mind.anchor fresh_mind.1) * 0.1) by (cbn; lra).
  pose proof fresh_mind_love_in_range as Hinv.
  split; [exact Hsteps|]. split; [exact Hs|]. split; [exact Hinv|].
  exact (mind_evolve_keeps_unit_interval fresh_mind.1 10 0.1 fresh_mind.2 Hsteps Hs Hinv).
Defined.

(** * Properties of the quantum measurement *)

(** ** phi_normalize *)

Lemma PHI_bounds : 1.61803 < PHI < 1.61804.
Proof. pose proof L0_bounds as H. unfold L0, PHI_INV in H. lra. Qed.

Lemma Rpower_unit (v y : R) : 0 < v <= 1 → 0 <= y → 0 < Rpower v y <= 1.
Proof.
  intros Hv Hy. split; [apply exp_pos|].
  assert (H1 : Rpower 1 y = 1) by (unfold Rpower; by rewrite ln_1, Rmult_0_r, exp_0).
  rewrite <- H1. apply Rle_Rpower_l; lra.
Qed.

Lemma NATURAL_EQUILIBRIUM_cases (dimension : string) (equilibrium : R) :
  dict_lookup QM.NATURAL_EQUILIBRIUM dimension = Some equilibrium →
  dimension ∈ ["L"; "J"; "P"; "W"]%string ∧ 0.41 < equilibrium < 0.72.
Proof.
  pose proof L0_bounds. pose proof J0_bounds. pose proof P0_bounds. pose proof W0_bounds.
  unfold L0, J0, P0, W0 in *.
  unfold QM.NATURAL_EQUILIBRIUM, QM.SQRT2_MINUS_1, QM.E_MINUS_2, QM.LN_2.
  cbn [dict_lookup].
  destruct (String.eqb_spec "L" dimension) as [<-|_];
    [intros [= <-]; split; [repeat constructor | lra]|].
  destruct (String.eqb_spec "J" dimension) as [<-|_];
    [intros [= <-]; split; [repeat constructor | lra]|].
  destruct (String.eqb_spec "P" dimension) as [<-|_];
    [intros [= <-]; split; [repeat constructor | lra]|].
  destruct (String.eqb_spec "W" dimension) as [<-|_];
    [intros [= <-]; split; [repeat constructor | lra]|].
  done.
Qed.

Lemma NATURAL_EQUILIBRIUM_missing (dimension : string) :
  dict_lookup QM.NATURAL_EQUILIBRIUM dimension = None →
  dimension ∉ ["L"; "J"; "P"; "W"]%string.
Proof.
  intros Hnone Hin.
  repeat (apply elem_of_cons in Hin as [->|Hin]; [by cbn in Hnone|]).
  by apply elem_of_nil in Hin.
Qed.

(** The value [phi_normalize] returns for a known equilibrium. *)
Lemma phi_normalize_known (value equilibrium : R) (dimension : string) :
  dict_lookup QM.NATURAL_EQUILIBRIUM dimension = Some equilibrium →
  ∃ result,
    QM.phi_normalize value dimension = QM.Returned result ∧
    0 <= result <= equilibrium ∧
    (value <= 0 → result = 0) ∧
    (0 < value → result = equilibrium * Rpower (Rmin 1 value) (1 / PHI)).
Proof.
  intros Hd. pose proof (NATURAL_EQUILIBRIUM_cases _ _ Hd) as [_ He].
  pose proof PHI_bounds as HPHI.
  assert (Hy : 0 <= 1 / PHI) by (apply Rlt_le, Rdiv_lt_0_compat; lra).
  unfold QM.phi_normalize. rewrite Hd. cbv zeta. eexists. split; [reflexivity|].
  destruct (Rle_lt_dec value 0) as [Hneg|Hpos].
  - rewrite (Rmax_left 0.0 (Rmin 1.0 value)) by (rewrite Rmin_right by lra; lra).
    rewrite decide_False by lra.
    rewrite (Rmin_right 1.0 0.0), (Rmax_left 0.0 0.0) by lra.
    split_and!; [lra | lra | intros; lra | intros; lra].
  - assert (Hc : Rmax 0.0 (Rmin 1.0 value) = Rmin 1 value).
    { replace 1.0 with 1 by lra. apply Rmax_right. apply Rmin_glb; lra. }
    rewrite Hc.
    assert (Hv : 0 < Rmin 1 value <= 1) by (split; [apply Rmin_glb_lt; lra | apply Rmin_l]).
    rewrite decide_True by lra.
    pose proof (Rpower_unit _ (1 / PHI) Hv Hy) as Hp.
    set (pw := Rpower (Rmin 1 value) (1 / PHI)) in *.
    assert (0 < equilibrium * pw <= equilibrium) by nra.
    rewrite (Rmin_right 1.0 (equilibrium * pw)), (Rmax_right 0.0 (equilibrium * pw)) by lra.
    split_and!; [lra | lra | intros; lra | done].
Qed.

(** X21. [phi_normalize] raises KeyError exactly for a dimension other
    than 'L', 'J', 'P', 'W'.  Otherwise its result lies between 0 and the
    equilibrium of the dimension: it is 0 for a value of at most 0, the
    equilibrium itself for a value of at least 1, and it does not decrease
    when the value grows. *)
Theorem phi_normalize_bounded (value : R) (dimension : string) :
  match QM.phi_normalize value dimension with
  | QM.Raised e => e = QM.KeyError dimension ∧ dimension ∉ ["L"; "J"; "P"; "W"]%string
  | QM.Returned result =>
      ∃ equilibrium,
        dict_lookup QM.NATURAL_EQUILIBRIUM dimension = Some equilibrium ∧
        dimension ∈ ["L"; "J"; "P"; "W"]%string ∧
        0 <= result <= equilibrium ∧ equilibrium < 0.72 ∧
        (value <= 0 → result = 0) ∧
        (1 <= value → result = equilibrium) ∧
        ∀ value', value <= value' →
          ∃ result', QM.phi_normalize value' dimension = QM.Returned result' ∧
                     result <= result'
  end.
Proof.
  destruct (dict_lookup QM.NATURAL_EQUILIBRIUM dimension) as [equilibrium|] eqn:Hd.
  - pose proof (NATURAL_EQUILIBRIUM_cases _ _ Hd) as [Hin He].
    destruct (phi_normalize_known value _ _ Hd) as (result & -> & Hr & Hzero & Hpos).
    exists equilibrium. split_and!; try done; try lra.
    + intros Hv. rewrite Hpos by lra. rewrite Rmin_left by lra.
      unfold Rpower. rewrite ln_1, Rmult_0_r, exp_0. lra.
    + intros value' Hle.
      destruct (phi_normalize_known value' _ _ Hd) as (result' & -> & Hr' & Hzero' & Hpos').
      exists result'. split; [done|].
      destruct (Rle_lt_dec value 0) as [Hneg|Hgt].
      * rewrite Hzero by done. lra.
      * rewrite Hpos, Hpos' by lra.
        apply Rmult_le_compat_l; [lra|].
        pose proof PHI_bounds.
        apply Rle_Rpower_l.
        -- apply Rlt_le, Rdiv_lt_0_compat; lra.
        -- split; [apply Rmin_glb_lt; lra|]. apply Rle_min_compat_l. lra.
  - unfold QM.phi_normalize. rewrite Hd. split; [done|].
    by apply NATURAL_EQUILIBRIUM_missing.
Qed.

(** X22. A measurement whose Love was returned by
    [phi_normalize(value, 'L')] is never in the AUTOPOIETIC phase: the
    normalised Love cannot exceed the equilibrium 0.618, and the phase asks
    for more than 0.7. *)
Theorem phi_normalized_love_not_autopoietic (value : R) (m : QM.LJPWMeasurement) :
  QM.phi_normalize value "L" = QM.Returned (QM.L m) →
  QM.phase m ≠ AUTOPOIETIC.
Proof.
  intros Hm.
  destruct (phi_normalize_known value PHI_INV "L" eq_refl) as (result & Hrun & Hr & _).
  rewrite Hm in Hrun. injection Hrun as <-.
  pose proof L0_bounds as HL. unfold L0 in HL.
  unfold QM.phase. case_decide; [done|].
  rewrite decide_False; [done|]. intros [? _]. lra.
Qed.

Lemma phi_normalized_love_not_autopoietic_witness :
  QM.phi_normalize 2 "L"
    = QM.Returned (QM.L (QM.mkLJPWMeasurement PHI_INV 0.9 0.9 0.9 0.7 "proxy")) ∧
  QM.phase (QM.mkLJPWMeasurement PHI_INV 0.9 0.9 0.9 0.7 "proxy") ≠ AUTOPOIETIC.
Proof.
  assert (Hrun : QM.phi_normalize 2 "L"
                 = QM.Returned (QM.L (QM.mkLJPWMeasurement PHI_INV 0.9 0.9 0.9 0.7 "proxy"))).
  { destruct (phi_normalize_known 2 PHI_INV "L" eq_refl) as (result & -> & _ & _ & Hpos).
    cbn [QM.L]. f_equal. rewrite Hpos by lra. rewrite Rmin_left by lra.
    unfold Rpower. rewrite ln_1, Rmult_0_r, exp_0. lra. }
  split; [exact Hrun|].
  exact (phi_normalized_love_not_autopoietic 2 _ Hrun).
Defined.

(** ** quantum_consensus *)

Lemma phi_alignment_range (a b c d : R) (m : QM.LJPWMeasurement) :
  0.1 <= QM.phi_alignment a b c d m <= 1.
Proof.
  unfold QM.phi_alignment. cbv zeta. split; [apply Rmax_l|].
  pose proof (Rabs_pos (PHI * (QM.L m / Rmax a 0.001) - PHI)).
  pose proof (Rabs_pos (PHI * (QM.J m / Rmax b 0.001) - PHI)).
  pose proof (Rabs_pos (PHI * (QM.P m / Rmax c 0.001) - PHI)).
  pose proof (Rabs_pos (PHI * (QM.W m / Rmax d 0.001) - PHI)).
  apply Rmax_lub; lra.
Qed.

Lemma weights_sum_pos (a : QM.LJPWMeasurement → R) (ms : list QM.LJPWMeasurement) :
  (∀ m, 0.1 <= a m) → ms ≠ [] → 0 < Rsum (a <$> ms).
Proof.
  intros Ha Hne.
  assert (0.1 * INR (length ms) <= Rsum (a <$> ms)).
  { clear Hne. induction ms as [|m ms IH].
    - unfold Rsum. cbn. lra.
    - rewrite fmap_cons, Rsum_cons. cbn [length]. rewrite S_INR. specialize (Ha m). lra. }
  assert (0 < INR (length ms)) by (apply lt_0_INR; destruct ms; [done | cbn; lia]).
  lra.
Qed.

(** X23. The weight that [quantum_consensus] gives to a measurement is
    between 0.1 and 1, whatever the means it is compared with; so the
    total weight of one or more measurements is positive, and the
    weighted means do not divide by zero.  Without measurements the
    result is the 'no_data' measurement with confidence 0, a single
    measurement is returned as it is, and the consensus of two or more
    carries the method 'quantum_consensus'. *)
Theorem quantum_consensus_weights (measurements : list QM.LJPWMeasurement)
    (mean_L mean_J mean_P mean_W : R) :
  Forall (λ m, 0.1 <= QM.phi_alignment mean_L mean_J mean_P mean_W m <= 1) measurements ∧
  (measurements ≠ [] →
   0 < Rsum (QM.phi_alignment mean_L mean_J mean_P mean_W <$> measurements)) ∧
  match measurements with
  | [] => QM.quantum_consensus measurements
          = QM.mkLJPWMeasurement 0.5 0.5 0.5 0.5 0.0 "no_data"
  | [m] => QM.quantum_consensus measurements = m
  | _ => QM.method (QM.quantum_consensus measurements) = "quantum_consensus"%string
  end.
Proof.
  split_and!.
  - apply Forall_forall. intros m _. apply phi_alignment_range.
  - apply weights_sum_pos. intros m. apply phi_alignment_range.
  - by destruct measurements as [|m1 [|m2 ms]].
Qed.

(** ** validate_against_calibration *)

Lemma CALIBRATION_POINTS_range (reference : string) (ref : QM.CalibrationPoint) :
  dict_lookup QM.CALIBRATION_POINTS reference = Some ref →
  0 <= QM.cal_L ref <= 1 ∧ 0 <= QM.cal_J ref <= 1 ∧
  0 <= QM.cal_P ref <= 1 ∧ 0 <= QM.cal_W ref <= 1.
Proof.
  unfold QM.CALIBRATION_POINTS. cbn [dict_lookup].
  repeat match goal with
  | |- context [String.eqb ?a ?b] =>
      destruct (String.eqb a b); [intros [= <-]; cbn; lra|]
  end.
  done.
Qed.

(** X24. [validate_against_calibration] returns the error dict exactly
    for a reference that is no key of [CALIBRATION_POINTS].  Otherwise the
    total deviation is not negative, the alignment score is at most 1,
    it is 1 for a measurement that has the coordinates of the reference
    point, and it is at least 0 for a measurement with coordinates in
    [0, 1]. *)
Theorem validate_alignment_score (measurement : QM.LJPWMeasurement) (reference : string) :
  match QM.validate_against_calibration measurement reference with
  | QM.Error error =>
      error = "Unknown reference point"%string ∧
      dict_lookup QM.CALIBRATION_POINTS reference = None
  | QM.Report name deviations total_deviation alignment_score =>
      ∃ ref,
        dict_lookup QM.CALIBRATION_POINTS reference = Some ref ∧
        name = QM.cal_name ref ∧
        0 <= total_deviation ∧
        alignment_score <= 1 ∧
        (QM.L measurement = QM.cal_L ref ∧ QM.J measurement = QM.cal_J ref ∧
         QM.P measurement = QM.cal_P ref ∧ QM.W measurement = QM.cal_W ref →
         alignment_score = 1) ∧
        (0 <= QM.L measurement <= 1 → 0 <= QM.J measurement <= 1 →
         0 <= QM.P measurement <= 1 → 0 <= QM.W measurement <= 1 →
         0 <= alignment_score)
  end.
Proof.
  unfold QM.validate_against_calibration.
  destruct (dict_lookup QM.CALIBRATION_POINTS reference) as [ref|] eqn:Href; [|done].
  cbv zeta. exists ref.
  pose proof (CALIBRATION_POINTS_range _ _ Href) as (HL & HJ & HP & HW).
  pose proof (Rabs_pos (QM.L measurement - QM.cal_L ref)) as HdL.
  pose proof (Rabs_pos (QM.J measurement - QM.cal_J ref)) as HdJ.
  pose proof (Rabs_pos (QM.P measurement - QM.cal_P ref)) as HdP.
  pose proof (Rabs_pos (QM.W measurement - QM.cal_W ref)) as HdW.
  split; [reflexivity|]. split; [reflexivity|].
  split; [lra|]. split; [lra|]. split.
  - intros (HeL & HeJ & HeP & HeW).
    rewrite HeL, HeJ, HeP, HeW, !Rminus_diag, Rabs_R0. lra.
  - intros ML MJ MP MW.
    assert (Hle : ∀ a b, 0 <= a <= 1 → 0 <= b <= 1 → Rabs (a - b) <= 1)
      by (intros; apply Rabs_le; lra).
    pose proof (Hle _ _ ML HL). pose proof (Hle _ _ MJ HJ).
    pose proof (Hle _ _ MP HP). pose proof (Hle _ _ MW HW). lra.
Qed.

(** * Properties of the neural architecture *)

(** ** The uncertainty penalty *)

Lemma Arch_UNCERTAINTY_BOUND_pos : 0.287 < Arch.UNCERTAINTY_BOUND < 0.2872.
Proof.
  unfold Arch.UNCERTAINTY_BOUND. pose proof J0_bounds. pose proof W0_bounds. nra.
Qed.

(** X25. The penalty of [enforce] lies between 0 and the bound J0 * W0.
    It is 0 exactly when the uncertainty product reaches the bound, and it
    is the whole bound when one of the capacities sits at its
    equilibrium, as both do in freshly constructed streams. *)
Theorem enforce_penalty (p_capacity w_capacity : R) :
  0 <= Arch.enforce p_capacity w_capacity <= Arch.UNCERTAINTY_BOUND ∧
  (Arch.enforce p_capacity w_capacity = 0
     ↔ Arch.UNCERTAINTY_BOUND <= Arch.compute_uncertainty p_capacity w_capacity) ∧
  (p_capacity = P0 ∨ w_capacity = W0 →
   Arch.enforce p_capacity w_capacity = Arch.UNCERTAINTY_BOUND) ∧
  Arch.enforce P0 W0 = Arch.UNCERTAINTY_BOUND.
Proof.
  pose proof Arch_UNCERTAINTY_BOUND_pos as Hb.
  assert (Hu : ∀ p w, 0 <= Arch.compute_uncertainty p w).
  { intros p w. unfold Arch.compute_uncertainty. cbv zeta.
    apply Rmult_le_pos; apply Rabs_pos. }
  assert (Hzero : ∀ p w, p = P0 ∨ w = W0 → Arch.compute_uncertainty p w = 0).
  { intros p w. unfold Arch.compute_uncertainty. cbv zeta.
    intros [->| ->]; rewrite Rminus_diag, Rabs_R0; lra. }
  assert (Hcases : ∀ p w,
            (Arch.UNCERTAINTY_BOUND <= Arch.compute_uncertainty p w ∧ Arch.enforce p w = 0) ∨
            (Arch.compute_uncertainty p w < Arch.UNCERTAINTY_BOUND ∧
             Arch.enforce p w = Arch.UNCERTAINTY_BOUND - Arch.compute_uncertainty p w)).
  { intros p w. unfold Arch.enforce, Arch.relu. cbv zeta.
    destruct (Rle_lt_dec Arch.UNCERTAINTY_BOUND (Arch.compute_uncertainty p w)).
    - left. split; [done|]. apply Rmax_left. lra.
    - right. split; [done|]. apply Rmax_right. lra. }
  pose proof (Hu p_capacity w_capacity).
  split_and!.
  - destruct (Hcases p_capacity w_capacity) as [[? ->]|[? ->]]; lra.
  - destruct (Hcases p_capacity w_capacity) as [[? ->]|[? ->]]; lra.
  - destruct (Hcases p_capacity w_capacity) as [[? ->]|[? ->]]; split; intros; lra.
  - intros Hz%Hzero. destruct (Hcases p_capacity w_capacity) as [[? ->]|[? ->]]; lra.
  - destruct (Hcases P0 W0) as [[? ->]|[? ->]].
    + assert (Arch.compute_uncertainty P0 W0 = 0) by (apply Hzero; by left). lra.
    + assert (Arch.compute_uncertainty P0 W0 = 0) by (apply Hzero; by left). lra.
Qed.

(** ** phi_dimensions *)

Lemma py_int_floor (x : R) : 0 <= x → (0 <= py_int x)%Z ∧ IZR (py_int x) <= x.
Proof.
  intros Hx. unfold py_int. rewrite decide_True by done.
  pose proof (base_Int_part x) as [Hle Hgt]. split; [|done].
  apply le_IZR. destruct (Z_le_gt_dec 0 (Int_part x)) as [Hz|Hz]; [by apply IZR_le|].
  assert (IZR (Int_part x) <= -1) by (apply IZR_le; lia). lra.
Qed.

Lemma phi_dimensions_next (current : Z) :
  let next := py_int (IZR current * PHI_INV) in
  let next := if decide (next < 1)%Z then 1%Z else next in
  (1 <= next)%Z ∧ ((1 <= current)%Z → (next <= current)%Z).
Proof.
  cbv zeta. case_decide as Hlt; [lia|]. split; [lia|].
  intros Hc. pose proof L0_bounds as HL. unfold L0 in HL.
  assert (0 <= IZR current * PHI_INV) as Hpos.
  { apply Rmult_le_pos; [apply IZR_le; lia | lra]. }
  pose proof (py_int_floor _ Hpos) as [_ Hle].
  apply le_IZR. assert (1 <= IZR current) by (apply IZR_le; lia). nra.
Qed.

Lemma phi_dimensions_loop_spec (n : nat) (current : Z) (dims : list Z) :
  ∃ more,
    Arch.phi_dimensions_loop n current dims = dims ++ more ∧
    length more = n ∧
    Forall (λ d, 1 <= d)%Z more ∧
    ((1 <= current)%Z →
     ∀ i a b, (current :: more) !! i = Some a → (current :: more) !! S i = Some b →
              (b <= a)%Z).
Proof.
  revert current dims. induction n as [|n IH]; intros current dims; cbn [Arch.phi_dimensions_loop].
  - exists []. rewrite app_nil_r. by split_and!.
  - pose proof (phi_dimensions_next current) as Hnext. cbv zeta in *.
    set (next := if decide (py_int (IZR current * PHI_INV) < 1)%Z then 1%Z
                 else py_int (IZR current * PHI_INV)) in *.
    destruct Hnext as [Hge Hle].
    destruct (IH next (dims ++ [next])) as (more & -> & Hlen & Hall & Hmono).
    exists (next :: more). rewrite <- app_assoc. split_and!; try done.
    + cbn. by rewrite Hlen.
    + by constructor.
    + intros Hc [|i] a b Ha Hb; cbn in Ha, Hb.
      * simplify_eq. by apply Hle.
      * by apply (Hmono Hge i).
Qed.

(** X26. [phi_dimensions(start_dim, num_layers)] returns [start_dim]
    followed by [num_layers - 1] further dimensions (none when
    [num_layers] is below 2), each of them at least 1; from a
    [start_dim] of at least 1 the dimensions never increase. *)
Theorem phi_dimensions_descend (start_dim num_layers : Z) :
  ∃ more,
    Arch.phi_dimensions start_dim num_layers = start_dim :: more ∧
    length more = Z.to_nat (num_layers - 1) ∧
    Forall (λ d, 1 <= d)%Z more ∧
    ((1 <= start_dim)%Z →
     ∀ i a b, Arch.phi_dimensions start_dim num_layers !! i = Some a →
              Arch.phi_dimensions start_dim num_layers !! S i = Some b →
              (1 <= b <= a)%Z).
Proof.
  unfold Arch.phi_dimensions.
  destruct (phi_dimensions_loop_spec (Z.to_nat (num_layers - 1)) start_dim [start_dim])
    as (more & -> & Hlen & Hall & Hmono).
  exists more. split_and!; try done.
  intros Hs i a b Ha Hb. cbn [app] in *. split; [|by apply (Hmono Hs i)].
  cbn in Hb. rewrite Forall_forall in Hall. apply Hall. by eapply list_elem_of_lookup_2.
Qed.

(** ** fibonacci_heads *)

Lemma fibonacci_pair_spec (i : nat) :
  fibonacci_pair i = (fibonacci i, fibonacci (S i)) ∧
  (1 <= fibonacci i <= fibonacci (S i))%Z.
Proof.
  unfold fibonacci. induction i as [|i [IH Hle]]; [by cbn|].
  cbn [fibonacci_pair] in *. destruct (fibonacci_pair i) as [a b]. cbn [fst] in *.
  destruct (fibonacci_pair (S i)) as [a' b'] eqn:E. cbn [fst] in *.
  simplify_eq. cbn [fst]. split; [done | lia].
Qed.

Lemma fibonacci_SS (i : nat) :
  fibonacci (S (S i)) = (fibonacci i + fibonacci (S i))%Z.
Proof.
  pose proof (fibonacci_pair_spec i) as [Hp _].
  unfold fibonacci at 1. cbn [fibonacci_pair]. rewrite Hp.
  pose proof (fibonacci_pair_spec (S i)) as [Hp' _].
  cbn [fibonacci_pair] in Hp'. rewrite Hp in Hp'. by simplify_eq.
Qed.

Lemma fibonacci_pos (i : nat) : (1 <= fibonacci i)%Z.
Proof. pose proof (fibonacci_pair_spec i). lia. Qed.

Lemma fibonacci_mono (i j : nat) : (i <= j)%nat → (fibonacci i <= fibonacci j)%Z.
Proof.
  induction 1 as [|j _ IH]; [lia|].
  pose proof (fibonacci_pair_spec j). lia.
Qed.

Lemma fibonacci_prefix_S (n : nat) :
  fibonacci_prefix (S n) = fibonacci_prefix n ++ [fibonacci n].
Proof. unfold fibonacci_prefix. by rewrite seq_S, fmap_app. Qed.

Lemma fibonacci_prefix_last (n : nat) :
  last_item (fibonacci_prefix (S n)) = Some (fibonacci n).
Proof. unfold last_item. rewrite fibonacci_prefix_S. apply last_snoc. Qed.

Lemma fibonacci_prefix_second_last (n : nat) :
  second_last_item (fibonacci_prefix (S (S n))) = Some (fibonacci n).
Proof.
  unfold second_last_item. rewrite !fibonacci_prefix_S, <- app_assoc.
  by rewrite reverse_app.
Qed.

Lemma fibonacci_prefix_bounded (n : nat) (max_heads : Z) :
  (∀ i, (i < n)%nat → (fibonacci i <= max_heads)%Z) →
  Forall (λ h, 1 <= h <= max_heads)%Z (fibonacci_prefix n).
Proof.
  intros Hle. unfold fibonacci_prefix. apply Forall_fmap, Forall_forall.
  intros i Hi%elem_of_seq. cbn. pose proof (fibonacci_pos i). split; [done|].
  apply Hle. lia.
Qed.

Lemma fibonacci_loop_spec (max_heads : Z) (fuel k : nat) :
  (fibonacci k < max_heads)%Z →
  (Z.to_nat (max_heads - fibonacci (S k)) <= fuel)%nat →
  ∃ k', Arch.fibonacci_loop fuel max_heads (fibonacci_prefix (S (S k)))
          = Some (fibonacci_prefix (S (S k'))) ∧
        (fibonacci k' < max_heads <= fibonacci (S k'))%Z.
Proof.
  revert k. induction fuel as [|fuel IH]; intros k Hk Hfuel.
  - exists k. cbn [Arch.fibonacci_loop]. rewrite fibonacci_prefix_last.
    rewrite decide_False by lia. split; [done | lia].
  - cbn [Arch.fibonacci_loop]. rewrite fibonacci_prefix_last.
    case_decide as Hlt; [|exists k; split; [done | lia]].
    rewrite fibonacci_prefix_second_last.
    replace (fibonacci (S k) + fibonacci k)%Z with (fibonacci (S (S k)))
      by (rewrite fibonacci_SS; lia).
    rewrite <- fibonacci_prefix_S.
    apply IH; [done|].
    rewrite fibonacci_SS. pose proof (fibonacci_pos k). lia.
Qed.

Lemma filter_all {A : Type} (P : A → Prop) `{∀ x, Decision (P x)} (l : list A) :
  Forall P l → filter P l = l.
Proof.
  induction 1 as [|x l Hx _ IH]; [done|]. by rewrite filter_cons_True, IH.
Qed.

(** What [fibonacci_heads] returns, with the facts its callers use. *)
Lemma fibonacci_heads_spec (max_heads : Z) :
  ∃ n, Arch.fibonacci_heads max_heads = Some (fibonacci_prefix n) ∧
       Forall (λ h, 1 <= h <= max_heads)%Z (fibonacci_prefix n) ∧
       (max_heads < fibonacci n)%Z ∧
       ((max_heads < 1)%Z → n = 0%nat) ∧
       ((1 <= max_heads)%Z → (2 <= n)%nat).
Proof.
  unfold Arch.fibonacci_heads.
  destruct (Z_lt_le_dec max_heads 2) as [Hsmall|Hbig].
  - assert (Hloop : Arch.fibonacci_loop (Z.to_nat max_heads) max_heads [1; 1]%Z
                    = Some [1; 1]%Z).
    { assert (Hlast : last_item [1; 1]%Z = Some 1%Z) by reflexivity.
      destruct (Z.to_nat max_heads); cbn [Arch.fibonacci_loop]; rewrite Hlast;
        rewrite decide_False by lia; done. }
    rewrite Hloop. cbn [mbind option_bind].
    destruct (Z_lt_le_dec max_heads 1) as [Hlt|Hge].
    + exists 0%nat. split_and!; try done; try lia.
      rewrite !filter_cons_False by lia. done.
    + exists 2%nat. split_and!; try lia.
      * rewrite !filter_cons_True by lia. done.
      * apply fibonacci_prefix_bounded. intros [|[|i]] Hi; cbn; lia.
      * cbn. lia.
  - destruct (fibonacci_loop_spec max_heads (Z.to_nat max_heads) 0) as (k & Hloop & Hk & Hk').
    { cbn. lia. }
    { cbn. lia. }
    change [1; 1]%Z with (fibonacci_prefix 2). rewrite Hloop. cbn [mbind option_bind].
    rewrite (fibonacci_prefix_S (S k)), filter_app.
    assert (Hall : Forall (λ h, 1 <= h <= max_heads)%Z (fibonacci_prefix (S k))).
    { apply fibonacci_prefix_bounded. intros i Hi.
      pose proof (fibonacci_mono i k ltac:(lia)). lia. }
    rewrite (filter_all _ (fibonacci_prefix (S k)))
      by (eapply Forall_impl; [exact Hall | intros h Hh; cbv beta in *; lia]).
    destruct (Z_le_gt_dec (fibonacci (S k)) max_heads) as [Hle|Hgt].
    + exists (S (S k)). rewrite filter_cons_True by done. rewrite filter_nil.
      rewrite <- fibonacci_prefix_S. split_and!; try lia; [done| |].
      * apply fibonacci_prefix_bounded. intros i Hi.
        pose proof (fibonacci_mono i (S k) ltac:(lia)). lia.
      * rewrite fibonacci_SS. pose proof (fibonacci_pos k). lia.
    + exists (S k). rewrite filter_cons_False by lia. rewrite filter_nil, app_nil_r.
      split_and!; try lia; [done | done |].
      intros _. destruct k as [|k]; [cbn in Hgt; lia | lia].
Qed.

(** X27. [fibonacci_heads(max_heads)] terminates and returns the longest
    initial part of the Fibonacci sequence 1, 1, 2, 3, 5, ... whose
    members are all at most [max_heads]: every member is between 1 and
    [max_heads], the next Fibonacci number is larger than [max_heads], and
    the list is empty exactly when [max_heads] is below 1. *)
Theorem fibonacci_heads_longest_prefix (max_heads : Z) :
  ∃ n, Arch.fibonacci_heads max_heads = Some (fibonacci_prefix n) ∧
       Forall (λ h, 1 <= h <= max_heads)%Z (fibonacci_prefix n) ∧
       (max_heads < fibonacci n)%Z ∧
       (n = 0%nat ↔ (max_heads < 1)%Z).
Proof.
  destruct (fibonacci_heads_spec max_heads) as (n & Hrun & Hall & Hnext & Hzero & Hpos).
  exists n. split_and!; try done. split; [|done].
  intros ->. cbn in Hnext. lia.
Qed.

(** X28. The number of attention heads [WStream.__init__] keeps is always
    at least 1, so the division [hidden_dim // num_heads] cannot fail; for
    a requested number of at least 1 it is a Fibonacci number that is at
    most the requested number and more than half of it. *)
Theorem WStream_num_heads_range (num_heads : Z) :
  ∃ heads, Arch.WStream_num_heads num_heads = Some heads ∧
           (1 <= heads)%Z ∧
           ((num_heads < 1)%Z → heads = 1%Z) ∧
           ((1 <= num_heads)%Z →
            (heads <= num_heads < 2 * heads)%Z ∧ ∃ i, heads = fibonacci i).
Proof.
  destruct (fibonacci_heads_spec num_heads) as (n & Hrun & Hall & Hnext & Hzero & Hpos).
  unfold Arch.WStream_num_heads. rewrite Hrun. cbn [mbind option_bind].
  eexists. split; [reflexivity|].
  destruct (Z_lt_le_dec num_heads 1) as [Hlt|Hge].
  - rewrite (Hzero Hlt). cbn. split_and!; [lia | done | lia].
  - specialize (Hpos Hge). destruct n as [|[|n]]; [lia | lia |].
    rewrite fibonacci_prefix_last. cbn [from_option Datatypes.id].
    pose proof (fibonacci_pos (S n)).
    assert (fibonacci (S n) <= num_heads)%Z.
    { rewrite Forall_forall in Hall. apply (Hall (fibonacci (S n))).
      rewrite fibonacci_prefix_S. apply elem_of_app. right. apply list_elem_of_here. }
    rewrite fibonacci_SS in Hnext.
    pose proof (fibonacci_mono n (S n) ltac:(lia)).
    split_and!; [lia | lia |]. intros _. split; [lia | by exists (S n)].
Qed.
